(** * SportsBuddy: the game-preview pipeline, embedded and verified

    A shallow embedding of the JavaScript/TypeScript sources

    - [mcp-server/data-formatter.js]   (module [DataFormatter])
    - [mcp-server/response-parser.js]  (modules [ResponseParser],
      [ParserExtractors] and [ParserScore])
    - [mcp-server/mlb-api.js]          (modules [MlbApi] and [MlbQueries])
    - [mcp-server/server.js]           (module [Server])
    - [server/src/services/mcpClient.ts] (module [McpClient])
    - the [useGameData] hook of the web client (module [GameDataHook])

    The first part of the file holds the embedding, the second part the
    lemmas and theorems about it, the third part further properties of
    the embedded code.

    Conventions of the embedding.
    - A JavaScript value is a [Js.JsVal]; objects are association lists in
      insertion order.
    - An evaluation that may throw returns a [Js.Res]: [Ok v] or
      [Throw msg], [msg] being the [message] of the thrown error.
    - Numbers are exact rationals extended with [NaN] and the two
      infinities ([Js.JsNum]). A rational stands for the double nearest
      to it; [calculateAdvantage], whose result depends on the rounding
      of a quotient, computes on these doubles with the arithmetic of
      IEEE 754 binary64 ([Ieee]). The sign of zero is not represented.
    - Strings are sequences of 8-bit code units (the Latin-1 range of
      JavaScript's UTF-16 code units).
    - [Date.now()] is an explicit argument of every function that reads
      the clock; network calls are outcomes supplied by the environment. *)

From Stdlib Require Import String Ascii List ZArith QArith Qabs Lia Lqa Bool.
From Stdlib Require Import DecimalString.
From Stdlib Require SpecFloat.
From stdpp Require Import gmap strings.
Import ListNotations.
Open Scope string_scope.
Set Warnings "-register-all".

(* ===================================================================== *)
(** * Part I: the embedding                                               *)
(* ===================================================================== *)

(* --------------------------------------------------------------------- *)
(** ** JavaScript values and the operators the sources use                *)
(* --------------------------------------------------------------------- *)

Module Js.

(** Completion of an evaluation: a value, or a thrown error's message. *)
Inductive Res (A : Type) : Type :=
| Ok (a : A)
| Throw (msg : string).
Arguments Ok {A} a.
Arguments Throw {A} msg.

Definition bind {A B : Type} (c : Res A) (k : A -> Res B) : Res B :=
  match c with
  | Ok a => k a
  | Throw m => Throw m
  end.

Notation "x <- c ;; k" := (bind c (fun x => k))
  (at level 100, c at next level, right associativity).

Definition isOk {A : Type} (c : Res A) : bool :=
  match c with Ok _ => true | Throw _ => false end.

(** [list.forEach] / [reduce] with a body that may throw. *)
Fixpoint foldM {A S : Type} (f : S -> A -> Res S) (l : list A) (s : S) : Res S :=
  match l with
  | [] => Ok s
  | x :: l' => s' <- f s x ;; foldM f l' s'
  end.

(** [list.map] with a body that may throw. *)
Fixpoint mapM {A B : Type} (f : A -> Res B) (l : list A) : Res (list B) :=
  match l with
  | [] => Ok []
  | x :: l' => y <- f x ;; ys <- mapM f l' ;; Ok (y :: ys)
  end.

(** *** The console

    One call of [console.error(text, data)]: its first argument, and its
    second, a string or a caught error, given by its message. How the
    runtime prints an error (its stack) is not part of the embedding. *)
Inductive ConsoleData : Type :=
| Str (s : string)
| Err (message : string).

Definition ConsoleCall : Type := (string * ConsoleData)%type.

(** *** Numbers *)

Inductive JsNum : Type :=
| Fin (q : Q)
| PInf
| NInf
| NaN.

Definition Qltb (x y : Q) : bool := negb (Qle_bool y x).

Definition num_neg (a : JsNum) : JsNum :=
  match a with
  | Fin x => Fin (- x)
  | PInf => NInf
  | NInf => PInf
  | NaN => NaN
  end.

Definition num_add (a b : JsNum) : JsNum :=
  match a, b with
  | NaN, _ | _, NaN => NaN
  | Fin x, Fin y => Fin (x + y)
  | PInf, NInf | NInf, PInf => NaN
  | PInf, _ | _, PInf => PInf
  | NInf, _ | _, NInf => NInf
  end.

Definition num_sub (a b : JsNum) : JsNum := num_add a (num_neg b).

(** Sign of a number: [Some true] positive, [Some false] negative,
    [None] zero or NaN. *)
Definition num_sign (a : JsNum) : option bool :=
  match a with
  | Fin x => if Qltb 0 x then Some true else if Qltb x 0 then Some false else None
  | PInf => Some true
  | NInf => Some false
  | NaN => None
  end.

Definition signed_inf (positive : bool) : JsNum := if positive then PInf else NInf.

Definition num_mul (a b : JsNum) : JsNum :=
  match a, b with
  | NaN, _ | _, NaN => NaN
  | Fin x, Fin y => Fin (x * y)
  | _, _ =>
      match num_sign a, num_sign b with
      | Some sa, Some sb => signed_inf (Bool.eqb sa sb)
      | _, _ => NaN (* 0 * Infinity *)
      end
  end.

Definition num_div (a b : JsNum) : JsNum :=
  match a, b with
  | NaN, _ | _, NaN => NaN
  | Fin x, Fin y =>
      if Qeq_bool y 0
      then match num_sign a with
           | Some s => signed_inf s  (* x / 0 *)
           | None => NaN             (* 0 / 0 *)
           end
      else Fin (x / y)
  | Fin _, _ => Fin 0
  | _, Fin y =>
      match num_sign a with
      | Some sa => signed_inf (Bool.eqb sa (negb (Qltb y 0)))
      | None => NaN
      end
  | _, _ => NaN (* Infinity / Infinity *)
  end.

Definition num_abs (a : JsNum) : JsNum :=
  match a with
  | Fin x => Fin (Qabs x)
  | PInf | NInf => PInf
  | NaN => NaN
  end.

(** [a < b] on numbers; false as soon as one side is NaN. *)
Definition num_lt (a b : JsNum) : bool :=
  match a, b with
  | NaN, _ | _, NaN => false
  | Fin x, Fin y => Qltb x y
  | NInf, NInf | PInf, _ | _, NInf => false
  | NInf, _ | _, PInf => true
  end.

Definition num_gt (a b : JsNum) : bool := num_lt b a.

(** [a === b] on numbers. *)
Definition num_eq (a b : JsNum) : bool :=
  match a, b with
  | Fin x, Fin y => Qeq_bool x y
  | PInf, PInf | NInf, NInf => true
  | _, _ => false
  end.

Definition num_of_nat (n : nat) : JsNum := Fin (inject_Z (Z.of_nat n)).
Definition num_of_Z (z : Z) : JsNum := Fin (inject_Z z).

(** *** Values *)

Inductive JsVal : Type :=
| JUndefined
| JNull
| JBool (b : bool)
| JNum (n : JsNum)
| JStr (s : string)
| JArr (elems : list JsVal)
| JObj (fields : list (string * JsVal)).

Definition JInt (z : Z) : JsVal := JNum (num_of_Z z).
Definition JNat (n : nat) : JsVal := JNum (num_of_nat n).

(** [!!v]. *)
Definition truthy (v : JsVal) : bool :=
  match v with
  | JUndefined | JNull => false
  | JBool b => b
  | JNum (Fin q) => negb (Qeq_bool q 0)
  | JNum NaN => false
  | JNum _ => true
  | JStr s => negb (String.eqb s "")
  | JArr _ | JObj _ => true
  end.

Definition isNullish (v : JsVal) : bool :=
  match v with
  | JUndefined | JNull => true
  | _ => false
  end.

(** [a || b] and [a && b] (value-returning). *)
Definition or_ (a b : JsVal) : JsVal := if truthy a then a else b.
Definition and_ (a b : JsVal) : JsVal := if truthy a then b else a.

(** [a === b]. Two object or array values are distinct references. *)
Definition strictEq (a b : JsVal) : bool :=
  match a, b with
  | JUndefined, JUndefined | JNull, JNull => true
  | JBool x, JBool y => Bool.eqb x y
  | JNum x, JNum y => num_eq x y
  | JStr x, JStr y => String.eqb x y
  | _, _ => false
  end.

Definition isNumber (v : JsVal) : bool :=
  match v with JNum _ => true | _ => false end.

Fixpoint lookupField (k : string) (fs : list (string * JsVal)) : JsVal :=
  match fs with
  | [] => JUndefined
  | (k', v) :: fs' => if String.eqb k k' then v else lookupField k fs'
  end.

(** [obj[k] = v]: replaces the binding in place or appends a new one. *)
Fixpoint setField (k : string) (v : JsVal) (fs : list (string * JsVal))
  : list (string * JsVal) :=
  match fs with
  | [] => [(k, v)]
  | (k', v') :: fs' =>
      if String.eqb k k' then (k, v) :: fs' else (k', v') :: setField k v fs'
  end.

Definition typeName (v : JsVal) : string :=
  match v with JNull => "null" | _ => "undefined" end.

Definition cannotRead (v : JsVal) (k : string) : string :=
  "Cannot read properties of " ++ typeName v ++ " (reading '" ++ k ++ "')".

Definition natToString (n : nat) : string :=
  NilEmpty.string_of_uint (Nat.to_uint n).

Definition charAt (s : string) (i : nat) : JsVal :=
  match String.get i s with
  | Some c => JStr (String c EmptyString)
  | None => JUndefined
  end.

(** [v.k] for a name [k]: a TypeError on [undefined] and [null]. *)
Definition get (v : JsVal) (k : string) : Res JsVal :=
  match v with
  | JUndefined | JNull => Throw (cannotRead v k)
  | JObj fs => Ok (lookupField k fs)
  | JArr l => Ok (if String.eqb k "length" then JNat (List.length l) else JUndefined)
  | JStr s => Ok (if String.eqb k "length" then JNat (String.length s) else JUndefined)
  | JBool _ | JNum _ => Ok JUndefined
  end.

(** [v[i]] for an index [i]. *)
Definition getIndex (v : JsVal) (i : nat) : Res JsVal :=
  match v with
  | JUndefined | JNull => Throw (cannotRead v (natToString i))
  | JObj fs => Ok (lookupField (natToString i) fs)
  | JArr l => Ok (nth i l JUndefined)
  | JStr s => Ok (charAt s i)
  | JBool _ | JNum _ => Ok JUndefined
  end.

(** [v?.k] and [v?.[i]]. *)
Definition optGet (v : JsVal) (k : string) : JsVal :=
  match get v k with Ok x => x | Throw _ => JUndefined end.
Definition optIndex (v : JsVal) (i : nat) : JsVal :=
  match getIndex v i with Ok x => x | Throw _ => JUndefined end.

(** A method of [Array.prototype] called on [v]: the elements when [v]
    is an array, a TypeError otherwise ([what] names the call). *)
Definition asArray (what : string) (v : JsVal) : Res (list JsVal) :=
  match v with
  | JArr l => Ok l
  | JUndefined | JNull => Throw (cannotRead v what)
  | _ => Throw (what ++ " is not a function")
  end.

(** A method of [String.prototype] called on [v]. *)
Definition asString (what : string) (v : JsVal) : Res string :=
  match v with
  | JStr s => Ok s
  | JUndefined | JNull => Throw (cannotRead v what)
  | _ => Throw (what ++ " is not a function")
  end.

(** [l.slice(from, to)]. *)
Definition slice {A : Type} (from to : nat) (l : list A) : list A :=
  firstn (to - from) (skipn from l).

(** *** Conversions

    The renderings of numbers as text and of text as numbers are those of
    the JavaScript runtime; the embedding takes them as given. *)
Record Builtins : Type := {
  numberToString : JsNum -> string;      (* String(n) *)
  stringToNumber : string -> JsNum;      (* Number(s) *)
  parseFloatStr : string -> JsNum;       (* parseFloat(s) *)
  toFixed : JsNum -> nat -> string       (* n.toFixed(d) *)
}.

Section Conversions.
Variable rt : Builtins.

Fixpoint jsToString (v : JsVal) : string :=
  match v with
  | JUndefined => "undefined"
  | JNull => "null"
  | JBool true => "true"
  | JBool false => "false"
  | JNum n => numberToString rt n
  | JStr s => s
  | JArr l =>
      (* Array.prototype.join: null and undefined elements are empty *)
      (fix join (l : list JsVal) : string :=
         match l with
         | [] => ""
         | [x] => if isNullish x then "" else jsToString x
         | x :: l' => (if isNullish x then "" else jsToString x) ++ "," ++ join l'
         end) l
  | JObj _ => "[object Object]"
  end.

(** ToPrimitive: objects and arrays become their string. The conversions
    are those of [Object.prototype] and [Array.prototype]: a [toString]
    or [valueOf] field of the object itself is not followed. *)
Definition toPrimitive (v : JsVal) : JsVal :=
  match v with
  | JArr _ | JObj _ => JStr (jsToString v)
  | _ => v
  end.

Definition jsToNumber (v : JsVal) : JsNum :=
  match toPrimitive v with
  | JUndefined => NaN
  | JNull => Fin 0
  | JBool b => if b then Fin 1 else Fin 0
  | JNum n => n
  | JStr s => stringToNumber rt s
  | _ => NaN
  end.

Definition isStr (v : JsVal) : bool :=
  match v with JStr _ => true | _ => false end.

(** [a + b]. *)
Definition jsAdd (a b : JsVal) : JsVal :=
  let pa := toPrimitive a in
  let pb := toPrimitive b in
  if isStr pa || isStr pb
  then JStr (jsToString pa ++ jsToString pb)
  else JNum (num_add (jsToNumber pa) (jsToNumber pb)).

Definition jsSub (a b : JsVal) : JsNum := num_sub (jsToNumber a) (jsToNumber b).
Definition jsDiv (a b : JsVal) : JsNum := num_div (jsToNumber a) (jsToNumber b).

(** [a < b]: code-unit order on two strings, numeric order otherwise. *)
Definition jsLt (a b : JsVal) : bool :=
  match toPrimitive a, toPrimitive b with
  | JStr x, JStr y => String.ltb x y
  | pa, pb => num_lt (jsToNumber pa) (jsToNumber pb)
  end.

Definition jsGt (a b : JsVal) : bool := jsLt b a.

Definition parseFloat (v : JsVal) : JsNum := parseFloatStr rt (jsToString v).

End Conversions.

End Js.

(* --------------------------------------------------------------------- *)
(** ** Doubles                                                            *)
(* --------------------------------------------------------------------- *)

(** The numbers of JavaScript are the binary64 values of IEEE 754. Where
    the code rounds and the rounding decides the result, the arithmetic
    is that of [SpecFloat], with 53 bits of precision and round to
    nearest, ties to even. *)
Module Ieee.
Import Js SpecFloat.

Definition prec : Z := 53.
Definition emax : Z := 1024.

Definition double : Type := spec_float.

Definition add : double -> double -> double := SFadd prec emax.
Definition sub : double -> double -> double := SFsub prec emax.
Definition mul : double -> double -> double := SFmul prec emax.
Definition div : double -> double -> double := SFdiv prec emax.
Definition abs : double -> double := SFabs.

(** [x < y]; false as soon as one side is NaN. *)
Definition ltb : double -> double -> bool := SFltb.

(** A whole number as numerator or denominator of [ofQ]: not rounded. *)
Definition exactZ (z : Z) : double :=
  match z with
  | Z0 => S754_zero false
  | Zpos m => S754_finite false m 0
  | Zneg m => S754_finite true m 0
  end.

(** The double of a whole number. *)
Definition ofZ (z : Z) : double := binary_normalize prec emax z 0 false.

(** The double nearest to a rational: its quotient, rounded once. *)
Definition ofQ (q : Q) : double := div (exactZ (Qnum q)) (exactZ (Zpos (Qden q))).

(** The double a number of the embedding stands for. *)
Definition toDouble (n : JsNum) : double :=
  match n with
  | Fin q => ofQ q
  | PInf => S754_infinity false
  | NInf => S754_infinity true
  | NaN => S754_nan
  end.


End Ieee.

(* --------------------------------------------------------------------- *)
(** ** Strings: the [String.prototype] methods the sources call           *)
(* --------------------------------------------------------------------- *)

Module JsString.

Definition code (c : ascii) : nat := nat_of_ascii c.

Definition between (lo hi : nat) (c : ascii) : bool :=
  Nat.leb lo (code c) && Nat.leb (code c) hi.

(** WhiteSpace and LineTerminator code units below 256: the class [\s]
    of regular expressions and the characters [trim] removes. *)
Definition is_ws (c : ascii) : bool :=
  between 9 13 c || Nat.eqb (code c) 32 || Nat.eqb (code c) 160.

(** LineTerminator: what [.] does not match without the [s] flag. *)
Definition is_lt (c : ascii) : bool :=
  Nat.eqb (code c) 10 || Nat.eqb (code c) 13.

Definition is_digit (c : ascii) : bool := between 48 57 c.

(** [\w] *)
Definition is_word (c : ascii) : bool :=
  between 97 122 c || between 65 90 c || is_digit c || Nat.eqb (code c) 95.

(** Upper-case letters of the Latin-1 range. *)
Definition is_upper (c : ascii) : bool :=
  between 65 90 c || (between 192 222 c && negb (Nat.eqb (code c) 215)).

(** Lower-case letters of the Latin-1 range whose capital is in range. *)
Definition is_lower (c : ascii) : bool :=
  between 97 122 c || (between 224 254 c && negb (Nat.eqb (code c) 247)).

Definition lower (c : ascii) : ascii :=
  if is_upper c then ascii_of_nat (code c + 32) else c.

Definition upper (c : ascii) : ascii :=
  if is_lower c then ascii_of_nat (code c - 32) else c.

(** [s.toLowerCase()] *)
Fixpoint toLowerCase (s : string) : string :=
  match s with
  | EmptyString => EmptyString
  | String c s' => String (lower c) (toLowerCase s')
  end.

(** [s.startsWith(p)] *)
Fixpoint startsWith (s p : string) {struct p} : bool :=
  match p with
  | EmptyString => true
  | String a p' =>
      match s with
      | EmptyString => false
      | String b s' => Ascii.eqb a b && startsWith s' p'
      end
  end.

(** [s.includes(sub)] *)
Fixpoint includes (s sub : string) : bool :=
  if startsWith s sub then true
  else match s with
       | EmptyString => false
       | String _ s' => includes s' sub
       end.

Fixpoint dropWhile (p : ascii -> bool) (l : list ascii) : list ascii :=
  match l with
  | c :: l' => if p c then dropWhile p l' else l
  | [] => []
  end.

Definition trimChars (l : list ascii) : list ascii :=
  rev (dropWhile is_ws (rev (dropWhile is_ws l))).

(** [s.trim()] *)
Definition trim (s : string) : string :=
  string_of_list_ascii (trimChars (list_ascii_of_string s)).

(** The whole number a run of decimal digits spells: what [parseInt]
    returns for it up to 2^53. *)
Definition digitsToNat (l : list ascii) : nat :=
  fold_left (fun acc c => 10 * acc + (code c - 48)) l 0.

End JsString.

(* --------------------------------------------------------------------- *)
(** ** Regular expressions: a backtracking matcher                        *)
(* --------------------------------------------------------------------- *)

(** The fragment of JavaScript's regular expressions the sources use:
    character classes, sequence, alternation, greedy and lazy repetition
    of one character class, capture groups, positive lookahead, anchors
    and word boundaries. Matching follows the priority order of the
    ECMAScript backtracking semantics: the first alternative, the longest
    (greedy) or shortest (lazy) repetition that lets the rest match. *)
Module Regex.
Import JsString.

Definition chars : Type := list ascii.

(** A position in the text: the code units before it (nearest first),
    those from it on, and the capture groups closed so far. *)
Record MState : Type := {
  before : chars;
  rest : chars;
  caps : list (nat * chars)
}.

Inductive re : Type :=
| Eps
| Chr (p : ascii -> bool)
| Seq (r1 r2 : re)
| Alt (r1 r2 : re)
| Star (greedy : bool) (p : ascii -> bool)
| Group (i : nat) (r : re)
| Look (r : re)
| Bos
| Eos
| Bol
| Eol
| WordB.

Definition advance (c : ascii) (t : chars) (s : MState) : MState :=
  {| before := c :: before s; rest := t; caps := caps s |}.

Section Matcher.
Context {R : Type}.

(** [p*]: as many as possible first, then fewer. *)
Fixpoint star_greedy (p : ascii -> bool) (k : MState -> option R)
    (b r : chars) (cs : list (nat * chars)) : option R :=
  let here := {| before := b; rest := r; caps := cs |} in
  match r with
  | c :: t =>
      if p c
      then match star_greedy p k (c :: b) t cs with
           | Some x => Some x
           | None => k here
           end
      else k here
  | [] => k here
  end.

(** [p*?]: as few as possible first, then more. *)
Fixpoint star_lazy (p : ascii -> bool) (k : MState -> option R)
    (b r : chars) (cs : list (nat * chars)) : option R :=
  match k {| before := b; rest := r; caps := cs |} with
  | Some x => Some x
  | None =>
      match r with
      | c :: t => if p c then star_lazy p k (c :: b) t cs else None
      | [] => None
      end
  end.

End Matcher.

(** The text consumed between two positions of one match. *)
Definition consumed (s s' : MState) : chars :=
  rev (firstn (length (before s') - length (before s)) (before s')).

Definition atLineStart (s : MState) : bool :=
  match before s with
  | [] => true
  | c :: _ => is_lt c
  end.

Definition atLineEnd (s : MState) : bool :=
  match rest s with
  | [] => true
  | c :: _ => is_lt c
  end.

Definition atWordBoundary (s : MState) : bool :=
  let a := match before s with c :: _ => is_word c | [] => false end in
  let b := match rest s with c :: _ => is_word c | [] => false end in
  xorb a b.

Definition isEmpty {A : Type} (l : list A) : bool :=
  match l with [] => true | _ => false end.

(** [mt r k s]: match [r] at position [s] and continue with [k]. *)
Fixpoint mt {R : Type} (r : re) (k : MState -> option R) (s : MState) : option R :=
  match r with
  | Eps => k s
  | Chr p =>
      match rest s with
      | c :: t => if p c then k (advance c t s) else None
      | [] => None
      end
  | Seq r1 r2 => mt r1 (mt r2 k) s
  | Alt r1 r2 =>
      match mt r1 k s with
      | Some x => Some x
      | None => mt r2 k s
      end
  | Star true p => star_greedy p k (before s) (rest s) (caps s)
  | Star false p => star_lazy p k (before s) (rest s) (caps s)
  | Group i r1 =>
      mt r1 (fun s' => k {| before := before s'; rest := rest s';
                            caps := (i, consumed s s') :: caps s' |}) s
  | Look r1 =>
      match mt r1 Some s with
      | Some s' => k {| before := before s; rest := rest s; caps := caps s' |}
      | None => None
      end
  | Bos => if isEmpty (before s) then k s else None
  | Eos => if isEmpty (rest s) then k s else None
  | Bol => if atLineStart s then k s else None
  | Eol => if atLineEnd s then k s else None
  | WordB => if atWordBoundary s then k s else None
  end.

(** One match: where it starts and the position after it. *)
Record Match : Type := {
  m_start : MState;
  m_end : MState
}.

Definition matched (m : Match) : string :=
  string_of_list_ascii (consumed (m_start m) (m_end m)).

Fixpoint lookupCap (i : nat) (cs : list (nat * chars)) : option chars :=
  match cs with
  | [] => None
  | (j, c) :: cs' => if Nat.eqb i j then Some c else lookupCap i cs'
  end.

(** [m[i]] for a capture group [i]. *)
Definition group (i : nat) (m : Match) : option string :=
  option_map string_of_list_ascii (lookupCap i (caps (m_end m))).

(** The leftmost match at or after a position. *)
Fixpoint searchFrom (r : re) (b t : chars) : option Match :=
  let here := {| before := b; rest := t; caps := [] |} in
  match mt r Some here with
  | Some e => Some {| m_start := here; m_end := e |}
  | None =>
      match t with
      | c :: t' => searchFrom r (c :: b) t'
      | [] => None
      end
  end.

(** [text.match(r)] for [r] without the [g] flag. *)
Definition search (r : re) (text : string) : option Match :=
  searchFrom r [] (list_ascii_of_string text).

(** Successive matches from a position; an empty match moves one code
    unit on, as [lastIndex] does. [fuel] bounds the number of matches. *)
Fixpoint matchesFrom (fuel : nat) (r : re) (b t : chars) : list Match :=
  match fuel with
  | O => []
  | S fuel' =>
      match searchFrom r b t with
      | None => []
      | Some m =>
          let e := m_end m in
          if Nat.eqb (length (before e)) (length (before (m_start m)))
          then match rest e with
               | c :: t' => m :: matchesFrom fuel' r (c :: before e) t'
               | [] => [m]
               end
          else m :: matchesFrom fuel' r (before e) (rest e)
      end
  end.

(** [text.match(r)] for [r] with the [g] flag: the matched substrings
    ([null] is the empty list). *)
Definition matchAll (r : re) (text : string) : list string :=
  map matched (matchesFrom (S (String.length text)) r [] (list_ascii_of_string text)).

(** [text.replace(r, '')] for [r] without the [g] flag. *)
Definition removeFirst (r : re) (text : string) : string :=
  match search r text with
  | None => text
  | Some m =>
      string_of_list_ascii (rev (before (m_start m)) ++ rest (m_end m))
  end.

(** *** Building expressions *)

Definition any : ascii -> bool := fun _ => true.      (* [.] with the s flag *)
Definition dot : ascii -> bool := fun c => negb (is_lt c).  (* [.] *)
Definition only (a : ascii) : ascii -> bool := fun c => Ascii.eqb c a.
(** A character under the [i] flag. *)
Definition isCI (a : ascii) : ascii -> bool := fun c => Ascii.eqb (upper c) (upper a).
Definition oneOf (set : string) : ascii -> bool :=
  fun c => existsb (Ascii.eqb c) (list_ascii_of_string set).

Fixpoint seqs (l : list re) : re :=
  match l with
  | [] => Eps
  | [r] => r
  | r :: l' => Seq r (seqs l')
  end.

Fixpoint alts (l : list re) : re :=
  match l with
  | [] => Eps
  | [r] => r
  | r :: l' => Alt r (alts l')
  end.

(** A literal word, and a literal word under the [i] flag. *)
Definition lit (w : string) : re :=
  seqs (map (fun a => Chr (only a)) (list_ascii_of_string w)).
Definition litCI (w : string) : re :=
  seqs (map (fun a => Chr (isCI a)) (list_ascii_of_string w)).

(** [p+] and [p+?] *)
Definition plus (greedy : bool) (p : ascii -> bool) : re :=
  Seq (Chr p) (Star greedy p).

End Regex.

(* --------------------------------------------------------------------- *)
(** ** mcp-server/data-formatter.js                                       *)
(* --------------------------------------------------------------------- *)

Module DataFormatter.
Import Js JsString Regex.

(** [this.giantsTeamId = 137] *)
Definition giantsTeamId : JsVal := JInt 137.

(** [{ available: false }] *)
Definition notAvailable : JsVal := JObj [("available", JBool false)].

(** The [percentDiff] of [calculateAdvantage]: every operation of
    [(Math.abs(value1 - value2) / ((value1 + value2) / 2)) * 100] rounds
    to a double. *)
Definition percentDiff (value1 value2 : Ieee.double) : Ieee.double :=
  let diff := Ieee.abs (Ieee.sub value1 value2) in
  let avg := Ieee.div (Ieee.add value1 value2) (Ieee.ofZ 2) in
  Ieee.mul (Ieee.div diff avg) (Ieee.ofZ 100).

(** [calculateAdvantage] on two numbers. *)
Definition advantageOf (value1 value2 : Ieee.double) : string :=
  if Ieee.ltb (percentDiff value1 value2) (Ieee.ofZ 5) then "Even"
  else if Ieee.ltb value2 value1 then "Giants" else "Opponent".

(** [calculateAdvantage(value1, value2)] *)
Definition calculateAdvantage (value1 value2 : JsVal) : string :=
  match value1, value2 with
  | JNum v1, JNum v2 => advantageOf (Ieee.toDouble v1) (Ieee.toDouble v2)
  | _, _ => "Even"
  end.

(** [o.k || d] *)
Definition fieldOr (o : JsVal) (k : string) (d : JsVal) : Res JsVal :=
  v <- get o k ;; Ok (or_ v d).

(** [game.teams.<side>.<k>] *)
Definition teamField (game : JsVal) (side k : string) : Res JsVal :=
  teams <- get game "teams" ;;
  t <- get teams side ;;
  get t k.

(** [game.teams.home.team.id === teamId] *)
Definition homeTeamIs (game teamId : JsVal) : Res bool :=
  team <- teamField game "home" "team" ;;
  id <- get team "id" ;;
  Ok (strictEq id teamId).

(** The three lines that open every loop over games:
    [isHome], [teamScore] and [opponentScore]. *)
Definition gameScores (game teamId : JsVal) : Res (bool * JsVal * JsVal) :=
  isHome <- (if truthy teamId then homeTeamIs game teamId else Ok true) ;;
  teamScore <- teamField game (if isHome then "home" else "away") "score" ;;
  opponentScore <- teamField game (if isHome then "away" else "home") "score" ;;
  Ok (isHome, teamScore, opponentScore).

(** The scores as [formatHeadToHead] and [calculateHeadToHeadTrend] read
    them: the test on the home team is made once for each score. *)
Definition giantsScores (game : JsVal) : Res (JsVal * JsVal) :=
  h1 <- homeTeamIs game giantsTeamId ;;
  giantsScore <- teamField game (if h1 then "home" else "away") "score" ;;
  h2 <- homeTeamIs game giantsTeamId ;;
  opponentScore <- teamField game (if h2 then "away" else "home") "score" ;;
  Ok (giantsScore, opponentScore).

(** [formatPitcherMatchup], [formatMomentumData], and the other one-line
    formatters at the end of the class copy fields of [data]. *)
Definition copyFields (data : JsVal) (names : list (string * string)) : Res JsVal :=
  fs <- mapM (fun '(to, from) => v <- get data from ;; Ok (to, v)) names ;;
  Ok (JObj fs).

(** The second [formatHeadToHead(data)] of the class body (lines 516-523).
    A class keeps the last method of a name, so this is the method
    [this.formatHeadToHead] denotes. *)
Definition formatHeadToHead (data : JsVal) : Res JsVal :=
  copyFields data [("games", "headToHeadGames"); ("team1", "team1Stats");
                   ("team2", "team2Stats"); ("season", "season")].

Definition formatPitcherMatchup (data : JsVal) : Res JsVal :=
  copyFields data [("pitcher", "pitcherStats"); ("opposingTeam", "teamStats");
                   ("headToHead", "headToHead"); ("season", "season")].

Definition formatMomentumData (data : JsVal) : Res JsVal :=
  copyFields data [("recentGames", "recentGames"); ("teamStats", "teamStats");
                   ("standings", "standings"); ("gamesSampled", "games")].

Section WithRuntime.
Variable rt : Builtins.

(** [`${a}-${b}`] *)
Definition dash (a b : JsVal) : string :=
  jsToString rt a ++ "-" ++ jsToString rt b.

(** [o.k1 && o.k2 ? `${o.k1}-${o.k2}` : 'N/A'] *)
Definition pairOrNA (o : JsVal) (k1 k2 : string) : Res JsVal :=
  a <- get o k1 ;;
  c <- (if truthy a then get o k2 else Ok a) ;;
  if truthy c
  then (x <- get o k1 ;; y <- get o k2 ;; Ok (JStr (dash x y)))
  else Ok (JStr "N/A").

(** [extractKeyTeamStats(teamStats)] *)
Definition extractKeyTeamStats (teamStats : JsVal) : Res JsVal :=
  if negb (truthy teamStats) then Ok notAvailable else
  statsArr <- get teamStats "stats" ;;
  if negb (truthy statsArr) then Ok notAvailable else
  len <- get statsArr "length" ;;
  if strictEq len (JInt 0) then Ok notAvailable else
  (* const stats = teamStats.stats[0].splits[0].stat; *)
  first <- getIndex statsArr 0 ;;
  splits <- get first "splits" ;;
  split0 <- getIndex splits 0 ;;
  stats <- get split0 "stat" ;;
  wins <- fieldOr stats "wins" (JInt 0) ;;
  losses <- fieldOr stats "losses" (JInt 0) ;;
  winPercentage <- fieldOr stats "winPercentage" (JStr "0.000") ;;
  runsPerGame <- fieldOr stats "runsPerGame" (JInt 0) ;;
  homeRuns <- fieldOr stats "homeRuns" (JInt 0) ;;
  battingAverage <- fieldOr stats "avg" (JStr "0.000") ;;
  onBasePercentage <- fieldOr stats "obp" (JStr "0.000") ;;
  sluggingPercentage <- fieldOr stats "slg" (JStr "0.000") ;;
  ops <- fieldOr stats "ops" (JStr "0.000") ;;
  earnedRunAverage <- fieldOr stats "earnedRunAverage" (JInt 0) ;;
  whip <- fieldOr stats "whip" (JInt 0) ;;
  strikeOuts <- fieldOr stats "strikeOuts" (JInt 0) ;;
  homeRunsAllowed <- fieldOr stats "homeRunsAllowed" (JInt 0) ;;
  qualityStarts <- fieldOr stats "qualityStarts" (JInt 0) ;;
  saves <- fieldOr stats "saves" (JInt 0) ;;
  errors <- fieldOr stats "errors" (JInt 0) ;;
  fieldingPercentage <- fieldOr stats "fieldingPercentage" (JStr "0.000") ;;
  doublePlays <- fieldOr stats "doublePlays" (JInt 0) ;;
  homeRecord <- pairOrNA stats "homeWins" "homeLosses" ;;
  awayRecord <- pairOrNA stats "awayWins" "awayLosses" ;;
  last10 <- fieldOr stats "last10" (JStr "N/A") ;;
  oneRunGames <- pairOrNA stats "oneRunWins" "oneRunLosses" ;;
  Ok (JObj [
    ("available", JBool true);
    ("record", JObj [("wins", wins); ("losses", losses);
                     ("winPercentage", winPercentage)]);
    ("offense", JObj [("runsPerGame", runsPerGame); ("homeRuns", homeRuns);
                      ("battingAverage", battingAverage);
                      ("onBasePercentage", onBasePercentage);
                      ("sluggingPercentage", sluggingPercentage);
                      ("ops", ops)]);
    ("pitching", JObj [("earnedRunAverage", earnedRunAverage); ("whip", whip);
                       ("strikeOuts", strikeOuts);
                       ("homeRunsAllowed", homeRunsAllowed);
                       ("qualityStarts", qualityStarts); ("saves", saves)]);
    ("fielding", JObj [("errors", errors);
                       ("fieldingPercentage", fieldingPercentage);
                       ("doublePlays", doublePlays)]);
    ("situational", JObj [("homeRecord", homeRecord); ("awayRecord", awayRecord);
                          ("last10", last10); ("oneRunGames", oneRunGames)])
  ]).

(** [a.b.c] on a value the class itself built. *)
Definition path2 (v : JsVal) (k1 k2 : string) : Res JsVal :=
  x <- get v k1 ;; get x k2.

(** [compareTeamStats(giantsStats, opponentStats)] *)
Definition compareTeamStats (giantsStats opponentStats : JsVal) : Res JsVal :=
  giants <- extractKeyTeamStats giantsStats ;;
  opponent <- extractKeyTeamStats opponentStats ;;
  ga <- get giants "available" ;;
  oa <- (if truthy ga then get opponent "available" else Ok ga) ;;
  if negb (truthy ga) || negb (truthy oa) then Ok notAvailable else
  gOps <- path2 giants "offense" "ops" ;;
  oOps <- path2 opponent "offense" "ops" ;;
  oEra <- path2 opponent "pitching" "earnedRunAverage" ;;
  gEra <- path2 giants "pitching" "earnedRunAverage" ;;
  gPct <- path2 giants "record" "winPercentage" ;;
  oPct <- path2 opponent "record" "winPercentage" ;;
  gHome <- path2 giants "situational" "homeRecord" ;;
  Ok (JObj [
    ("available", JBool true);
    ("offensiveAdvantage", JStr (calculateAdvantage gOps oOps));
    ("pitchingAdvantage", JStr (calculateAdvantage oEra gEra));
    ("recordAdvantage", JStr (calculateAdvantage gPct oPct));
    ("homeFieldAdvantage",
       JStr (if negb (strictEq gHome (JStr "N/A")) then "Giants" else "Neutral"))
  ]).

(** [formatTeamStats(giantsStats, opponentStats)] *)
Definition formatTeamStats (giantsStats opponentStats : JsVal) : Res JsVal :=
  giants <- extractKeyTeamStats giantsStats ;;
  opponent <- extractKeyTeamStats opponentStats ;;
  comparison <- compareTeamStats giantsStats opponentStats ;;
  Ok (JObj [("giants", giants); ("opponent", opponent); ("comparison", comparison)]).

(** [calculateStreak(games, teamId)]: the [for ... of] loop with its
    [break], on the games still to visit. *)
Fixpoint streakLoop (teamId : JsVal) (games : list JsVal)
    (streak : nat) (isWinStreak : option bool) : Res (nat * option bool) :=
  match games with
  | [] => Ok (streak, isWinStreak)
  | game :: games' =>
      sc <- gameScores game teamId ;;
      let '(_, teamScore, opponentScore) := sc in
      let isWin := jsGt rt teamScore opponentScore in
      match isWinStreak with
      | None => streakLoop teamId games' 1 (Some isWin)
      | Some w =>
          if Bool.eqb w isWin
          then streakLoop teamId games' (S streak) isWinStreak
          else Ok (streak, isWinStreak)
      end
  end.

Definition calculateStreak (games : list JsVal) (teamId : JsVal) : Res JsVal :=
  match games with
  | [] => Ok (JStr "N/A")
  | _ =>
      r <- streakLoop teamId games 0 None ;;
      let '(streak, isWinStreak) := r in
      Ok (JStr ((if match isWinStreak with Some true => true | _ => false end
                 then "W" else "L") ++ jsToString rt (JNat streak)))
  end.

(** The [reduce] of [identifyTrends]: the sum of the team's scores. *)
Definition sumScores (games : list JsVal) (teamId : JsVal) : Res JsVal :=
  foldM (fun sum game =>
           isHome <- (if truthy teamId then homeTeamIs game teamId else Ok true) ;;
           score <- teamField game (if isHome then "home" else "away") "score" ;;
           Ok (jsAdd rt sum score))
        games (JInt 0).

(** [identifyTrends(games, teamId)] *)
Definition identifyTrends (games : list JsVal) (teamId : JsVal) : Res JsVal :=
  if Nat.ltb (length games) 5 then Ok (JArr []) else
  let recent5 := slice 0 5 games in
  let previous5 := slice 5 10 games in
  recentSum <- sumScores recent5 teamId ;;
  let recentAvgRuns := jsDiv rt recentSum (JNat (length recent5)) in
  previousSum <- sumScores previous5 teamId ;;
  let previousAvgRuns := jsDiv rt previousSum (JNat (length previous5)) in
  if num_gt recentAvgRuns (num_add previousAvgRuns (Fin (1 # 2)))
  then Ok (JArr [JStr "Offense improving"])
  else if num_lt recentAvgRuns (num_sub previousAvgRuns (Fin (1 # 2)))
  then Ok (JArr [JStr "Offense struggling"])
  else Ok (JArr []).

(** The accumulators of the [forEach] of [analyzeRecentGames]. *)
Record Tally : Type := {
  wins : nat;
  runs : JsVal;
  runsAllowed : JsVal;
  homeGames : nat;
  homeWins : nat
}.

Definition tallyGame (teamId : JsVal) (t : Tally) (game : JsVal) : Res Tally :=
  sc <- gameScores game teamId ;;
  let '(isHome, teamScore, opponentScore) := sc in
  let won := jsGt rt teamScore opponentScore in
  Ok {| wins := if won then S (wins t) else wins t;
        runs := jsAdd rt (runs t) (or_ teamScore (JInt 0));
        runsAllowed := jsAdd rt (runsAllowed t) (or_ opponentScore (JInt 0));
        homeGames := if isHome then S (homeGames t) else homeGames t;
        homeWins := if isHome && won then S (homeWins t) else homeWins t |}.

(** [games.slice(0, 10)] followed by [recentGames.forEach]: an array goes
    through, a string survives [slice] but has no [forEach]. *)
Definition recentTen (games : JsVal) : Res (list JsVal) :=
  match games with
  | JArr l => Ok (slice 0 10 l)
  | JStr _ => Throw "recentGames.forEach is not a function"
  | _ => Throw "games.slice is not a function"
  end.

(** [analyzeRecentGames(games, teamId = null)] *)
Definition analyzeRecentGames (games teamId : JsVal) : Res JsVal :=
  if negb (truthy games) then Ok notAvailable else
  len <- get games "length" ;;
  if strictEq len (JInt 0) then Ok notAvailable else
  recentGames <- recentTen games ;;
  t <- foldM (tallyGame teamId) recentGames
         {| wins := 0; runs := JInt 0; runsAllowed := JInt 0;
            homeGames := 0; homeWins := 0 |} ;;
  let n := length recentGames in
  streak <- calculateStreak recentGames teamId ;;
  trends <- identifyTrends recentGames teamId ;;
  Ok (JObj [
    ("available", JBool true);
    ("record", JStr (dash (JNat (wins t)) (JNat (n - wins t))));
    ("winPercentage", JStr (toFixed rt (num_div (num_of_nat (wins t)) (num_of_nat n)) 3));
    ("runsPerGame", JStr (toFixed rt (jsDiv rt (runs t) (JNat n)) 2));
    ("runsAllowedPerGame", JStr (toFixed rt (jsDiv rt (runsAllowed t) (JNat n)) 2));
    ("runDifferential", JNum (jsSub rt (runs t) (runsAllowed t)));
    ("homeRecord",
       JStr (if Nat.ltb 0 (homeGames t)
             then dash (JNat (homeWins t)) (JNat (homeGames t - homeWins t))
             else "N/A"));
    ("streak", streak);
    ("trends", trends)
  ]).

(** [formatRecentPerformance(giantsGames, opponentGames)] *)
Definition formatRecentPerformance (giantsGames opponentGames : JsVal) : Res JsVal :=
  giants <- analyzeRecentGames giantsGames giantsTeamId ;;
  opponent <- analyzeRecentGames opponentGames JNull ;;
  Ok (JObj [("giants", giants); ("opponent", opponent)]).

(** [stats.stats[0].splits[0].stat] *)
Definition firstSplitStat (stats : JsVal) : Res JsVal :=
  statsArr <- get stats "stats" ;;
  first <- getIndex statsArr 0 ;;
  splits <- get first "splits" ;;
  split0 <- getIndex splits 0 ;;
  get split0 "stat".

(** [stats && stats.stats && stats.stats.length > 0] *)
Definition hasStats (stats : JsVal) : Res bool :=
  if negb (truthy stats) then Ok false else
  statsArr <- get stats "stats" ;;
  if negb (truthy statsArr) then Ok false else
  len <- get statsArr "length" ;;
  Ok (jsGt rt len (JInt 0)).

(** [formatPitcherData(pitcher, stats)] *)
Definition formatPitcherData (pitcher stats : JsVal) : Res JsVal :=
  if negb (truthy pitcher) then Ok notAvailable else
  name <- get pitcher "fullName" ;;
  id <- get pitcher "id" ;;
  pitchHand <- get pitcher "pitchHand" ;;
  let throwsHand := or_ (optGet pitchHand "description") (JStr "Unknown") in
  let pitcherInfo := [("available", JBool true); ("name", name); ("id", id);
                      ("throwsHand", throwsHand)] in
  has <- hasStats stats ;;
  if has then
    seasonStats <- firstSplitStat stats ;;
    wins <- fieldOr seasonStats "wins" (JInt 0) ;;
    losses <- fieldOr seasonStats "losses" (JInt 0) ;;
    era <- fieldOr seasonStats "era" (JStr "0.00") ;;
    whip <- fieldOr seasonStats "whip" (JStr "0.00") ;;
    strikeOuts <- fieldOr seasonStats "strikeOuts" (JInt 0) ;;
    walks <- fieldOr seasonStats "baseOnBalls" (JInt 0) ;;
    inningsPitched <- fieldOr seasonStats "inningsPitched" (JStr "0.0") ;;
    homeRunsAllowed <- fieldOr seasonStats "homeRuns" (JInt 0) ;;
    qualityStarts <- fieldOr seasonStats "qualityStarts" (JInt 0) ;;
    groundOuts <- fieldOr seasonStats "groundOuts" (JInt 0) ;;
    airOuts <- fieldOr seasonStats "airOuts" (JInt 0) ;;
    Ok (JObj (setField "stats"
                (JObj [("wins", wins); ("losses", losses); ("era", era);
                       ("whip", whip); ("strikeOuts", strikeOuts);
                       ("walks", walks); ("inningsPitched", inningsPitched);
                       ("homeRunsAllowed", homeRunsAllowed);
                       ("qualityStarts", qualityStarts);
                       ("groundOuts", groundOuts); ("airOuts", airOuts)])
                pitcherInfo))
  else Ok (JObj pitcherInfo).

(** [s.stats?.[0]?.splits?.[0]?.stat] *)
Definition optFirstSplitStat (s : JsVal) : Res JsVal :=
  statsArr <- get s "stats" ;;
  Ok (optGet (optIndex (optGet (optIndex statsArr 0) "splits") 0) "stat").

(** [comparePitchers(giantsStats, opponentStats)] *)
Definition comparePitchers (giantsStats opponentStats : JsVal) : Res JsVal :=
  if negb (truthy giantsStats) || negb (truthy opponentStats)
  then Ok notAvailable else
  giants <- optFirstSplitStat giantsStats ;;
  opponent <- optFirstSplitStat opponentStats ;;
  if negb (truthy giants) || negb (truthy opponent) then Ok notAvailable else
  oEra <- get opponent "era" ;;
  gEra <- get giants "era" ;;
  oWhip <- get opponent "whip" ;;
  gWhip <- get giants "whip" ;;
  gK <- get giants "strikeOuts" ;;
  oK <- get opponent "strikeOuts" ;;
  gW <- get giants "wins" ;;
  gL <- get giants "losses" ;;
  oW <- get opponent "wins" ;;
  oL <- get opponent "losses" ;;
  Ok (JObj [
    ("available", JBool true);
    ("eraAdvantage",
       JStr (calculateAdvantage (JNum (parseFloat rt oEra)) (JNum (parseFloat rt gEra))));
    ("whipAdvantage",
       JStr (calculateAdvantage (JNum (parseFloat rt oWhip)) (JNum (parseFloat rt gWhip))));
    ("strikeoutAdvantage", JStr (calculateAdvantage gK oK));
    ("recordAdvantage",
       JStr (calculateAdvantage (JNum (jsDiv rt gW (jsAdd rt gW gL)))
                                (JNum (jsDiv rt oW (jsAdd rt oW oL)))))
  ]).

(** [formatPitchingMatchup(probablePitchers, homePitcherStats,
    awayPitcherStats, isHomeGame)] *)
Definition formatPitchingMatchup
    (probablePitchers homePitcherStats awayPitcherStats isHomeGame : JsVal)
  : Res JsVal :=
  if negb (truthy probablePitchers) then Ok notAvailable else
  let home := truthy isHomeGame in
  giantsPitcher <- get probablePitchers (if home then "home" else "away") ;;
  opponentPitcher <- get probablePitchers (if home then "away" else "home") ;;
  let giantsPitcherStats := if home then homePitcherStats else awayPitcherStats in
  let opponentPitcherStats := if home then awayPitcherStats else homePitcherStats in
  giants <- formatPitcherData giantsPitcher giantsPitcherStats ;;
  opponent <- formatPitcherData opponentPitcher opponentPitcherStats ;;
  comparison <- comparePitchers giantsPitcherStats opponentPitcherStats ;;
  Ok (JObj [("available", JBool true); ("giants", giants);
            ("opponent", opponent); ("comparison", comparison)]).

(** [/(\d+)\s*mph/i] *)
Definition windPattern : re :=
  seqs [Group 1 (plus true is_digit); Star true is_ws; litCI "mph"].

(** [/(\d+)/] *)
Definition temperaturePattern : re := Group 1 (plus true is_digit).

(** [parseInt(match[1])] for a group of decimal digits: the whole number
    the digits spell. [parseInt] returns it as it is when it is a double,
    as every number of up to 15 digits is; above 2^53 it returns a
    double next to it. *)
Definition parseIntGroup (m : Match) : nat :=
  match lookupCap 1 (caps (m_end m)) with
  | Some ds => digitsToNat ds
  | None => 0
  end.

(** [extractWindSpeed(windString)] *)
Definition extractWindSpeed (windString : JsVal) : Res nat :=
  w <- asString "windString.match" windString ;;
  Ok (match search windPattern w with
      | Some m => parseIntGroup m
      | None => 0
      end).

(** [extractTemperature(tempString)] *)
Definition extractTemperature (tempString : JsVal) : Res nat :=
  t <- asString "tempString.match" tempString ;;
  Ok (match search temperaturePattern t with
      | Some m => parseIntGroup m
      | None => 70
      end).

(** [assessWeatherImpact(weather)] *)
Definition assessWeatherImpact (weather : JsVal) : Res JsVal :=
  condition <- get weather "condition" ;;
  rain <- (if truthy condition
           then (c <- asString "weather.condition.toLowerCase" condition ;;
                 Ok (includes (toLowerCase c) "rain"))
           else Ok false) ;;
  wind <- get weather "wind" ;;
  windy <- (if truthy wind
            then (windSpeed <- extractWindSpeed wind ;; Ok (Nat.ltb 15 windSpeed))
            else Ok false) ;;
  temp <- get weather "temp" ;;
  thermal <- (if truthy temp
              then (t <- extractTemperature temp ;;
                    Ok (if Nat.ltb t 50
                        then [JStr "Cold weather may reduce offensive production"]
                        else if Nat.ltb 85 t
                        then [JStr "Hot weather may favor hitters"]
                        else []))
              else Ok []) ;;
  let impacts :=
    ((if rain then [JStr "Rain may affect play"] else []) ++
     (if windy then [JStr "Strong wind may affect ball flight"] else []) ++
     thermal)%list in
  Ok (JArr (match impacts with
            | [] => [JStr "Minimal weather impact expected"]
            | _ => impacts
            end)).

(** [formatWeather(weather)] *)
Definition formatWeather (weather : JsVal) : Res JsVal :=
  if negb (truthy weather) then Ok JNull else
  condition <- fieldOr weather "condition" (JStr "Unknown") ;;
  temperature <- fieldOr weather "temp" (JStr "Unknown") ;;
  wind <- fieldOr weather "wind" (JStr "Unknown") ;;
  impact <- assessWeatherImpact weather ;;
  Ok (JObj [("condition", condition); ("temperature", temperature);
            ("wind", wind); ("impact", impact)]).

(** [assessInjuryImpact(injury)] *)
Definition assessInjuryImpact (injury : JsVal) : Res JsVal :=
  position <- get injury "position" ;;
  let keyPositions := ["C"; "1B"; "SS"; "CF"; "SP"; "CL"] in
  Ok (JStr (if existsb (fun kp => strictEq (JStr kp) position) keyPositions
            then "High impact" else "Moderate impact")).

(** [formatTeamInjuries(injuries)] *)
Definition formatTeamInjuries (injuries : JsVal) : Res JsVal :=
  let none := JObj [("available", JBool false); ("count", JInt 0)] in
  if negb (truthy injuries) then Ok none else
  list <- get injuries "injuries" ;;
  if negb (truthy list) then Ok none else
  len <- get list "length" ;;
  if strictEq len (JInt 0) then Ok none else
  elems <- asArray "injuries.injuries.map" list ;;
  keyInjuries <-
    mapM (fun injury =>
            player <- get injury "player" ;;
            position <- get injury "position" ;;
            inj <- get injury "injury" ;;
            status <- get injury "status" ;;
            impact <- assessInjuryImpact injury ;;
            Ok (JObj [("player", player); ("position", position);
                      ("injury", inj); ("status", status); ("impact", impact)]))
         elems ;;
  Ok (JObj [("available", JBool true); ("count", len);
            ("keyInjuries", JArr keyInjuries)]).

(** [formatInjuries(giantsInjuries, opponentInjuries)] *)
Definition formatInjuries (giantsInjuries opponentInjuries : JsVal) : Res JsVal :=
  giants <- formatTeamInjuries giantsInjuries ;;
  opponent <- formatTeamInjuries opponentInjuries ;;
  Ok (JObj [("giants", giants); ("opponent", opponent)]).

(** [calculateHeadToHeadTrend(games)] *)
Definition calculateHeadToHeadTrend (games : list JsVal) : Res JsVal :=
  if Nat.ltb (length games) 3 then Ok (JStr "Insufficient data") else
  giantsWins <-
    foldM (fun n game =>
             sc <- giantsScores game ;;
             let '(giantsScore, opponentScore) := sc in
             Ok (if jsGt rt giantsScore opponentScore then S n else n))
          (slice 0 3 games) 0 ;;
  if Nat.leb 2 giantsWins then Ok (JStr "Giants favored recently")
  else if Nat.leb giantsWins 1 then Ok (JStr "Opponent favored recently")
  else Ok (JStr "Even recent trend").

(** [dates.flatMap(date => date.games)] *)
Definition flatGames (dates : list JsVal) : Res (list JsVal) :=
  foldM (fun acc date =>
           g <- get date "games" ;;
           Ok (acc ++ match g with JArr l => l | _ => [g] end)%list)
        dates [].

(** The first [formatHeadToHead(headToHead)] of the class body (lines
    444-472). The later method of the same name replaces it, so no call
    reaches it; it is kept to compare with. *)
Definition formatHeadToHead_1 (headToHead : JsVal) : Res JsVal :=
  if negb (truthy headToHead) then Ok notAvailable else
  dates <- get headToHead "dates" ;;
  if negb (truthy dates) then Ok notAvailable else
  ds <- asArray "headToHead.dates.flatMap" dates ;;
  games <- flatGames ds ;;
  w <- foldM (fun '(giantsWins, opponentWins) game =>
                sc <- giantsScores game ;;
                let '(giantsScore, opponentScore) := sc in
                Ok (if jsGt rt giantsScore opponentScore
                    then (S giantsWins, opponentWins)
                    else if jsGt rt opponentScore giantsScore
                    then (giantsWins, S opponentWins)
                    else (giantsWins, opponentWins)))
             games (0, 0) ;;
  recentTrend <- calculateHeadToHeadTrend games ;;
  Ok (JObj [("available", JBool true); ("gamesPlayed", JNat (length games));
            ("giantsWins", JNat (fst w)); ("opponentWins", JNat (snd w));
            ("recentTrend", recentTrend)]).

(** [formatGameContext(game, opponent, isHomeGame)] *)
Definition formatGameContext (game opponent isHomeGame : JsVal) : Res JsVal :=
  date <- get game "gameDate" ;;
  venue <- path2 game "venue" "name" ;;
  oppName <- get opponent "name" ;;
  oppId <- get opponent "id" ;;
  awayTeam <- teamField game "away" "team" ;;
  awayId <- get awayTeam "id" ;;
  oppId' <- get opponent "id" ;;
  oppRecord <- teamField game (if strictEq awayId oppId' then "away" else "home")
                 "leagueRecord" ;;
  giantsRecord <- teamField game (if truthy isHomeGame then "home" else "away")
                    "leagueRecord" ;;
  gameType <- get game "gameType" ;;
  gameNumber <- get game "gameNumber" ;;
  gamesInSeries <- get game "gamesInSeries" ;;
  seriesGameNumber <- get game "seriesGameNumber" ;;
  seriesDescription <- get game "seriesDescription" ;;
  Ok (JObj [
    ("date", date);
    ("venue", venue);
    ("isHomeGame", isHomeGame);
    ("opponent", JObj [("name", oppName); ("id", oppId); ("record", oppRecord)]);
    ("giants", JObj [("record", giantsRecord)]);
    ("gameType", gameType);
    ("gameNumber", gameNumber);
    ("seriesInfo", JObj [("gamesInSeries", gamesInSeries);
                         ("seriesGameNumber", seriesGameNumber);
                         ("seriesDescription", seriesDescription)])
  ]).

(** [x !== false] *)
Definition notFalse (x : JsVal) : bool := negb (strictEq x (JBool false)).

(** [formatGameData(rawData, options = {})] *)
Definition formatGameData (rawData options : JsVal) : Res JsVal :=
  let options := match options with JUndefined => JObj [] | _ => options end in
  if isNullish rawData
  then Throw ("Cannot destructure property 'game' of 'rawData' as it is "
              ++ typeName rawData ++ ".") else
  game <- get rawData "game" ;;
  opponent <- get rawData "opponent" ;;
  isHomeGame <- get rawData "isHomeGame" ;;
  giantsStats <- get rawData "giantsStats" ;;
  opponentStats <- get rawData "opponentStats" ;;
  giantsRecentGames <- get rawData "giantsRecentGames" ;;
  opponentRecentGames <- get rawData "opponentRecentGames" ;;
  headToHead <- get rawData "headToHead" ;;
  probablePitchers <- get rawData "probablePitchers" ;;
  homePitcherStats <- get rawData "homePitcherStats" ;;
  awayPitcherStats <- get rawData "awayPitcherStats" ;;
  weather <- get rawData "weather" ;;
  giantsInjuries <- get rawData "giantsInjuries" ;;
  opponentInjuries <- get rawData "opponentInjuries" ;;
  gameContext <- formatGameContext game opponent isHomeGame ;;
  teamStats <- formatTeamStats giantsStats opponentStats ;;
  recentPerformance <- formatRecentPerformance giantsRecentGames opponentRecentGames ;;
  pitchingMatchup <- formatPitchingMatchup probablePitchers homePitcherStats
                       awayPitcherStats isHomeGame ;;
  let formattedData := [("gameContext", gameContext); ("teamStats", teamStats);
                        ("recentPerformance", recentPerformance);
                        ("pitchingMatchup", pitchingMatchup)] in
  (* Add optional data based on options *)
  includeWeather <- get options "includeWeather" ;;
  formattedData <-
    (if notFalse includeWeather && truthy weather
     then (w <- formatWeather weather ;; Ok (setField "weather" w formattedData))
     else Ok formattedData) ;;
  includeInjuries <- get options "includeInjuries" ;;
  formattedData <-
    (if notFalse includeInjuries && truthy (or_ giantsInjuries opponentInjuries)
     then (i <- formatInjuries giantsInjuries opponentInjuries ;;
           Ok (setField "injuries" i formattedData))
     else Ok formattedData) ;;
  formattedData <-
    (if truthy headToHead
     then (h <- formatHeadToHead headToHead ;;
           Ok (setField "headToHead" h formattedData))
     else Ok formattedData) ;;
  Ok (JObj formattedData).

End WithRuntime.

End DataFormatter.

(* --------------------------------------------------------------------- *)
(** ** mcp-server/response-parser.js                                      *)
(* --------------------------------------------------------------------- *)

Module ResponseParser.
Import JsString Regex.

Definition nl : ascii := ascii_of_nat 10.

(** One entry of [sections]: [{ content, bullets, keyTerms }]. *)
Record SectionInfo : Type := {
  content : string;
  bullets : list string;
  keyTerms : list string
}.

(** [/##\s*<heading>\n(.*?)(?=##|$)/is], [heading] being what stands
    between [##\s*] and [\n]. *)
Definition sectionPattern (heading : re) : re :=
  seqs [lit "##"; Star true is_ws; heading; Chr (only nl);
        Group 1 (Star false any); Look (Alt (lit "##") Eos)].

(** [<words>\s*] *)
Definition exactHeading (words : string) : re :=
  Seq (litCI words) (Star true is_ws).

(** [<words>.*?] *)
Definition prefixHeading (words : string) : re :=
  Seq (litCI words) (Star false any).

Definition sectionPatterns : list (string * re) :=
  [ ("gameOverview", sectionPattern (exactHeading "Game Overview"));
    ("pitchingMatchup", sectionPattern (exactHeading "Pitching Matchup Analysis"));
    ("offensiveMatchups", sectionPattern (exactHeading "Key Offensive Matchups"));
    ("teamMomentum", sectionPattern (prefixHeading "Team Momentum"));
    ("strategicFactors", sectionPattern (exactHeading "Strategic Factors"));
    ("keyPlayers", sectionPattern (prefixHeading "Key Players"));
    ("weatherVenue",
       sectionPattern (seqs [litCI "Weather"; Star false any; litCI "Impact";
                             Star true is_ws]));
    ("prediction", sectionPattern (prefixHeading "Prediction")) ].

(** [/^[-*•]\s*(.+)$/gm] and [/^\d+\.\s*(.+)$/gm]. The bullet U+2022 lies
    outside the code units of the embedding. *)
Definition bulletPatterns : list re :=
  [ seqs [Bol; Chr (oneOf "-*"); Star true is_ws; Group 1 (plus true dot); Eol];
    seqs [Bol; plus true is_digit; Chr (only "."); Star true is_ws;
          Group 1 (plus true dot); Eol] ].

(** [/^[-*•\d+.\s]+/] *)
Definition bulletPrefix : re :=
  Seq Bos (plus true (fun c => oneOf "-*+." c || is_digit c || is_ws c)).

(** [extractBulletPoints(text)] *)
Definition extractBulletPoints (text : string) : list string :=
  flat_map (fun pattern =>
              map (fun m => trim (removeFirst bulletPrefix m)) (matchAll pattern text))
           bulletPatterns.

(** The three patterns of [extractKeyTermsFromSection], all [/gi]. The
    dash U+2013 lies outside the code units of the embedding. *)
Definition termPatterns : list re :=
  [ seqs [alts (map litCI ["high"; "low"; "strong"; "weak"; "excellent"; "poor";
                           "outstanding"; "struggling"]);
          plus true is_ws; plus true is_word];
    seqs [plus true is_digit; Chr (only "."); plus true is_digit; plus true is_ws;
          alts (map litCI ["ERA"; "WHIP"; "OPS"; "AVG"])];
    seqs [plus true is_digit; Chr (only "-"); plus true is_digit; plus true is_ws;
          litCI "record"] ].

(** [extractKeyTermsFromSection(text)] *)
Definition extractKeyTermsFromSection (text : string) : list string :=
  flat_map (fun pattern => firstn 5 (matchAll pattern text)) termPatterns.

(** The body of the [forEach] of [extractStructuredSections]: the entry
    one pattern adds to [sections], if it matches. *)
Definition sectionEntry (analysis : string) (entry : string * re)
  : list (string * SectionInfo) :=
  let '(name, pattern) := entry in
  match search pattern analysis with
  | Some m =>
      match group 1 m with
      | Some g => [(name, {| content := trim g;
                             bullets := extractBulletPoints g;
                             keyTerms := extractKeyTermsFromSection g |})]
      | None => []
      end
  | None => []
  end.

(** [extractStructuredSections(analysis)]: the entries of [sections] in
    the order they were added. *)
Definition extractStructuredSections (analysis : string)
  : list (string * SectionInfo) :=
  flat_map (sectionEntry analysis) sectionPatterns.

(** [sections[name]] *)
Fixpoint section (name : string) (sections : list (string * SectionInfo))
  : option SectionInfo :=
  match sections with
  | [] => None
  | (n, s) :: rest => if String.eqb name n then Some s else section name rest
  end.

(** [words.some(word => lowerText.includes(word))] *)
Definition someIncluded (words : list string) (lowerText : string) : bool :=
  existsb (fun word => includes lowerText word) words.

(** [interpretOutcome(text)] *)
Definition interpretOutcome (text : string) : string :=
  let positiveWords := ["win"; "victory"; "prevail"; "advantage"; "favor"] in
  let negativeWords := ["lose"; "defeat"; "struggle"; "disadvantage"] in
  let lowerText := toLowerCase text in
  if someIncluded positiveWords lowerText then "Giants favored"
  else if someIncluded negativeWords lowerText then "Opponent favored"
  else "Even matchup".

(** The three patterns of [extractOutcomePrediction], all [/gi]. *)
Definition outcomePatterns : list re :=
  [ seqs [alts (map litCI ["giants"; "sf"]); plus true is_ws;
          alts (map litCI ["should"; "will"; "likely"; "expected"]);
          Star false dot;
          alts (map litCI ["win"; "lose"; "prevail"; "struggle"])];
    seqs [alts (map litCI ["expect"; "predict"; "anticipate"]); Star false dot;
          alts (map litCI ["giants"; "sf"]); Star false dot;
          alts (map litCI ["win"; "lose"; "victory"; "defeat"])];
    seqs [alts (map litCI ["advantage"; "favor"]); Star false dot;
          alts (map litCI ["giants"; "sf"; "opponent"])] ].

(** The [matches[0]] that [extractOutcomePrediction] interprets: the first
    match of the first pattern that matches at all. *)
Fixpoint firstOutcomeMatch (patterns : list re) (analysis : string) : option string :=
  match patterns with
  | [] => None
  | pattern :: rest =>
      match matchAll pattern analysis with
      | m0 :: _ => Some m0
      | [] => firstOutcomeMatch rest analysis
      end
  end.

(** [extractOutcomePrediction(analysis)] *)
Definition extractOutcomePrediction (analysis : string) : string :=
  match firstOutcomeMatch outcomePatterns analysis with
  | Some m0 => interpretOutcome m0
  | None => "No clear prediction"
  end.

(** [calculateConfidenceScore(terms)] *)
Definition calculateConfidenceScore (terms : list string) : string :=
  match terms with
  | [] => "moderate"
  | _ =>
      let highConfidence := ["confident"; "certain"; "strong"; "likely"] in
      let lowConfidence := ["uncertain"; "weak"; "possible"] in
      let highCount :=
        length (List.filter (fun term => someIncluded highConfidence (toLowerCase term)) terms) in
      let lowCount :=
        length (List.filter (fun term => someIncluded lowConfidence (toLowerCase term)) terms) in
      if Nat.ltb lowCount highCount then "high"
      else if Nat.ltb highCount lowCount then "low"
      else "moderate"
  end.

(** The two patterns of [extractPredictionConfidence], both [/gi]. *)
Definition confidencePatterns : list re :=
  [ alts (map litCI ["confident"; "certain"; "likely"; "probable"; "possible";
                     "uncertain"]);
    seqs [alts (map litCI ["strong"; "weak"; "moderate"]); Star false dot;
          alts (map litCI ["chance"; "likelihood"; "probability"])] ].

(** [extractPredictionConfidence(analysis)] *)
Definition extractPredictionConfidence (analysis : string) : string :=
  calculateConfidenceScore
    (flat_map (fun pattern => matchAll pattern analysis) confidencePatterns).

Definition confidenceIndicators : list string :=
  ["strongly"; "clearly"; "obviously"; "definitely"; "certainly";
   "likely"; "probably"; "should"; "expect"; "confident";
   "uncertain"; "possibly"; "might"; "could"; "maybe"].

Definition strongIndicators : list string :=
  ["strongly"; "clearly"; "obviously"; "definitely"; "certainly"].

Definition weakIndicators : list string :=
  ["uncertain"; "possibly"; "might"; "could"; "maybe"].

(** [list.includes(m)] on a list of strings. *)
Definition listIncludes (l : list string) (m : string) : bool :=
  existsb (String.eqb m) l.

(** [assessConfidence(analysis)] *)
Definition assessConfidence (analysis : string) : string :=
  let matches :=
    List.filter (fun indicator => includes (toLowerCase analysis) indicator)
           confidenceIndicators in
  let strongCount := length (List.filter (listIncludes strongIndicators) matches) in
  let weakCount := length (List.filter (listIncludes weakIndicators) matches) in
  if Nat.ltb weakCount strongCount then "high"
  else if Nat.ltb strongCount weakCount then "low"
  else "moderate".

End ResponseParser.

(* --------------------------------------------------------------------- *)
(** ** mcp-server/mlb-api.js: [makeRequest] and its cache                 *)
(* --------------------------------------------------------------------- *)

Module MlbApi.
Import Js.

(** An entry of [this.cache]: [{ data, timestamp }]. *)
Record CacheEntry : Type := {
  data : JsVal;
  timestamp : Z
}.

(** What the network does with one [fetch(url, ...)]. *)
Inductive FetchOutcome : Type :=
| Responded (ok : bool) (status statusText : string) (json : Res JsVal)
    (* a response arrived; [json] is the outcome of [response.json()] *)
| Aborted
    (* the abort signal fired: the rejection's [name] is ['AbortError'] *)
| Failed (msg : string).
    (* any other rejection *)

(** The fields of [MLBAPIClient] that [makeRequest] reads and writes. *)
Record Client : Type := {
  cache : gmap string CacheEntry;
  cacheTimeout : Z
}.

(** [this.cache = new Map(); this.cacheTimeout = 300000] *)
Definition newClient : Client := {| cache := ∅; cacheTimeout := 300000 |}.

Definition withEntry (c : Client) (k : string) (e : CacheEntry) : Client :=
  {| cache := <[k := e]> (cache c); cacheTimeout := cacheTimeout c |}.

(** The outcome of one call: what it returns or throws, the client
    after it, and the number of [fetch] calls it issued. *)
Record Outcome : Type := {
  result : Res JsVal;
  client : Client;
  networkCalls : nat
}.

(** [makeRequest(endpoint, params)]. [cacheKey] is [url.toString()] for
    the URL built from [endpoint] and [params]; [nowCheck] and [nowStore]
    are the two readings of [Date.now()], [net] is what the network does
    if asked. *)
Definition makeRequest (c : Client) (cacheKey : string)
    (nowCheck : Z) (net : FetchOutcome) (nowStore : Z) : Outcome :=
  let fresh :=
    match net with
    | Responded ok status statusText json =>
        if negb ok
        then {| result := Throw ("MLB API error: " ++ status ++ " " ++ statusText);
                client := c; networkCalls := 1 |}
        else match json with
             | Ok d =>
                 {| result := Ok d;
                    client := withEntry c cacheKey {| data := d; timestamp := nowStore |};
                    networkCalls := 1 |}
             | Throw m => {| result := Throw m; client := c; networkCalls := 1 |}
             end
    | Aborted =>
        {| result := Throw "MLB API request timeout"; client := c; networkCalls := 1 |}
    | Failed m => {| result := Throw m; client := c; networkCalls := 1 |}
    end in
  match cache c !! cacheKey with
  | Some cached =>
      if (nowCheck - timestamp cached <? cacheTimeout c)%Z
      then {| result := Ok (data cached); client := c; networkCalls := 0 |}
      else fresh
  | None => fresh
  end.

End MlbApi.

(* --------------------------------------------------------------------- *)
(** ** mcp-server/server.js: the orchestrated game preview                *)
(* --------------------------------------------------------------------- *)

Module Server.
Import Js.

(** The fields of [CONFIG] the preview and its log read. *)
Record Config : Type := {
  giantsTeamId : Z;
  enableCaching : bool;
  cacheTimeout : Z;
  llmProvider : string;
  logLevel : string
}.

(** [CONFIG] when the process environment sets none of its variables. *)
Definition CONFIG : Config :=
  {| giantsTeamId := 137; enableCaching := true;
     cacheTimeout := 1800000; llmProvider := "anthropic"; logLevel := "info" |}.

(** The names an object literal inherits from [Object.prototype]. *)
Definition inheritedNames : list string :=
  ["constructor"; "__defineGetter__"; "__defineSetter__"; "hasOwnProperty";
   "__lookupGetter__"; "__lookupSetter__"; "isPrototypeOf"; "propertyIsEnumerable";
   "toString"; "valueOf"; "__proto__"; "toLocaleString"].

(** [logLevels[CONFIG.logLevel] || 1] of [setupLogging], as far as it is a
    number: the level of 'debug' is 0, which [||] replaces by 1, and so
    it does with a name [logLevels] does not have. A name [logLevels]
    inherits gives a function or an object, which is not a number: [None]. *)
Definition currentLevel (cfg : Config) : option nat :=
  if String.eqb (logLevel cfg) "warn" then Some 2
  else if String.eqb (logLevel cfg) "error" then Some 3
  else if existsb (String.eqb (logLevel cfg)) inheritedNames then None
  else Some 1.

(** [currentLevel <= level]: what [this.log.info] (level 1),
    [this.log.warn] (2) and [this.log.error] (3) test before they write.
    The comparison fails when [currentLevel] is not a number. *)
Definition logs (cfg : Config) (level : nat) : bool :=
  match currentLevel cfg with
  | Some current => Nat.leb current level
  | None => false
  end.

(** The call of [console.error] that [this.log.<level>(msg, data)] makes,
    if it makes one: [line] is the message behind its tag, [data] is
    [data || '']. *)
Definition logLine (cfg : Config) (level : nat) (line : string) (data : ConsoleData)
  : list ConsoleCall :=
  if logs cfg level then [(line, data)] else [].

(** What the server's collaborators answer: every method the preview
    awaits on [this.mlbClient], [this.llmAnalyzer] and
    [this.responseParser], as the value it resolves to or the error it
    rejects with; and the runtime's text conversions. *)
Record World : Type := {
  getTeamSchedule : JsVal -> JsVal -> JsVal -> Res JsVal;
  getTeamStats : JsVal -> Res JsVal;
  getRecentGames : JsVal -> JsVal -> Res JsVal;
  getHeadToHeadRecord : JsVal -> JsVal -> Res JsVal;
  getTeamRoster : JsVal -> Res JsVal;
  getGameFeed : JsVal -> Res JsVal;
  getPlayerStats : JsVal -> JsVal -> Res JsVal;
  getGameWeather : JsVal -> Res JsVal;
  getInjuryReport : JsVal -> Res JsVal;
  analyzeGameData : JsVal -> JsVal -> Res JsVal;
  parseGameAnalysis : JsVal -> Res JsVal;
  jsonStringify : JsVal -> string;
  builtins : Builtins
}.

(** The readings of the clock one call makes. *)
Record Clock : Type := {
  today : string;        (* new Date().toISOString().split('T')[0] *)
  nowCheck : Z;          (* Date.now() at the cache check *)
  nowStore : Z;          (* Date.now() when the result is cached *)
  generatedAt : string   (* new Date().toISOString() *)
}.

Record CacheEntry : Type := {
  data : JsVal;
  timestamp : Z
}.

(** The server's mutable state, with two observers: the number of
    completions asked of the LLM and the calls of [console.error] the
    server makes through [this.log]. *)
Record State : Type := {
  analysisCache : gmap string CacheEntry;
  llmCalls : nat;
  logged : list ConsoleCall
}.

Definition initialState : State :=
  {| analysisCache := ∅; llmCalls := 0; logged := [] |}.

Section Preview.
Variable cfg : Config.
Variable w : World.

Definition teamId : JsVal := JInt (giantsTeamId cfg).

(** [Promise.all([...])]: the values when every member resolves; the
    rejection of a member otherwise (here the first in array order; at
    run time, the first to settle). *)
Definition promiseAll (members : list (Res JsVal)) : Res (list JsVal) :=
  mapM (fun m => m) members.

Definition setAll (kvs : list (string * JsVal)) (fs : list (string * JsVal))
  : list (string * JsVal) :=
  fold_left (fun acc '(k, v) => setField k v acc) kvs fs.

(** What the schedule yields when it holds a game: the fields of [data]
    set so far, the game, the opponent and the opponent's id. *)
Record Located : Type := {
  l_data : list (string * JsVal);
  l_game : JsVal;
  l_opponent : JsVal;
  l_opponentId : JsVal
}.

(** The opening of the [try] block of [fetchComprehensiveGameData]: the
    schedule is fetched and the game looked up. [None] stands for the
    two [return { gameFound: false }]. *)
Definition locateGame (date : JsVal) : Res (option Located) :=
  schedule <- getTeamSchedule w teamId date date ;;
  if negb (truthy schedule) then Ok None else
  dates <- get schedule "dates" ;;
  if negb (truthy dates) then Ok None else
  len <- get dates "length" ;;
  if strictEq len (JInt 0) then Ok None else
  date0 <- getIndex dates 0 ;;
  games <- get date0 "games" ;;
  game <- getIndex games 0 ;;
  if negb (truthy game) then Ok None else
  homeTeam <- DataFormatter.teamField game "home" "team" ;;
  awayTeam <- DataFormatter.teamField game "away" "team" ;;
  venue <- get game "venue" ;;
  homeId <- get homeTeam "id" ;;
  let isHomeGame := strictEq homeId teamId in
  let opponent := if isHomeGame then awayTeam else homeTeam in
  opponentId <- get opponent "id" ;;
  Ok (Some {| l_data := [("gameFound", JBool true); ("game", game);
                         ("homeTeam", homeTeam); ("awayTeam", awayTeam);
                         ("venue", venue); ("opponent", opponent);
                         ("isHomeGame", JBool isHomeGame)];
              l_game := game; l_opponent := opponent;
              l_opponentId := opponentId |}).

(** The members of the [Promise.all] and the fields they fill. *)
Definition teamDataKeys : list string :=
  ["giantsStats"; "opponentStats"; "giantsRecentGames"; "opponentRecentGames";
   "headToHead"; "giantsRoster"; "opponentRoster"].

Definition teamDataFetches (opponentId : JsVal) : list (Res JsVal) :=
  [ getTeamStats w teamId;
    getTeamStats w opponentId;
    getRecentGames w teamId (JInt 10);
    getRecentGames w opponentId (JInt 10);
    getHeadToHeadRecord w teamId opponentId;
    getTeamRoster w teamId;
    getTeamRoster w opponentId ].

(** [await Promise.all([...])] followed by [Object.assign(data, {...})]. *)
Definition fetchTeamData (l : Located) : Res (list (string * JsVal)) :=
  fetched <- promiseAll (teamDataFetches (l_opponentId l)) ;;
  Ok (setAll (combine teamDataKeys fetched) (l_data l)).

(** The game feed and, when it names them, the probable pitchers and
    their season statistics. *)
Definition fetchPitchers (game : JsVal) (data : list (string * JsVal))
  : Res (list (string * JsVal)) :=
  gamePk <- get game "gamePk" ;;
  gameFeed <- getGameFeed w gamePk ;;
  let gameData := and_ gameFeed (optGet gameFeed "gameData") in
  let probablePitchers := and_ gameData (optGet gameData "probablePitchers") in
  if truthy probablePitchers then
    let data := setField "probablePitchers" probablePitchers data in
    home <- get probablePitchers "home" ;;
    data <- (if truthy home
             then (id <- get home "id" ;;
                   s <- getPlayerStats w id (JStr "season") ;;
                   Ok (setField "homePitcherStats" s data))
             else Ok data) ;;
    away <- get probablePitchers "away" ;;
    (if truthy away
     then (id <- get away "id" ;;
           s <- getPlayerStats w id (JStr "season") ;;
           Ok (setField "awayPitcherStats" s data))
     else Ok data)
  else Ok data.

(** The part of the [try] block in which every rejection leaves the
    function. *)
Definition fetchMandatory (date : JsVal)
  : Res (option (list (string * JsVal) * JsVal * JsVal)) :=
  located <- locateGame date ;;
  match located with
  | None => Ok None
  | Some l =>
      data <- fetchTeamData l ;;
      data <- fetchPitchers (l_game l) data ;;
      Ok (Some (data, l_game l, l_opponent l))
  end.

(** The two inner [try] blocks: weather, then the two injury reports.
    A rejection is logged and the field it would have set stays absent. *)
Definition fetchBestEffort (data : list (string * JsVal)) (game opponent : JsVal)
  : list (string * JsVal) * list ConsoleCall :=
  let '(data, log1) :=
    match (gamePk <- get game "gamePk" ;; getGameWeather w gamePk) with
    | Ok weather => (setField "weather" weather data, [])
    | Throw m => (data, logLine cfg 2 "[WARN] Weather data not available:" (Str m))
    end in
  let '(data, log2) :=
    match getInjuryReport w teamId with
    | Throw m => (data, logLine cfg 2 "[WARN] Injury data not available:" (Str m))
    | Ok giantsInjuries =>
        let data := setField "giantsInjuries" giantsInjuries data in
        match (id <- get opponent "id" ;; getInjuryReport w id) with
        | Throw m => (data, logLine cfg 2 "[WARN] Injury data not available:" (Str m))
        | Ok opponentInjuries =>
            (setField "opponentInjuries" opponentInjuries data, [])
        end
    end in
  (data, (log1 ++ log2)%list).

(** [fetchComprehensiveGameData(date)]: what it returns or throws, and
    the lines it logs. *)
Definition fetchComprehensiveGameData (date : JsVal) : Res JsVal * list ConsoleCall :=
  match fetchMandatory date with
  | Throw m =>
      (Throw m, logLine cfg 3 "[ERROR] Error fetching comprehensive game data:" (Err m))
  | Ok None => (Ok (JObj [("gameFound", JBool false)]), [])
  | Ok (Some (data, game, opponent)) =>
      let '(data, log) := fetchBestEffort data game opponent in
      (Ok (JObj data), log)
  end.

(** [{ success: false, error, date }] *)
Definition failure (error : string) (date : JsVal) : JsVal :=
  JObj [("success", JBool false); ("error", JStr error); ("date", date)].

(** [Object.keys(v).length] *)
Definition keyCount (v : JsVal) : nat :=
  match v with
  | JObj fs => length fs
  | JArr l => length l
  | JStr s => String.length s
  | _ => 0
  end.

(** [{ ...v, fromCache: true }] *)
Definition markFromCache (v : JsVal) : JsVal :=
  match v with
  | JObj fs => JObj (setField "fromCache" (JBool true) fs)
  | _ => JObj [("fromCache", JBool true)]
  end.

(** [options = {}] *)
Definition defaultOptions (options : JsVal) : JsVal :=
  match options with JUndefined => JObj [] | _ => options end.

(** [date || new Date().toISOString().split('T')[0]] *)
Definition gameDateOf (date : JsVal) (clk : Clock) : JsVal :=
  or_ date (JStr (today clk)).

(** [`game-preview-${gameDate}-${JSON.stringify(options)}`] *)
Definition previewKey (gameDate options : JsVal) : string :=
  "game-preview-" ++ jsToString (builtins w) gameDate ++ "-" ++ jsonStringify w options.

(** The entry the cache check finds: present and younger than
    [CONFIG.cacheTimeout], caching being enabled. *)
Definition liveEntry (st : State) (cacheKey : string) (now : Z) : option CacheEntry :=
  if enableCaching cfg
  then match analysisCache st !! cacheKey with
       | Some cached =>
           if (now - timestamp cached <? cacheTimeout cfg)%Z
           then Some cached else None
       | None => None
       end
  else None.

Definition addLog (st : State) (lines : list ConsoleCall) : State :=
  {| analysisCache := analysisCache st; llmCalls := llmCalls st;
     logged := (logged st ++ lines)%list |}.

(** The [catch] of [getGiantsGamePreview]. *)
Definition caught (m : string) (gameDate : JsVal) (st : State) : JsVal * State :=
  (failure m gameDate,
   addLog st (logLine cfg 3 "[ERROR] Error generating game preview:" (Err m))).

(** [this.log.info(`Generating game preview for ${gameDate}`)]: no
    [data], so [''] is passed on. *)
Definition generating (gameDate : JsVal) : list ConsoleCall :=
  logLine cfg 1
    ("[INFO] Generating game preview for " ++ jsToString (builtins w) gameDate) (Str "").

(** [getGiantsGamePreview(date = null, options = {})]: the object it
    resolves to and the state it leaves. *)
Definition getGiantsGamePreview (st : State) (date options : JsVal) (clk : Clock)
  : JsVal * State :=
  let options := defaultOptions options in
  let gameDate := gameDateOf date clk in
  let cacheKey := previewKey gameDate options in
  match liveEntry st cacheKey (nowCheck clk) with
  | Some cached =>
      (* [this.log.debug] writes nothing: [currentLevel] is never 0 *)
      (markFromCache (data cached), st)
  | None =>
      let st := addLog st (generating gameDate) in
      (* try { *)
      let '(fetched, log) := fetchComprehensiveGameData gameDate in
      let st := addLog st log in
      match fetched with
      | Throw m => caught m gameDate st
      | Ok rawData =>
          match get rawData "gameFound" with
          | Throw m => caught m gameDate st
          | Ok gameFound =>
              if negb (truthy gameFound)
              then (failure "No Giants game found for the specified date" gameDate, st)
              else
                match DataFormatter.formatGameData (builtins w) rawData options with
                | Throw m => caught m gameDate st
                | Ok formattedData =>
                    (* the completion is asked for here *)
                    let st := {| analysisCache := analysisCache st;
                                 llmCalls := S (llmCalls st); logged := logged st |} in
                    match (analysis <- analyzeGameData w formattedData options ;;
                           parsedResponse <- parseGameAnalysis w analysis ;;
                           game <- get rawData "game" ;;
                           Ok (JObj [
                             ("success", JBool true);
                             ("date", gameDate);
                             ("game", game);
                             ("analysis", parsedResponse);
                             ("metadata", JObj [
                                ("analysisGenerated", JStr (generatedAt clk));
                                ("llmProvider", JStr (llmProvider cfg));
                                ("dataPoints", JNat (keyCount rawData))])]))
                    with
                    | Throw m => caught m gameDate st
                    | Ok result =>
                        (result,
                         if enableCaching cfg
                         then {| analysisCache :=
                                   <[cacheKey := {| data := result;
                                                    timestamp := nowStore clk |}]>
                                     (analysisCache st);
                                 llmCalls := llmCalls st; logged := logged st |}
                         else st)
                    end
                end
          end
      end
  end.

End Preview.

End Server.

(* --------------------------------------------------------------------- *)
(** ** server/src/services/mcpClient.ts: retry and circuit breaker        *)
(* --------------------------------------------------------------------- *)

Module McpClient.
Import Js.

Record McpClientConfig : Type := {
  maxRetries : nat;
  retryDelay : Z;
  timeout : Z;
  circuitBreakerThreshold : nat;
  circuitBreakerResetTime : Z
}.

(** The configuration of [new McpClient()]. *)
Definition defaultConfig : McpClientConfig :=
  {| maxRetries := 3; retryDelay := 1000; timeout := 8000;
     circuitBreakerThreshold := 5; circuitBreakerResetTime := 60000 |}.

Inductive BreakerState : Type :=
| closed
| open
| half_open.

Record CircuitBreakerState : Type := {
  failures : nat;
  lastFailureTime : Z;
  state : BreakerState
}.


Section Client.
Variable config : McpClientConfig.

(** [isCircuitOpen()], [now] being [Date.now()]. *)
Definition isCircuitOpen (now : Z) (cb : CircuitBreakerState)
  : bool * CircuitBreakerState :=
  match state cb with
  | open =>
      if (circuitBreakerResetTime config <? now - lastFailureTime cb)%Z
      then (false, {| failures := failures cb;
                      lastFailureTime := lastFailureTime cb;
                      state := half_open |})
      else (true, cb)
  | _ => (false, cb)
  end.

(** [recordFailure()], [now] being [Date.now()]. *)
Definition recordFailure (now : Z) (cb : CircuitBreakerState) : CircuitBreakerState :=
  let n := S (failures cb) in
  {| failures := n;
     lastFailureTime := now;
     state := if Nat.leb (circuitBreakerThreshold config) n then open else state cb |}.

(** [resetCircuitBreaker()] *)
Definition resetCircuitBreaker (cb : CircuitBreakerState) : CircuitBreakerState :=
  {| failures := 0; lastFailureTime := lastFailureTime cb; state := closed |}.

(** What a call throws: an [Error] with its message, or the
    [undefined] that [throw lastError!] throws when the loop never ran. *)
Inductive Thrown : Type :=
| ErrorWith (msg : string)
| ThrownUndefined.

(** The [for] loop of [executeWithRetry] from attempt number [attempt],
    with [remaining] attempts left. [operation n] is the outcome of
    [withTimeout(operation(), timeout)] at attempt [n]. Returns the
    result and the number of attempts made. *)
Fixpoint retryLoop (operation : nat -> Res JsVal) (attempt remaining : nat)
    (lastError : Thrown) : (JsVal + Thrown) * nat :=
  match remaining with
  | O => (inr lastError, 0)
  | S remaining' =>
      match operation attempt with
      | Ok v => (inl v, 1)
      | Throw m =>
          let '(r, n) := retryLoop operation (S attempt) remaining' (ErrorWith m) in
          (r, S n)
      end
  end.

(** [executeWithRetry(operation, correlationId)] *)
Definition executeWithRetry (operation : nat -> Res JsVal) : (JsVal + Thrown) * nat :=
  retryLoop operation 1 (maxRetries config) ThrownUndefined.

(** The outcome of one [getGiantsGamePreview]: what it returns or throws,
    the breaker after it, and the number of calls to the MCP server. *)
Record Outcome : Type := {
  result : JsVal + Thrown;
  breaker : CircuitBreakerState;
  attempts : nat
}.

(** [getGiantsGamePreview(correlationId)]. [nowCheck] is the clock when
    the breaker is consulted, [nowFail] the clock when a failure is
    recorded. A thrown [Error] is rethrown as a [McpCommunicationError]
    with the same message. *)
Definition getGiantsGamePreview (cb : CircuitBreakerState)
    (nowCheck nowFail : Z) (operation : nat -> Res JsVal) : Outcome :=
  let '(isOpen, cb) := isCircuitOpen nowCheck cb in
  if isOpen
  then {| result := inr (ErrorWith "MCP server circuit breaker is open");
          breaker := recordFailure nowFail cb; attempts := 0 |}
  else
    match executeWithRetry operation with
    | (inl v, n) =>
        {| result := inl v; breaker := resetCircuitBreaker cb; attempts := n |}
    | (inr e, n) =>
        {| result := inr e; breaker := recordFailure nowFail cb; attempts := n |}
    end.

End Client.

End McpClient.

(* --------------------------------------------------------------------- *)
(** ** mlb-api.js: the queries built on [makeRequest]                   *)
(* --------------------------------------------------------------------- *)

Module MlbQueries.
Import Js.

(** [l.filter(f)] with a test that may throw. *)
Fixpoint filterM {A : Type} (f : A -> Res bool) (l : list A) : Res (list A) :=
  match l with
  | [] => Ok []
  | x :: l' =>
      keep <- f x ;;
      rest <- filterM f l' ;;
      Ok (if keep then x :: rest else rest)
  end.

(** [game.status.abstractGameState === 'Final'] *)
Definition isFinal (game : JsVal) : Res bool :=
  status <- get game "status" ;;
  abstractGameState <- get status "abstractGameState" ;;
  Ok (strictEq abstractGameState (JStr "Final")).

(** [getRecentGames(teamId, limit)] from the answer [data] of
    [makeRequest('/schedule', params)] on. [limit] is a count. *)
Definition getRecentGames (data : JsVal) (limit : nat) : Res JsVal :=
  dates <- get data "dates" ;;
  if negb (truthy dates) then Ok (JArr []) else
  ds <- asArray "data.dates.flatMap" dates ;;
  games <- DataFormatter.flatGames ds ;;
  finals <- filterM isFinal games ;;
  Ok (JArr (slice 0 limit finals)).

(** [getGameWeather(gameId)], [gameFeed] being what
    [this.getGameFeed(gameId)] resolves to or rejects with: the value it
    returns and the call of [console.error] its [catch] makes. *)
Definition getGameWeather (gameFeed : Res JsVal) : JsVal * list ConsoleCall :=
  match (feed <- gameFeed ;;
         gameData <- (if truthy feed then get feed "gameData" else Ok feed) ;;
         weather <- (if truthy gameData then get gameData "weather" else Ok gameData) ;;
         if truthy weather then Ok weather else
         let venue := optGet (optGet feed "gameData") "venue" in
         if truthy venue then
           name <- get venue "name" ;;
           location <- get venue "location" ;;
           Ok (JObj [("condition", JStr "Unknown"); ("temp", JStr "Unknown");
                     ("wind", JStr "Unknown"); ("venue", name);
                     ("location", location)])
         else Ok JNull)
  with
  | Ok v => (v, [])
  | Throw m => (JNull, [("Weather data not available:", Err m)])
  end.

(** [getInjuryReport(teamId)], [lastUpdated] being
    [new Date().toISOString()]. *)
Definition getInjuryReport (teamId : JsVal) (lastUpdated : string) : JsVal :=
  JObj [("teamId", teamId); ("injuries", JArr []);
        ("lastUpdated", JStr lastUpdated);
        ("note", JStr "Injury data not available from MLB API")].

End MlbQueries.

(* --------------------------------------------------------------------- *)
(** ** response-parser.js: the other extractors and the parse cache     *)
(* --------------------------------------------------------------------- *)

Module ParserExtractors.
Import Js JsString Regex ResponseParser.

(** [<words> .*? <words>] under [/gi]: [.] stops at a line terminator. *)
Definition between (first last : list string) : re :=
  seqs [alts (map litCI first); Star false dot; alts (map litCI last)].

(** [<word>s?] under [/i] *)
Definition plural (w : string) : re :=
  Seq (litCI w) (Alt (Chr (isCI "s")) Eps).

(** The elements of [[...new Set(l)]]: the first occurrence of each
    value, in order. [seen] holds the values met so far. *)
Fixpoint dedupeBy {A : Type} (key : A -> string) (seen : gset string) (l : list A)
  : list A :=
  match l with
  | [] => []
  | x :: l' =>
      if decide (key x ∈ seen) then dedupeBy key seen l'
      else x :: dedupeBy key ({[ key x ]} ∪ seen) l'
  end.

Definition insightPatterns : list re :=
  [ between ["key"; "important"; "notable"; "significant"; "crucial"]
            ["advantage"; "disadvantage"; "factor"; "matchup"; "trend"];
    between ["should"; "will"; "likely"; "expect"]
            ["perform"; "struggle"; "dominate"; "favor"];
    between ["watch"; "monitor"; "focus"]
            ["player"; "matchup"; "situation"] ].

(** [extractKeyInsights(analysis)] *)
Definition extractKeyInsights (analysis : string) : list string :=
  let insights :=
    flat_map (fun pattern => map trim (matchAll pattern analysis)) insightPatterns in
  slice 0 8 (dedupeBy (fun s => s) ∅ insights).

Definition eventPatterns : list re :=
  [ seqs [alts (map litCI ["expect"; "likely"; "should see"]); Star false dot;
          alts [plural "home run"; plural "strikeout"; plural "walk"; plural "error"]];
    between ["pitching"; "batting"] ["dominant"; "struggle"; "effective"];
    seqs [alts [plural "late inning"; litCI "early"; litCI "middle"]; Star false dot;
          alts (map litCI ["key"; "crucial"; "important"])] ].

(** [extractKeyEventPredictions(analysis)] *)
Definition extractKeyEventPredictions (analysis : string) : list string :=
  flat_map (fun pattern => slice 0 3 (matchAll pattern analysis)) eventPatterns.

Definition strategyPatterns : list re :=
  [ between ["strategy"; "tactical"; "approach"] ["important"; "key"; "crucial"];
    between ["bullpen"; "lineup"; "defensive"] ["strategy"; "consideration"];
    between ["manager"; "coaching"] ["decision"; "choice"; "option"] ].

(** [extractStrategicFactors(analysis)] *)
Definition extractStrategicFactors (analysis : string) : list string :=
  flat_map (fun pattern => slice 0 3 (matchAll pattern analysis)) strategyPatterns.

(** An entry of the player spotlight: [{ name, context, reason }]. *)
Record Player : Type := {
  name : string;
  context : string;
  reason : string
}.

(** [deduplicatePlayerSpotlight(players)] *)
Definition deduplicatePlayerSpotlight (players : list Player) : list Player :=
  slice 0 6 (dedupeBy name ∅ players).

(** [reasons.join(', ')] *)
Fixpoint join (sep : string) (l : list string) : string :=
  match l with
  | [] => ""
  | [x] => x
  | x :: l' => x ++ sep ++ join sep l'
  end.

(** [extractPlayerReason(context)] *)
Definition extractPlayerReason (context : string) : string :=
  let lowered := toLowerCase context in
  let reasons :=
    ((if includes lowered "matchup" then ["favorable matchup"] else []) ++
     (if includes lowered "hot" then ["hot streak"] else []) ++
     (if includes lowered "struggle" then ["struggling recently"] else []) ++
     (if includes lowered "power" then ["power threat"] else []) ++
     (if includes lowered "speed" then ["speed factor"] else []) ++
     (if includes lowered "clutch" then ["clutch performer"] else []))%list in
  match reasons with
  | [] => "key player"
  | _ => join ", " reasons
  end.

(** [A-Z] and [a-z], and both under the [i] flag. *)
Definition is_capital (c : ascii) : bool := JsString.between 65 90 c.
Definition is_small (c : ascii) : bool := JsString.between 97 122 c.
Definition is_letter (c : ascii) : bool := is_capital c || is_small c.

(** [[A-Z][a-z]+\s+[A-Z][a-z]+], with the classes given. *)
Definition twoWords (first others : ascii -> bool) : re :=
  seqs [Chr first; plus true others; plus true is_ws; Chr first; plus true others].

(** The two patterns of [extractPlayerSpotlight], both [/gi], and the
    pattern of the name, which is case-sensitive. *)
Definition playerPatterns : list re :=
  [ seqs [alts (map litCI ["watch"; "key"; "important"; "spotlight"]); Star false dot;
          alts (map litCI ["player"; "pitcher"; "batter"]); Star false dot;
          Group 1 (twoWords is_letter is_letter)];
    seqs [Group 1 (twoWords is_letter is_letter); Star false dot;
          alts (map litCI ["key"; "crucial"; "important"; "standout"])] ].

Definition namePattern : re := Group 1 (twoWords is_capital is_small).

(** The body of the inner [forEach]: the player a match gives, if a name
    stands in it. *)
Definition playerOf (m : string) : list Player :=
  match search namePattern m with
  | Some nameMatch =>
      match group 1 nameMatch with
      | Some n => [{| name := n; context := trim m; reason := extractPlayerReason m |}]
      | None => []
      end
  | None => []
  end.

(** [extractPlayerSpotlight(analysis)] *)
Definition extractPlayerSpotlight (analysis : string) : list Player :=
  deduplicatePlayerSpotlight
    (flat_map (fun pattern => flat_map playerOf (matchAll pattern analysis))
              playerPatterns).

(** The number of elements of [text.split(/[...]+/)] for a class [p]:
    one more than the number of maximal runs of [p] in the text. *)
Fixpoint runs (p : ascii -> bool) (inRun : bool) (l : list ascii) : nat :=
  match l with
  | [] => 0
  | c :: l' =>
      if p c then (if inRun then 0 else 1) + runs p true l'
      else runs p false l'
  end.

Definition pieces (p : ascii -> bool) (text : string) : nat :=
  S (runs p false (list_ascii_of_string text)).

(** [calculateReadability(text)] *)
Definition calculateReadability (text : string) : string :=
  let sentences := pieces (oneOf ".!?") text in
  let words := pieces is_ws text in
  let avgWordsPerSentence := num_div (num_of_nat words) (num_of_nat sentences) in
  if num_lt avgWordsPerSentence (Fin 15) then "easy"
  else if num_lt avgWordsPerSentence (Fin 25) then "moderate"
  else "complex".

(** [generateCacheKey(llmResponse)]: the first 100 code units of the
    content, every white-space code unit deleted. *)
Definition generateCacheKey (llmResponse : JsVal) : Res string :=
  c <- get llmResponse "content" ;;
  content <- asString "content.substring" (or_ c (JStr "")) ;;
  Ok (string_of_list_ascii
        (List.filter (fun ch => negb (is_ws ch))
                     (firstn 100 (list_ascii_of_string content)))).

Section Parse.
(** The evaluation of the object literal [parsed] of [parseGameAnalysis]
    for a response: every extractor applied to [llmResponse.content], and
    the clock read for [parsedAt]. It throws when an extractor does. *)
Variable buildParsed : JsVal -> Res JsVal.

(** [parseGameAnalysis(llmResponse)]: what it returns or throws, and the
    parse cache after it. *)
Definition parseGameAnalysis (parseCache : gmap string JsVal) (llmResponse : JsVal)
  : Res JsVal * gmap string JsVal :=
  match generateCacheKey llmResponse with
  | Throw m => (Throw m, parseCache)
  | Ok cacheKey =>
      match parseCache !! cacheKey with
      | Some parsed => (Ok parsed, parseCache)
      | None =>
          match buildParsed llmResponse with
          | Throw m => (Throw m, parseCache)
          | Ok parsed => (Ok parsed, <[cacheKey := parsed]> parseCache)
          end
      end
  end.

End Parse.

(** The helper extractors: [/<label>(.*?)(?=<stop>|$)/is], and
    [/<label>(.*?)$/is] when there is no stop word. *)
Definition labelled (label : re) (stop : option string) : re :=
  seqs [label; Group 1 (Star false any);
        match stop with
        | Some word => Look (Alt (litCI word) Eos)
        | None => Eos
        end].

(** [match ? match[1].trim() : default] *)
Definition textAfter (label : re) (stop : option string) (default analysis : string)
  : string :=
  match search (labelled label stop) analysis with
  | Some m => match group 1 m with Some g => trim g | None => default end
  | None => default
  end.

(** [match ? this.extractBulletPoints(match[1]) : []] *)
Definition bulletsAfter (label : re) (stop : option string) (analysis : string)
  : list string :=
  match search (labelled label stop) analysis with
  | Some m => match group 1 m with Some g => extractBulletPoints g | None => [] end
  | None => []
  end.

Definition extractPitcherOverview : string -> string :=
  textAfter (litCI "Pitcher Overview:") (Some "Matchup") "No overview available".
Definition extractMatchupAdvantages : string -> list string :=
  bulletsAfter (litCI "Matchup Advantages:") (Some "Matchup Challenges").
Definition extractMatchupChallenges : string -> list string :=
  bulletsAfter (litCI "Matchup Challenges:") (Some "Key Batters").
Definition extractKeyBatters : string -> list string :=
  bulletsAfter (seqs [litCI "Key Batters"; Star false any; Chr (only ":")])
               (Some "Strategic").
Definition extractStrategicPrediction : string -> string :=
  textAfter (litCI "Strategic Prediction:") None "No prediction available".
Definition extractCurrentMomentum : string -> string :=
  textAfter (litCI "Current Momentum:") (Some "Key Trends") "Unknown momentum".
Definition extractKeyTrends : string -> list string :=
  bulletsAfter (litCI "Key Trends:") (Some "Sustainable").
Definition extractSustainableFactors : string -> list string :=
  bulletsAfter (litCI "Sustainable Factors:") (Some "Warning").
Definition extractWarningSignFactors : string -> list string :=
  bulletsAfter (litCI "Warning Signs:") (Some "Outlook").
Definition extractOutlook : string -> string :=
  textAfter (litCI "Outlook:") None "No outlook available".
Definition extractHistoricalContext : string -> string :=
  textAfter (litCI "Historical Context:") (Some "Style") "No historical context".
Definition extractStyleMatchup : string -> string :=
  textAfter (litCI "Style Matchup:") (Some "Key Factors") "No style analysis".
Definition extractKeyFactors : string -> list string :=
  bulletsAfter (litCI "Key Factors:") (Some "Prediction").
Definition extractPrediction : string -> string :=
  textAfter (litCI "Prediction:") None "No prediction available".
Definition extractImpactAssessment : string -> string :=
  textAfter (litCI "Impact Assessment:") (Some "Lineup") "No impact assessment".
Definition extractLineupChanges : string -> list string :=
  bulletsAfter (litCI "Lineup Changes:") (Some "Opportunity").
Definition extractOpportunityAssessment : string -> string :=
  textAfter (litCI "Opportunity Assessment:") (Some "Strategic")
            "No opportunity assessment".
Definition extractStrategicImplications : string -> list string :=
  bulletsAfter (litCI "Strategic Implications:") None.
Definition extractRotationStrength : string -> string :=
  textAfter (litCI "Rotation Strength:") (Some "Bullpen") "No rotation analysis".
Definition extractBullpenAnalysis : string -> string :=
  textAfter (litCI "Bullpen Analysis:") (Some "Workload") "No bullpen analysis".
Definition extractWorkloadManagement : string -> string :=
  textAfter (litCI "Workload Management:") (Some "Strategic") "No workload analysis".
Definition extractCurrentPosition : string -> string :=
  textAfter (litCI "Current Position:") (Some "Team Strengths") "No position analysis".
Definition extractTeamStrengths : string -> list string :=
  bulletsAfter (litCI "Team Strengths:") (Some "Areas for").
Definition extractAreasForImprovement : string -> list string :=
  bulletsAfter (litCI "Areas for Improvement:") (Some "Key Factors").
Definition extractSeasonPrediction : string -> string :=
  textAfter (litCI "Prediction:") None "No season prediction".

End ParserExtractors.

(* --------------------------------------------------------------------- *)
(** ** response-parser.js: the score prediction                         *)
(* --------------------------------------------------------------------- *)

Module ParserScore.
Import Js JsString Regex ResponseParser.

(** [[-\s]], and [[-to]] under the [i] flag. *)
Definition dashOrSpace (c : ascii) : bool := only "-" c || is_ws c.
Definition dashOrTo (c : ascii) : bool := only "-" c || isCI "t" c || isCI "o" c.

(** The two patterns of [extractScorePrediction], both [/gi]. *)
Definition scorePatterns : list re :=
  [ seqs [alts (map litCI ["score"; "final"]); Star false dot;
          Group 1 (seqs [plus true is_digit; plus true dashOrSpace; plus true is_digit])];
    seqs [Group 1 (plus true is_digit); Star true is_ws; plus true dashOrTo;
          Star true is_ws; Group 2 (plus true is_digit)] ].

(** [extractScorePrediction(analysis)]; [None] is [null]. *)
Definition extractScorePrediction (analysis : string) : option string :=
  option_map trim (firstOutcomeMatch scorePatterns analysis).

End ParserScore.

(* --------------------------------------------------------------------- *)
(** ** useGameData: the hook of the web client                          *)
(* --------------------------------------------------------------------- *)

Module GameDataHook.
Import Js.
Local Open Scope Z_scope.

Definition CACHE_DURATION : Z := 5 * 60 * 1000.
Definition AUTO_REFRESH_INTERVAL : Z := 30 * 60 * 1000.
Definition STALE_DATA_THRESHOLD : Z := 10 * 60 * 1000.

(** [CachedData]: [{ data, timestamp }], the time in milliseconds. *)
Definition CachedData : Type := (JsVal * Z)%type.

(** The state of the hook and its references; [None] is [null]. One call
    of an operation is followed from its start to its end, no other call
    running in between. *)
Record Hook : Type := {
  data : option JsVal;
  loading : bool;
  error : option string;
  lastUpdated : option Z;
  cacheRef : option CachedData;
  isUnmounted : bool
}.

(** The hook when the component mounts. *)
Definition mounted : Hook :=
  {| data := None; loading := false; error := None; lastUpdated := None;
     cacheRef := None; isUnmounted := false |}.

(** What [apiClient.getGiantsNextGame()] does: it resolves to the game
    data, or rejects with an [Error] and its message or with something
    else. *)
Inductive ApiOutcome : Type :=
| Resolved (gameData : JsVal)
| Rejected (isError : bool) (message : string).

Definition isCacheValid (cachedData : CachedData) (now : Z) : bool :=
  now - snd cachedData <? CACHE_DURATION.

Definition isDataStale (cachedData : CachedData) (now : Z) : bool :=
  STALE_DATA_THRESHOLD <? now - snd cachedData.

(** [fetchGameData(showLoading)]: the hook after the call and the number
    of requests sent. [nowCheck] is the clock in [isCacheValid], [api]
    what the request does, [unmounts] tells that the component unmounts
    while the request is awaited, [nowDone] is the clock after it. *)
Definition fetchGameData (showLoading : bool) (h : Hook)
    (nowCheck : Z) (api : ApiOutcome) (unmounts : bool) (nowDone : Z) : Hook * nat :=
  if isUnmounted h then (h, 0%nat) else
  let valid :=
    if showLoading then None
    else match cacheRef h with
         | Some cachedData =>
             if isCacheValid cachedData nowCheck then Some cachedData else None
         | None => None
         end in
  match valid with
  | Some cachedData =>
      ({| data := Some (fst cachedData); loading := loading h; error := None;
          lastUpdated := Some (snd cachedData); cacheRef := cacheRef h;
          isUnmounted := false |}, 0%nat)
  | None =>
      if unmounts
      then ({| data := data h; loading := if showLoading then true else loading h;
               error := None; lastUpdated := lastUpdated h; cacheRef := cacheRef h;
               isUnmounted := true |}, 1%nat)
      else
        let finished := if showLoading then false else loading h in
        match api with
        | Resolved gameData =>
            ({| data := Some gameData; loading := finished; error := None;
                lastUpdated := Some nowDone; cacheRef := Some (gameData, nowDone);
                isUnmounted := false |}, 1%nat)
        | Rejected isError message =>
            let errorMessage :=
              if isError then message else "Failed to fetch game data"%string in
            match (if showLoading then None else cacheRef h) with
            | Some cachedData =>
                ({| data := Some (fst cachedData); loading := finished;
                    error := Some errorMessage; lastUpdated := Some (snd cachedData);
                    cacheRef := cacheRef h; isUnmounted := false |}, 1%nat)
            | None =>
                ({| data := None; loading := finished; error := Some errorMessage;
                    lastUpdated := None; cacheRef := cacheRef h;
                    isUnmounted := false |}, 1%nat)
            end
        end
  end.

(** [retry()] *)
Definition retry (h : Hook) : Z -> ApiOutcome -> bool -> Z -> Hook * nat :=
  fetchGameData true h.

(** [refresh()]: the cache is cleared first. *)
Definition refresh (h : Hook) : Z -> ApiOutcome -> bool -> Z -> Hook * nat :=
  fetchGameData true
    {| data := data h; loading := loading h; error := error h;
       lastUpdated := lastUpdated h; cacheRef := None; isUnmounted := isUnmounted h |}.

(** [backgroundRefresh()], [nowStale] being the clock in [isDataStale]. *)
Definition backgroundRefresh (h : Hook) (nowStale nowCheck : Z) (api : ApiOutcome)
    (unmounts : bool) (nowDone : Z) : Hook * nat :=
  match cacheRef h with
  | Some cachedData =>
      if isDataStale cachedData nowStale
      then fetchGameData false h nowCheck api unmounts nowDone
      else (h, 0%nat)
  | None => (h, 0%nat)
  end.

(** What happens to a mounted hook: the user retries or refreshes, or
    the interval, the focus or the visibility of the window ask for a
    background refresh. *)
Inductive Event : Type :=
| Retry (nowCheck : Z) (api : ApiOutcome) (unmounts : bool) (nowDone : Z)
| Refresh (nowCheck : Z) (api : ApiOutcome) (unmounts : bool) (nowDone : Z)
| Background (nowStale nowCheck : Z) (api : ApiOutcome) (unmounts : bool) (nowDone : Z).

Definition handle (h : Hook) (e : Event) : Hook * nat :=
  match e with
  | Retry nowCheck api unmounts nowDone => retry h nowCheck api unmounts nowDone
  | Refresh nowCheck api unmounts nowDone => refresh h nowCheck api unmounts nowDone
  | Background nowStale nowCheck api unmounts nowDone =>
      backgroundRefresh h nowStale nowCheck api unmounts nowDone
  end.

(** The hook after a series of events, and the requests sent in all. *)
Fixpoint run (h : Hook) (events : list Event) : Hook * nat :=
  match events with
  | [] => (h, 0%nat)
  | e :: events' =>
      let '(h1, n1) := handle h e in
      let '(h2, n2) := run h1 events' in
      (h2, (n1 + n2)%nat)
  end.

End GameDataHook.

(* ===================================================================== *)
(** * Part II: lemmas and theorems                                        *)
(* ===================================================================== *)

(* --------------------------------------------------------------------- *)
(** ** The advantage rule                                                 *)
(* --------------------------------------------------------------------- *)

Section AdvantageRule.
Import Js DataFormatter.
Local Open Scope Q_scope.

Lemma Qltb_lt (x y : Q) : Qltb x y = true <-> x < y.
Proof.
  unfold Qltb. rewrite negb_true_iff, <- not_true_iff_false, Qle_bool_iff.
  split; [apply Qnot_le_lt | apply Qlt_not_le].
Qed.

Lemma Qltb_ge (x y : Q) : Qltb x y = false <-> y <= x.
Proof.
  unfold Qltb. rewrite negb_false_iff. apply Qle_bool_iff.
Qed.

Lemma Qeq_bool_false (x y : Q) : ~ x == y -> Qeq_bool x y = false.
Proof.
  intros H. apply not_true_iff_false. intros E. apply H. now apply Qeq_bool_iff.
Qed.

(** The band of the rule as the specification words it: the absolute
    difference is under 5% of the average. *)
Definition withinFivePercent (a b : Q) : Prop :=
  Qabs (a - b) < (5 # 100) * ((a + b) / 2).


Definition num (q : Q) : JsVal := JNum (Fin q).

End AdvantageRule.

Section DoubleLaws.
Import SpecFloat Ieee.






End DoubleLaws.

Section AdvantageTheorems.
Import Js DataFormatter.
Local Open Scope Q_scope.





(** The rule on the lower-is-better call of [comparePitchers]: an ERA of
    2.95 against 3.25 favours the side whose ERA comes second. *)
Example advantage_rule_era_example :
  calculateAdvantage (num (325 # 100)) (num (295 # 100)) = "Giants" /\
  calculateAdvantage (num (295 # 100)) (num (325 # 100)) = "Opponent" /\
  calculateAdvantage (num (300 # 100)) (num (310 # 100)) = "Even".
Proof. repeat split; vm_compute; reflexivity. Qed.

(** Rounding also works the other way: the winning rates of the records
    1-2 and 13-28 differ by 5% of their average on paper, and the rounded
    relative difference lies below 5. *)
Example advantage_rule_records_example :
  ~ withinFivePercent (1 # 3) (13 # 41) /\
  calculateAdvantage (num (1 # 3)) (num (13 # 41)) = "Even" /\
  calculateAdvantage (num (13 # 41)) (num (1 # 3)) = "Even".
Proof.
  split; [| split; vm_compute; reflexivity].
  unfold withinFivePercent. vm_compute. intros H. discriminate H.
Qed.

(** A negative average puts a pair in the 'Even' branch. *)
Example advantage_rule_negative_example :
  calculateAdvantage (num (- 3)) (num (- 9)) = "Even" /\
  calculateAdvantage (num (- 9)) (num (- 3)) = "Even".
Proof. split; vm_compute; reflexivity. Qed.

End AdvantageTheorems.

(* --------------------------------------------------------------------- *)
(** ** Degradation of the formatter on partial input                      *)
(* --------------------------------------------------------------------- *)

Section Degradation.
Import Js DataFormatter.
Variable rt : Builtins.

(** The guard of [extractKeyTeamStats]: no input, no [stats], or an
    empty [stats] array. *)
Lemma extractKeyTeamStats_falsy (teamStats : JsVal) :
  truthy teamStats = false -> extractKeyTeamStats rt teamStats = Ok notAvailable.
Proof. intros H. unfold extractKeyTeamStats. now rewrite H. Qed.

Lemma extractKeyTeamStats_missing_stats (teamStats stats : JsVal) :
  get teamStats "stats" = Ok stats -> truthy stats = false ->
  extractKeyTeamStats rt teamStats = Ok notAvailable.
Proof.
  intros Hget Hs. unfold extractKeyTeamStats.
  destruct (truthy teamStats); [| reflexivity]. cbn [negb].
  rewrite Hget. cbn [bind]. now rewrite Hs.
Qed.

Lemma extractKeyTeamStats_empty_stats (teamStats : JsVal) :
  get teamStats "stats" = Ok (JArr []) ->
  extractKeyTeamStats rt teamStats = Ok notAvailable.
Proof.
  intros Hget. unfold extractKeyTeamStats.
  destruct (truthy teamStats); [| reflexivity]. cbn [negb].
  rewrite Hget. reflexivity.
Qed.

(** Raw team stats whose first entry has an empty [splits] array. *)
Definition statsWithEmptySplits : JsVal :=
  JObj [("stats", JArr [JObj [("splits", JArr [])]])].

(** C1, at the input the guard misses: on a first [stats] entry with an
    empty [splits] array, [extractKeyTeamStats] throws a TypeError where
    the claim asks for [{ available: false }]. *)
Theorem extractKeyTeamStats_empty_splits_throws :
  extractKeyTeamStats rt statsWithEmptySplits
  = Throw "Cannot read properties of undefined (reading 'stat')".
Proof. reflexivity. Qed.

(** [comparePitchers] reads the same path with optional chaining and
    does degrade on that input. *)
Lemma comparePitchers_empty_splits_degrades :
  comparePitchers rt statsWithEmptySplits statsWithEmptySplits = Ok notAvailable.
Proof. reflexivity. Qed.

(** A raw bundle as [fetchComprehensiveGameData] builds it when the two
    teams have not met yet: the head-to-head schedule has no dates, and
    no other optional part is present. *)
Definition teamEntry (id : Z) (name : string) (wins losses : Z) : JsVal :=
  JObj [("team", JObj [("id", JInt id); ("name", JStr name)]);
        ("leagueRecord", JObj [("wins", JInt wins); ("losses", JInt losses)])].

Definition sampleGame : JsVal :=
  JObj [("gamePk", JInt 1);
        ("gameDate", JStr "2024-05-01T00:00:00Z");
        ("venue", JObj [("name", JStr "Oracle Park")]);
        ("teams", JObj [("home", teamEntry 137 "SF Giants" 10 8);
                        ("away", teamEntry 119 "Dodgers" 11 7)]);
        ("gameType", JStr "R");
        ("gameNumber", JInt 1);
        ("gamesInSeries", JInt 3);
        ("seriesGameNumber", JInt 1);
        ("seriesDescription", JStr "Regular Season")].

Definition bundleWith (extra : list (string * JsVal)) : JsVal :=
  JObj ([("gameFound", JBool true);
         ("game", sampleGame);
         ("opponent", JObj [("id", JInt 119); ("name", JStr "Dodgers")]);
         ("isHomeGame", JBool true)] ++ extra)%list.

Definition bundleNoMeetings : JsVal :=
  bundleWith [("headToHead", JObj [("dates", JArr [])])].

(** Every field of the object is [null] or [undefined]. *)
Definition onlyNullish (v : JsVal) : bool :=
  match v with
  | JObj fs => forallb (fun kv => isNullish (snd kv)) fs
  | _ => false
  end.

(** C2, at two bundles the formatter accepts. With a head-to-head
    schedule and nothing else optional, the payload's [headToHead] is the
    object of the second [formatHeadToHead]: four [undefined] fields and
    no [available] flag. With team stats whose [splits] are empty, the
    call throws. *)
Theorem formatGameData_headToHead_fields_undefined :
  (exists payload,
     formatGameData rt bundleNoMeetings JUndefined = Ok payload /\
     get payload "headToHead"
       = Ok (JObj [("games", JUndefined); ("team1", JUndefined);
                   ("team2", JUndefined); ("season", JUndefined)]) /\
     (forall h, get payload "headToHead" = Ok h ->
                onlyNullish h = true /\ get h "available" = Ok JUndefined)) /\
  formatGameData rt (bundleWith [("giantsStats", statsWithEmptySplits)]) JUndefined
    = Throw "Cannot read properties of undefined (reading 'stat')".
Proof.
  split; [| reflexivity].
  eexists. split; [reflexivity |]. split; [reflexivity |].
  intros h Hh. cbn in Hh. injection Hh as <-. split; reflexivity.
Qed.

(** The first [formatHeadToHead], which the second one hides, does carry
    the flag on every input it accepts. *)
Lemma formatHeadToHead_1_flag (headToHead v : JsVal) :
  formatHeadToHead_1 rt headToHead = Ok v ->
  exists b, get v "available" = Ok (JBool b).
Proof.
  unfold formatHeadToHead_1. intros H.
  destruct (truthy headToHead); cbn [negb] in H;
    [| injection H as <-; now exists false].
  destruct (get headToHead "dates") as [dates |]; cbn [bind] in H; [| discriminate].
  destruct (truthy dates); cbn [negb] in H; [| injection H as <-; now exists false].
  destruct (asArray _ dates) as [ds |]; cbn [bind] in H; [| discriminate].
  destruct (flatGames ds) as [games |]; cbn [bind] in H; [| discriminate].
  destruct (foldM _ games (0%nat, 0%nat)) as [wl |]; cbn [bind] in H; [| discriminate].
  destruct (calculateHeadToHeadTrend rt games) as [t |]; cbn [bind] in H; [| discriminate].
  injection H as <-. now exists true.
Qed.

(** With nothing but the game in the bundle, the four mandatory blocks
    of the payload do degrade to [{ available: false }]. *)
Lemma formatGameData_bare_bundle_degrades :
  exists payload teamStats recent,
    formatGameData rt (bundleWith []) JUndefined = Ok payload /\
    get payload "teamStats" = Ok teamStats /\
    get teamStats "giants" = Ok notAvailable /\
    get teamStats "opponent" = Ok notAvailable /\
    get teamStats "comparison" = Ok notAvailable /\
    get payload "recentPerformance" = Ok recent /\
    get recent "giants" = Ok notAvailable /\
    get recent "opponent" = Ok notAvailable /\
    get payload "pitchingMatchup" = Ok notAvailable /\
    get payload "headToHead" = Ok JUndefined.
Proof. do 3 eexists. repeat split; reflexivity. Qed.

End Degradation.

(* --------------------------------------------------------------------- *)
(** ** Substrings                                                         *)
(* --------------------------------------------------------------------- *)

(** [cbn] and [simpl] may unfold [++] on strings in what follows. *)
#[local] Arguments String.append !s1 s2 : simpl nomatch.

Section Substrings.
Import JsString.

Lemma startsWith_app (s p : string) :
  startsWith s p = true <-> exists t, s = p ++ t.
Proof.
  revert s. induction p as [| c p IH]; intros s; cbn.
  - split; [intros _; now exists s | reflexivity].
  - destruct s as [| d s].
    + split; [discriminate | intros [t H]; discriminate H].
    + rewrite andb_true_iff, Ascii.eqb_eq, IH. split.
      * intros [-> [t ->]]. now exists t.
      * intros [t H]. injection H as -> ->. split; [reflexivity | now exists t].
Qed.

Lemma includes_app (s sub : string) :
  includes s sub = true <-> exists a b, s = a ++ sub ++ b.
Proof.
  induction s as [| c s IH]; cbn [includes].
  - destruct (startsWith "" sub) eqn:E.
    + split; [intros _ | reflexivity].
      apply startsWith_app in E as [t Ht]. now exists "", t.
    + split; [discriminate |]. intros (a & b & H).
      destruct a; cbn in H.
      * assert (startsWith "" sub = true) by (apply startsWith_app; now exists b).
        congruence.
      * discriminate H.
  - destruct (startsWith (String c s) sub) eqn:E.
    + split; [intros _ | reflexivity].
      apply startsWith_app in E as [t Ht]. now exists "", t.
    + rewrite IH. split; intros (a & b & H).
      * exists (String c a), b. cbn. now rewrite H.
      * destruct a as [| d a]; cbn in H.
        -- assert (startsWith (String c s) sub = true)
             by (apply startsWith_app; now exists b).
           congruence.
        -- injection H as _ H. now exists a, b.
Qed.

Lemma append_assoc (a b c : string) : (a ++ b) ++ c = a ++ (b ++ c).
Proof. induction a as [| x a IH]; cbn; [reflexivity | now rewrite IH]. Qed.

(** A text that includes a word includes every tail part of the word. *)
Lemma includes_suffix_of_word (s p q : string) :
  includes s (p ++ q) = true -> includes s q = true.
Proof.
  rewrite !includes_app. intros (a & b & H).
  exists (a ++ p), b. now rewrite H, !append_assoc.
Qed.

End Substrings.

(* --------------------------------------------------------------------- *)
(** ** Outcome and confidence labels                                      *)
(* --------------------------------------------------------------------- *)

Section Labels.
Import JsString Regex ResponseParser.

(** C10. Every text whose lower-case form contains 'disadvantage' is
    labelled 'Giants favored' by [interpretOutcome], never 'Opponent
    favored': the positive words are tried first and 'advantage' is part
    of 'disadvantage'. So when the sentence [extractOutcomePrediction]
    matched is such a text, the prediction is 'Giants favored'. *)
Theorem interpretOutcome_disadvantage_giants_favored (text : string) :
  includes (toLowerCase text) "disadvantage" = true ->
  interpretOutcome text = "Giants favored" /\
  interpretOutcome text <> "Opponent favored" /\
  (forall analysis,
     firstOutcomeMatch outcomePatterns analysis = Some text ->
     extractOutcomePrediction analysis = "Giants favored").
Proof.
  intros H.
  assert (Hadv : includes (toLowerCase text) "advantage" = true)
    by exact (includes_suffix_of_word _ "dis" "advantage" H).
  assert (Hi : interpretOutcome text = "Giants favored").
  { unfold interpretOutcome, someIncluded. cbn [existsb].
    rewrite Hadv. now rewrite !orb_true_r. }
  split; [exact Hi |]. split.
  - rewrite Hi. discriminate.
  - intros analysis Hm. unfold extractOutcomePrediction. now rewrite Hm.
Qed.

Lemma interpretOutcome_disadvantage_witness :
  includes (toLowerCase "Giants will be at a disadvantage and lose") "disadvantage" = true /\
  interpretOutcome "Giants will be at a disadvantage and lose" = "Giants favored".
Proof.
  split; [reflexivity |].
  apply (interpretOutcome_disadvantage_giants_favored
           "Giants will be at a disadvantage and lose").
  reflexivity.
Defined.

(** The sentence the first outcome pattern matches in a preview that
    predicts a loss. *)
Example extractOutcomePrediction_disadvantage_example :
  firstOutcomeMatch outcomePatterns "The Giants will be at a disadvantage and lose"
    = Some "Giants will be at a disadvantage and lose" /\
  extractOutcomePrediction "The Giants will be at a disadvantage and lose"
    = "Giants favored" /\
  extractOutcomePrediction "The Giants will struggle tonight" = "Opponent favored".
Proof. repeat split; vm_compute; reflexivity. Qed.

(** The specification's scenario for the outcome label. *)
Example extractOutcomePrediction_scenario :
  extractOutcomePrediction "The Giants should win this matchup with a clear advantage"
    = "Giants favored".
Proof. vm_compute. reflexivity. Qed.

(** *** Confidence *)

(** The number of places of [text] at which [word] starts. *)
Fixpoint occurrences (word text : string) : nat :=
  (if startsWith text word then 1 else 0) +
  match text with
  | EmptyString => 0
  | String _ text' => occurrences word text'
  end.

(** The specification's count: the occurrences of the words of a
    vocabulary across the whole text. *)
Definition occurrencesOf (words : list string) (text : string) : nat :=
  list_sum (map (fun word => occurrences word (toLowerCase text)) words).

(** The count the code makes: the words of a vocabulary that occur in
    the text at all. *)
Definition presentCount (words : list string) (text : string) : nat :=
  length (List.filter (fun word => includes (toLowerCase text) word) words).

Lemma filter_filter_comm {A : Type} (f g : A -> bool) (l : list A) :
  List.filter f (List.filter g l) = List.filter g (List.filter f l).
Proof.
  induction l as [| x l IH]; cbn; [reflexivity |].
  destruct (f x) eqn:Ef, (g x) eqn:Eg; cbn; rewrite ?Ef, ?Eg, IH; reflexivity.
Qed.

Lemma assessConfidence_presentCount (analysis : string) :
  assessConfidence analysis =
    if Nat.ltb (presentCount weakIndicators analysis)
               (presentCount strongIndicators analysis) then "high"
    else if Nat.ltb (presentCount strongIndicators analysis)
                    (presentCount weakIndicators analysis) then "low"
    else "moderate".
Proof.
  unfold assessConfidence, presentCount.
  rewrite !(filter_filter_comm (listIncludes _)).
  reflexivity.
Qed.

(** C7 (amended). For every analysis text, [assessConfidence] counts how
    many distinct strong-certainty words and how many distinct
    weak-certainty words occur in the text (each word once, however often
    it occurs) and returns 'high' when the strong count is larger, 'low'
    when the weak count is larger, and 'moderate' on a tie, also when no
    word of either vocabulary occurs. *)
Theorem assessConfidence_counts_distinct_words (analysis : string) :
  (presentCount weakIndicators analysis < presentCount strongIndicators analysis ->
   assessConfidence analysis = "high") /\
  (presentCount strongIndicators analysis < presentCount weakIndicators analysis ->
   assessConfidence analysis = "low") /\
  (presentCount strongIndicators analysis = presentCount weakIndicators analysis ->
   assessConfidence analysis = "moderate") /\
  (presentCount strongIndicators analysis = 0 ->
   presentCount weakIndicators analysis = 0 ->
   assessConfidence analysis = "moderate").
Proof.
  rewrite assessConfidence_presentCount.
  set (s := presentCount strongIndicators analysis).
  set (w := presentCount weakIndicators analysis).
  repeat split; intros.
  - assert (E : Nat.ltb w s = true) by (apply Nat.ltb_lt; lia). now rewrite E.
  - assert (E1 : Nat.ltb w s = false) by (apply Nat.ltb_ge; lia).
    assert (E2 : Nat.ltb s w = true) by (apply Nat.ltb_lt; lia).
    now rewrite E1, E2.
  - assert (E1 : Nat.ltb w s = false) by (apply Nat.ltb_ge; lia).
    assert (E2 : Nat.ltb s w = false) by (apply Nat.ltb_ge; lia).
    now rewrite E1, E2.
  - assert (E1 : Nat.ltb w s = false) by (apply Nat.ltb_ge; lia).
    assert (E2 : Nat.ltb s w = false) by (apply Nat.ltb_ge; lia).
    now rewrite E1, E2.
Qed.

(** C7, as stated, fails on "might might clearly": the weak vocabulary
    occurs twice and the strong vocabulary once, yet the label is
    'moderate', not 'low'. *)
Lemma assessConfidence_repeated_word_counted_once :
  occurrencesOf strongIndicators "might might clearly" = 1 /\
  occurrencesOf weakIndicators "might might clearly" = 2 /\
  assessConfidence "might might clearly" = "moderate".
Proof. repeat split; vm_compute; reflexivity. Qed.

(** [calculateConfidenceScore], the classifier of the [predictions]
    block, does count every matched term, but a term that contains
    'uncertain' also contains 'certain' and is counted on both sides. *)
Example extractPredictionConfidence_examples :
  extractPredictionConfidence "a likely win, quite likely" = "high" /\
  extractPredictionConfidence "possible, but weak chance" = "low" /\
  extractPredictionConfidence "the outcome is uncertain" = "moderate" /\
  extractPredictionConfidence "no such word" = "moderate".
Proof. repeat split; vm_compute; reflexivity. Qed.

End Labels.

(* --------------------------------------------------------------------- *)
(** ** The circuit breaker of the MCP client                              *)
(* --------------------------------------------------------------------- *)

Section Breaker.
Import Js McpClient.
Variable config : McpClientConfig.

Abbreviation threshold := (circuitBreakerThreshold config).
Abbreviation resetTime := (circuitBreakerResetTime config).














End Breaker.



(* --------------------------------------------------------------------- *)
(** ** The cache of [makeRequest]                                         *)
(* --------------------------------------------------------------------- *)

Section CacheTTL.
Import Js MlbApi.

(** A burst of requests for one URL: each with its two clock readings
    and what the network would answer. Returns the results, the client
    after the last request and the number of network calls. *)
Fixpoint requests (c : Client) (url : string) (calls : list (Z * FetchOutcome * Z))
  : list (Res JsVal) * Client * nat :=
  match calls with
  | [] => ([], c, 0)
  | (now, net, now') :: calls' =>
      let out := makeRequest c url now net now' in
      let '(rs, c', n) := requests (client out) url calls' in
      (result out :: rs, c', networkCalls out + n)
  end.

(** A request that finds no live entry and gets a good response stores
    it under the URL with the time of storing. *)
Lemma makeRequest_stores (c : Client) (url status statusText : string)
    (now now' : Z) (d : JsVal) :
  (forall e, cache c !! url = Some e -> (cacheTimeout c <= now - timestamp e)%Z) ->
  let out := makeRequest c url now (Responded true status statusText (Ok d)) now' in
  result out = Ok d /\ networkCalls out = 1 /\
  cache (client out) !! url = Some {| data := d; timestamp := now' |} /\
  cacheTimeout (client out) = cacheTimeout c.
Proof.
  intros Hmiss. cbv zeta. unfold makeRequest.
  destruct (cache c !! url) as [e |] eqn:E.
  - specialize (Hmiss e eq_refl).
    assert (Ex : (now - timestamp e <? cacheTimeout c)%Z = false)
      by (apply Z.ltb_ge; lia).
    rewrite Ex. cbn. repeat split; try reflexivity. apply lookup_insert_eq.
  - cbn. repeat split; try reflexivity. apply lookup_insert_eq.
Qed.

Lemma makeRequest_hit (c : Client) (url : string) (e : CacheEntry)
    (now now' : Z) (net : FetchOutcome) :
  cache c !! url = Some e -> (now - timestamp e < cacheTimeout c)%Z ->
  makeRequest c url now net now'
  = {| result := Ok (data e); client := c; networkCalls := 0 |}.
Proof.
  intros He Hlive. unfold makeRequest. rewrite He.
  assert (Ex : (now - timestamp e <? cacheTimeout c)%Z = true) by (apply Z.ltb_lt; lia).
  now rewrite Ex.
Qed.

Lemma requests_within_ttl (c : Client) (url : string) (e : CacheEntry)
    (calls : list (Z * FetchOutcome * Z)) :
  cache c !! url = Some e ->
  Forall (fun call => (fst (fst call) - timestamp e < cacheTimeout c)%Z) calls ->
  requests c url calls = (map (fun _ => Ok (data e)) calls, c, 0).
Proof.
  intros He Hall. induction Hall as [| [[now net] now'] calls Hlive _ IH]; cbn.
  - reflexivity.
  - cbn in Hlive. rewrite (makeRequest_hit c url e now now' net He Hlive). cbn.
    now rewrite IH.
Qed.

(** C9 (amended). Once a response for a URL is in the cache, stored at
    time [t0], every later [makeRequest] for that URL made less than five
    minutes (300000 ms) after [t0] returns the stored data, leaves the
    client as it is and makes no network call, however many such requests
    follow one another. A request made five minutes after [t0] or later
    makes exactly one network call. When that call yields a good
    response, the request returns the new data and the entry is replaced
    by the new data with the new time. In every other case the request
    throws - 'MLB API error: <status> <statusText>' for a response that is
    not ok, the parser's error for a body that is not JSON, 'MLB API
    request timeout' for an aborted fetch, the rejection's message
    otherwise - and the client, the expired entry included, stays as it
    was. *)
Theorem makeRequest_cache_ttl (c : Client) (url : string) (d : JsVal) (t0 : Z) :
  cacheTimeout c = 300000%Z ->
  cache c !! url = Some {| data := d; timestamp := t0 |} ->
  (forall now net now',
     (now - t0 < 300000)%Z ->
     makeRequest c url now net now'
     = {| result := Ok d; client := c; networkCalls := 0 |}) /\
  (forall calls,
     Forall (fun call => (fst (fst call) - t0 < 300000)%Z) calls ->
     requests c url calls = (map (fun _ => Ok d) calls, c, 0)) /\
  (forall now net now',
     (300000 <= now - t0)%Z ->
     let out := makeRequest c url now net now' in
     networkCalls out = 1 /\
     (forall status statusText d',
        net = Responded true status statusText (Ok d') ->
        result out = Ok d' /\
        cache (client out) !! url = Some {| data := d'; timestamp := now' |}) /\
     (forall status statusText json,
        net = Responded false status statusText json ->
        result out = Throw ("MLB API error: " ++ status ++ " " ++ statusText)) /\
     (forall status statusText m,
        net = Responded true status statusText (Throw m) -> result out = Throw m) /\
     (net = Aborted -> result out = Throw "MLB API request timeout") /\
     (forall m, net = Failed m -> result out = Throw m) /\
     ((forall status statusText d', net <> Responded true status statusText (Ok d')) ->
      (exists m, result out = Throw m) /\
      client out = c /\
      cache (client out) !! url = Some {| data := d; timestamp := t0 |})).
Proof.
  intros Httl He. split; [| split].
  - intros now net now' Hlive.
    apply (makeRequest_hit c url _ now now' net He). cbn. lia.
  - intros calls Hall.
    apply (requests_within_ttl c url _ calls He). cbn. now rewrite Httl.
  - intros now net now' Hexp. cbv zeta. unfold makeRequest. rewrite He. cbn [timestamp].
    assert (Ex : (now - t0 <? cacheTimeout c)%Z = false) by (apply Z.ltb_ge; lia).
    rewrite Ex.
    split; [destruct net as [[] ? ? []| |]; reflexivity |].
    split; [intros status statusText d' ->; cbn; split;
            [reflexivity | apply lookup_insert_eq] |].
    split; [intros status statusText json ->; reflexivity |].
    split; [intros status statusText m ->; reflexivity |].
    split; [intros ->; reflexivity |].
    split; [intros m ->; reflexivity |].
    intros Hbad.
    destruct net as [[] status statusText [d' | m] | | m]; cbn;
      try (split; [eexists; reflexivity | split; [reflexivity | exact He]]).
    exfalso. exact (Hbad status statusText d' eq_refl).
Qed.

(** A client that cached the string "v1" for the URL "u" at time 0. *)
Definition cachedClient : Client :=
  withEntry newClient "u" {| data := JStr "v1"; timestamp := 0 |}.

(** One millisecond before the five minutes the entry is served; at five
    minutes the network is asked, and a fetch that is aborted throws. *)
Lemma makeRequest_cache_ttl_witness :
  cacheTimeout cachedClient = 300000%Z /\
  cache cachedClient !! "u" = Some {| data := JStr "v1"; timestamp := 0 |} /\
  makeRequest cachedClient "u" 299999 Aborted 299999
  = {| result := Ok (JStr "v1"); client := cachedClient; networkCalls := 0 |} /\
  networkCalls (makeRequest cachedClient "u" 300000 Aborted 300000) = 1 /\
  result (makeRequest cachedClient "u" 300000 Aborted 300000)
  = Throw "MLB API request timeout".
Proof.
  assert (H1 : cacheTimeout cachedClient = 300000%Z) by reflexivity.
  assert (H2 : cache cachedClient !! "u" = Some {| data := JStr "v1"; timestamp := 0 |})
    by apply lookup_insert_eq.
  split; [exact H1 |]. split; [exact H2 |].
  destruct (makeRequest_cache_ttl cachedClient "u" (JStr "v1") 0 H1 H2)
    as (Hlive & _ & Hexpired).
  split; [apply Hlive; lia |].
  destruct (Hexpired 300000%Z Aborted 300000%Z ltac:(lia))
    as (Hcalls & _ & _ & _ & Haborted & _).
  split; [exact Hcalls | exact (Haborted eq_refl)].
Defined.

(** C9, as stated, fails when the fresh call fails: the request made
    after expiry makes its one network call, throws, and the cache still
    holds the expired entry. *)
Lemma makeRequest_failed_refresh_keeps_entry :
  networkCalls (makeRequest cachedClient "u" 300001 (Failed "socket hang up") 300002) = 1 /\
  result (makeRequest cachedClient "u" 300001 (Failed "socket hang up") 300002)
  = Throw "socket hang up" /\
  cache (client (makeRequest cachedClient "u" 300001 (Failed "socket hang up") 300002))
    !! "u" = Some {| data := JStr "v1"; timestamp := 0 |}.
Proof.
  assert (H2 : cache cachedClient !! "u" = Some {| data := JStr "v1"; timestamp := 0 |})
    by apply lookup_insert_eq.
  unfold makeRequest. rewrite H2. cbn. repeat split; try reflexivity; exact H2.
Qed.

End CacheTTL.

(* --------------------------------------------------------------------- *)
(** ** The orchestrated preview                                           *)
(* --------------------------------------------------------------------- *)

Section Preview.
Import Js Server.
Variable cfg : Config.
Variable w : World.


Lemma nonempty_length_not_zero (x : JsVal) (l : list JsVal) :
  strictEq (JNat (length (x :: l))) (JInt 0) = false.
Proof.
  change (length (x :: l)) with (S (length l)).
  unfold strictEq, JNat, JInt, num_of_nat, num_of_Z, num_eq.
  apply Qeq_bool_false. intros E. unfold Qeq in E. cbn [Qnum Qden inject_Z] in E. lia.
Qed.







(** *** Which fetches abort the preview *)

(** The object has an own field of that name. *)
Definition hasKey (k : string) (fs : list (string * JsVal)) : bool :=
  existsb (String.eqb k) (map fst fs).

Definition hasField (k : string) (v : JsVal) : bool :=
  match v with
  | JObj fs => hasKey k fs
  | _ => false
  end.

Lemma hasKey_setField (k k' : string) (v : JsVal) (fs : list (string * JsVal)) :
  hasKey k (setField k' v fs) = String.eqb k k' || hasKey k fs.
Proof.
  unfold hasKey. induction fs as [| [k0 v0] fs IH]; cbn.
  - reflexivity.
  - destruct (String.eqb k' k0) eqn:E; cbn.
    + apply String.eqb_eq in E as <-. now destruct (String.eqb k k').
    + rewrite IH. now destruct (String.eqb k k0), (String.eqb k k').
Qed.

Lemma lookupField_setField (k k' : string) (v : JsVal) (fs : list (string * JsVal)) :
  lookupField k (setField k' v fs) = if String.eqb k k' then v else lookupField k fs.
Proof.
  induction fs as [| [k0 v0] fs IH]; cbn.
  - reflexivity.
  - destruct (String.eqb k' k0) eqn:E; cbn.
    + apply String.eqb_eq in E as <-. now destruct (String.eqb k k').
    + rewrite IH. destruct (String.eqb k k0) eqn:E0; [| reflexivity].
      apply String.eqb_eq in E0 as ->.
      destruct (String.eqb k0 k') eqn:E1; [| reflexivity].
      apply String.eqb_eq in E1 as ->. rewrite String.eqb_refl in E. discriminate.
Qed.
















End Preview.

(* --------------------------------------------------------------------- *)
(** ** Sample worlds for the preview                                      *)
(* --------------------------------------------------------------------- *)

Section SampleWorlds.
Import Js Server.

(** A runtime for the samples: whole numbers print as their decimal
    digits; no sample parses a number out of a string. *)
Definition sampleBuiltins : Builtins :=
  {| numberToString := fun n =>
       match n with
       | Fin q => NilEmpty.string_of_int (Z.to_int (Qnum q / Zpos (Qden q)))
       | PInf => "Infinity"
       | NInf => "-Infinity"
       | NaN => "NaN"
       end;
     stringToNumber := fun _ => NaN;
     parseFloatStr := fun _ => NaN;
     toFixed := fun n _ =>
       match n with
       | Fin q => NilEmpty.string_of_int (Z.to_int (Qnum q / Zpos (Qden q)))
       | _ => "NaN"
       end |}.

(** A world in which the schedule, the team stats, the weather and the
    injury reports answer as given, every other fetch resolves, the LLM
    returns a text and the parser wraps it. *)
Definition sampleWorld (schedule stats weather injuries : Res JsVal) : World :=
  {| getTeamSchedule := fun _ _ _ => schedule;
     getTeamStats := fun _ => stats;
     getRecentGames := fun _ _ => Ok (JArr []);
     getHeadToHeadRecord := fun _ _ => Ok (JObj [("dates", JArr [])]);
     getTeamRoster := fun _ => Ok (JArr []);
     getGameFeed := fun _ => Ok (JObj []);
     getPlayerStats := fun _ _ => Ok (JObj []);
     getGameWeather := fun _ => weather;
     getInjuryReport := fun _ => injuries;
     analyzeGameData := fun _ _ => Ok (JObj [("content", JStr "## Game Overview")]);
     parseGameAnalysis := fun analysis =>
       Ok (JObj [("rawAnalysis", optGet analysis "content")]);
     jsonStringify := fun _ => "{}";
     builtins := sampleBuiltins |}.

Definition sampleClock : Clock :=
  {| today := "2024-05-01"; nowCheck := 1000; nowStore := 2000;
     generatedAt := "2024-05-01T12:00:00.000Z" |}.

Definition scheduleWithGame : JsVal :=
  JObj [("dates", JArr [JObj [("games", JArr [sampleGame])]])].

Definition seasonStats : JsVal :=
  JObj [("stats", JArr [JObj [("splits", JArr [JObj [("stat",
     JObj [("wins", JInt 10); ("losses", JInt 8);
           ("winPercentage", JStr "0.556")])]])]])].


(** The weather and injury fetches reject; everything else resolves. *)
Definition stormyWorld : World :=
  sampleWorld (Ok scheduleWithGame) (Ok seasonStats)
    (Throw "weather service down") (Throw "injury service down").

End SampleWorlds.

Section DatelessWorld.
Import Js Server.



End DatelessWorld.




(** In the stormy world the bundle lacks the weather and injury fields
    and the preview still succeeds; when the team stats reject, the
    preview is the failure envelope with that message. *)
Example preview_stormy_world_example :
  (exists rawData,
     fst (Server.fetchComprehensiveGameData Server.CONFIG stormyWorld (Js.JStr "2024-05-01"))
       = Js.Ok rawData /\
     hasField "weather" rawData = false /\
     hasField "giantsInjuries" rawData = false /\
     hasField "opponentInjuries" rawData = false /\
     hasField "giantsStats" rawData = true) /\
  fst (Server.getGiantsGamePreview Server.CONFIG
         (sampleWorld (Js.Ok scheduleWithGame) (Js.Throw "MLB API error: 503 Service Unavailable")
            (Js.Ok Js.JNull) (Js.Ok (Js.JArr [])))
         Server.initialState Js.JNull Js.JUndefined sampleClock)
  = Server.failure "MLB API error: 503 Service Unavailable" (Js.JStr "2024-05-01").
Proof.
  split.
  - eexists. split; [vm_compute; reflexivity |]. repeat split.
  - vm_compute. reflexivity.
Qed.

(* --------------------------------------------------------------------- *)
(** ** The matcher on texts with a known beginning                        *)
(* --------------------------------------------------------------------- *)

Section MatcherLemmas.
Import JsString Regex.
Local Open Scope list_scope.

(** No match of [P] starts inside [x], whatever surrounds it. *)
Definition dead (P : re) (x : chars) : Prop :=
  forall b t x1 c x2,
    x = x1 ++ c :: x2 ->
    mt P Some {| before := b; rest := c :: x2 ++ t; caps := [] |} = None.

Lemma dead_nil (P : re) : dead P [].
Proof. intros b t x1 c x2 H. destruct x1; discriminate H. Qed.

Lemma dead_cons (P : re) (c : ascii) (x : chars) :
  (forall b t, mt P Some {| before := b; rest := c :: x ++ t; caps := [] |} = None) ->
  dead P x -> dead P (c :: x).
Proof.
  intros Hc Hx b t x1 c' x2 H. destruct x1 as [| d x1]; cbn in H.
  - injection H as <- <-. apply Hc.
  - injection H as _ H. exact (Hx b t x1 c' x2 H).
Qed.

Lemma dead_app (P : re) (x y : chars) : dead P x -> dead P y -> dead P (x ++ y).
Proof.
  intros Hx Hy. induction x as [| c x IH]; [exact Hy |].
  cbn. apply dead_cons.
  - intros b t. rewrite <- app_assoc. exact (Hx b (y ++ t) [] c x eq_refl).
  - apply IH. intros b t x1 c' x2 H. apply (Hx b t (c :: x1) c' x2). cbn. now rewrite H.
Qed.

(** The search steps over a dead beginning. *)
Lemma searchFrom_dead (P : re) (x t b : chars) :
  dead P x -> searchFrom P b (x ++ t) = searchFrom P (rev x ++ b) t.
Proof.
  revert b. induction x as [| c x IH]; intros b Hx; [reflexivity |].
  cbn [app searchFrom]. rewrite (Hx b t [] c x eq_refl).
  rewrite IH.
  - cbn [rev]. now rewrite <- app_assoc.
  - intros b' t' x1 c' x2 H. apply (Hx b' t' (c :: x1) c' x2). cbn. now rewrite H.
Qed.

Lemma searchFrom_here (P : re) (b t : chars) (e : MState) :
  mt P Some {| before := b; rest := t; caps := [] |} = Some e ->
  searchFrom P b t
  = Some {| m_start := {| before := b; rest := t; caps := [] |}; m_end := e |}.
Proof. intros H. destruct t; cbn [searchFrom]; now rewrite H. Qed.

(** [p*?] passes the places where the rest cannot match. *)
Lemma star_lazy_skip {R : Type} (p : ascii -> bool) (k : MState -> option R)
    (u t b : chars) (cs : list (nat * chars)) :
  (forall u1 c u2,
     u = u1 ++ c :: u2 ->
     p c = true /\
     k {| before := rev u1 ++ b; rest := c :: u2 ++ t; caps := cs |} = None) ->
  star_lazy p k b (u ++ t) cs = star_lazy p k (rev u ++ b) t cs.
Proof.
  revert b. induction u as [| c u IH]; intros b H; [reflexivity |].
  destruct (H [] c u eq_refl) as [Hp Hk]. cbn in Hk.
  cbn [app star_lazy]. rewrite Hk, Hp. rewrite IH.
  - cbn [rev]. now rewrite <- app_assoc.
  - intros u1 c' u2 E. specialize (H (c :: u1) c' u2). cbn in H.
    rewrite <- app_assoc in H. apply H. now rewrite E.
Qed.

Lemma star_lazy_here {R : Type} (p : ascii -> bool) (k : MState -> option R)
    (t b : chars) (cs : list (nat * chars)) (x : R) :
  k {| before := b; rest := t; caps := cs |} = Some x ->
  star_lazy p k b t cs = Some x.
Proof. intros H. destruct t; cbn [star_lazy]; now rewrite H. Qed.

(** [p*] keeps what a longer repetition finds. *)
Lemma star_greedy_deeper {R : Type} (p : ascii -> bool) (k : MState -> option R)
    (u t b : chars) (cs : list (nat * chars)) (x : R) :
  forallb p u = true ->
  star_greedy p k (rev u ++ b) t cs = Some x ->
  star_greedy p k b (u ++ t) cs = Some x.
Proof.
  revert b. induction u as [| c u IH]; intros b Hp H; [exact H |].
  cbn in Hp. apply andb_true_iff in Hp as [Hc Hu].
  cbn [app star_greedy]. rewrite Hc. rewrite (IH (c :: b) Hu).
  - reflexivity.
  - cbn [rev] in H. now rewrite <- app_assoc in H.
Qed.

(** [p*] finds nothing when the rest matches at none of its stops. *)
Lemma star_greedy_none {R : Type} (p : ascii -> bool) (k : MState -> option R)
    (u t b : chars) (cs : list (nat * chars)) :
  (forall u1 u2,
     u = u1 ++ u2 ->
     k {| before := rev u1 ++ b; rest := u2 ++ t; caps := cs |} = None) ->
  match t with [] => True | c :: _ => p c = false end ->
  star_greedy p k b (u ++ t) cs = None.
Proof.
  revert b. induction u as [| c u IH]; intros b H Ht.
  - specialize (H [] [] eq_refl). cbn in H. cbn [app].
    destruct t as [| d t]; cbn [star_greedy]; [exact H |]. now rewrite Ht.
  - pose proof (H [] (c :: u) eq_refl) as H0. cbn in H0.
    cbn [app star_greedy]. rewrite H0.
    rewrite IH; [now destruct (p c) | | exact Ht].
    intros u1 u2 E. specialize (H (c :: u1) u2). cbn in H.
    rewrite <- app_assoc in H. apply H. now rewrite E.
Qed.

Lemma consumed_app (b u : chars) (s s' : MState) :
  before s = b -> before s' = rev u ++ b -> consumed s s' = u.
Proof.
  intros Hb E. unfold consumed. rewrite E, Hb.
  rewrite length_app, length_rev.
  replace (length u + length b - length b) with (length (rev u))
    by (rewrite length_rev; lia).
  rewrite firstn_app, Nat.sub_diag, firstn_all.
  cbn. rewrite app_nil_r. apply rev_involutive.
Qed.

End MatcherLemmas.

(* --------------------------------------------------------------------- *)
(** ** Sections of an analysis                                            *)
(* --------------------------------------------------------------------- *)

Section SectionCapture.
Import JsString Regex ResponseParser.
Local Open Scope list_scope.
#[local] Arguments consumed : simpl never.

Definition hash : ascii := "#"%char.

(** The text has no [#]. *)
Definition noHash (l : chars) : bool :=
  forallb (fun c => negb (Ascii.eqb c hash)) l.

Definition noNewline (l : chars) : bool :=
  forallb (fun c => negb (Ascii.eqb c nl)) l.

(** What follows a section: the end of the text or the next [##]. *)
Definition opensHeading (t : chars) : Prop :=
  t = [] \/ exists t', t = hash :: hash :: t'.

(** The end of every section pattern: [(.*?)(?=##|$)]. *)
Definition capture : MState -> option MState :=
  mt (Group 1 (Star false any)) (mt (Look (Alt (lit "##") Eos)) Some).

Lemma sectionPattern_unfold (heading : re) (s : MState) :
  mt (sectionPattern heading) Some s
  = mt (lit "##") (mt (Star true is_ws) (mt heading (mt (Chr (only nl)) capture))) s.
Proof. reflexivity. Qed.

Lemma noHash_at (u1 u2 : chars) (c : ascii) :
  noHash (u1 ++ c :: u2) = true -> Ascii.eqb c hash = false.
Proof.
  unfold noHash. rewrite forallb_app. cbn. rewrite !andb_true_iff.
  intros (_ & H & _). now apply negb_true_iff in H.
Qed.

Lemma capture_spec (b u t : chars) (cs : list (nat * chars)) :
  noHash u = true -> opensHeading t ->
  capture {| before := b; rest := u ++ t; caps := cs |}
  = Some {| before := rev u ++ b; rest := t; caps := (1, u) :: cs |}.
Proof.
  intros Hu Ht. unfold capture. cbn [mt before rest caps].
  rewrite star_lazy_skip.
  - apply star_lazy_here. cbn [before rest caps].
    rewrite (consumed_app b u); [| reflexivity | reflexivity].
    destruct Ht as [-> | [t' ->]]; reflexivity.
  - intros u1 c u2 E. split; [reflexivity |]. cbn [before rest caps].
    subst u. apply noHash_at in Hu. cbn. unfold only. fold hash. now rewrite Hu.
Qed.

Lemma last_newline (l : chars) :
  noNewline l = true \/
  exists w1 w2, l = w1 ++ nl :: w2 /\ noNewline w2 = true.
Proof.
  induction l as [| c l IH]; [now left |].
  destruct IH as [Hn | (w1 & w2 & -> & Hn)].
  - destruct (Ascii.eqb c nl) eqn:E.
    + right. apply Ascii.eqb_eq in E as ->. now exists [], l.
    + left. cbn. now rewrite E.
  - right. now exists (c :: w1), w2.
Qed.

Lemma is_ws_not_nl (c : ascii) : is_ws c = false -> Ascii.eqb c nl = false.
Proof.
  intros H. destruct (Ascii.eqb c nl) eqn:E; [| reflexivity].
  apply Ascii.eqb_eq in E as ->. discriminate H.
Qed.

(** [\s*\n] after a heading: the repetition runs over the white space
    that opens the section and comes back to its last newline. *)
Lemma ws_then_newline (Q : MState -> Prop) (K : MState -> option MState)
    (b lead tl : chars) (c : ascii) (cs : list (nat * chars)) :
  forallb is_ws lead = true -> is_ws c = false ->
  (forall b' w2,
     forallb is_ws w2 = true ->
     exists x, K {| before := b'; rest := w2 ++ c :: tl; caps := cs |} = Some x /\ Q x) ->
  exists x,
    mt (Star true is_ws) (mt (Chr (only nl)) K)
       {| before := b; rest := nl :: lead ++ c :: tl; caps := cs |} = Some x /\ Q x.
Proof.
  intros Hlead Hc HK.
  destruct (last_newline (nl :: lead)) as [Hn | (w1 & w2 & E & Hn)];
    [discriminate Hn |].
  assert (Hws : forallb is_ws (w1 ++ nl :: w2) = true) by (rewrite <- E; exact Hlead).
  rewrite forallb_app in Hws. apply andb_true_iff in Hws as [Hw1 Hw2].
  cbn [forallb] in Hw2. apply andb_true_iff in Hw2 as [_ Hw2].
  destruct (HK (nl :: rev w1 ++ b) w2 Hw2) as (x & Hx & HQ).
  exists x. split; [| exact HQ].
  cbn [mt before rest caps].
  change (nl :: lead ++ c :: tl) with ((nl :: lead) ++ c :: tl).
  rewrite E, <- app_assoc. apply star_greedy_deeper; [exact Hw1 |].
  cbn [app star_greedy]. replace (is_ws nl) with true by reflexivity.
  rewrite star_greedy_none.
  - cbn [mt rest]. replace (only nl nl) with true by reflexivity. exact Hx.
  - intros u1 u2 Eu. cbn [mt rest].
    destruct u2 as [| d u2]; cbn [app].
    + unfold only. now rewrite (is_ws_not_nl c Hc).
    + unfold noNewline in Hn. rewrite Eu, forallb_app in Hn.
      apply andb_true_iff in Hn as [_ Hn]. cbn in Hn.
      apply andb_true_iff in Hn as [Hd _]. apply negb_true_iff in Hd.
      unfold only. now rewrite Hd.
  - exact Hc.
Qed.

(** [.*?\n] after the words of a heading: up to the first newline. *)
Lemma any_then_newline (K : MState -> option MState) (b u t : chars)
    (cs : list (nat * chars)) (x : MState) :
  noNewline u = true ->
  K {| before := nl :: rev u ++ b; rest := t; caps := cs |} = Some x ->
  mt (Star false any) (mt (Chr (only nl)) K)
     {| before := b; rest := u ++ nl :: t; caps := cs |} = Some x.
Proof.
  intros Hu HK. cbn [mt before rest caps]. rewrite star_lazy_skip.
  - apply star_lazy_here. cbn [mt rest].
    replace (only nl nl) with true by reflexivity. exact HK.
  - intros u1 c u2 E. split; [reflexivity |]. cbn [mt rest].
    unfold noNewline in Hu. rewrite E, forallb_app in Hu.
    apply andb_true_iff in Hu as [_ Hu]. cbn in Hu.
    apply andb_true_iff in Hu as [Hc _]. apply negb_true_iff in Hc.
    unfold only. now rewrite Hc.
Qed.

(** *** Trimming *)

Lemma dropWhile_all (p : ascii -> bool) (l x : chars) :
  forallb p l = true -> dropWhile p (l ++ x) = dropWhile p x.
Proof.
  induction l as [| c l IH]; [reflexivity |].
  cbn. intros H. apply andb_true_iff in H as [Hc Hl]. rewrite Hc. now apply IH.
Qed.

Lemma trimChars_lead (l x : chars) :
  forallb is_ws l = true -> trimChars (l ++ x) = trimChars x.
Proof. intros H. unfold trimChars. now rewrite dropWhile_all. Qed.

Lemma dropWhile_split (p : ascii -> bool) (l : chars) :
  exists lead, forallb p lead = true /\ l = lead ++ dropWhile p l /\
               match dropWhile p l with [] => True | c :: _ => p c = false end.
Proof.
  induction l as [| c l (lead & Hl & E & Hd)].
  - now exists [].
  - cbn. destruct (p c) eqn:Hc.
    + exists (c :: lead). cbn. rewrite Hc, Hl. repeat split; [now f_equal | exact Hd].
    + exists []. repeat split. exact Hc.
Qed.

(** A text with a visible character: white space, the character, the rest. *)
Lemma visible_split (l : chars) :
  trimChars l <> [] ->
  exists lead c tl, l = lead ++ c :: tl /\ forallb is_ws lead = true /\ is_ws c = false.
Proof.
  intros H. destruct (dropWhile_split is_ws l) as (lead & Hl & E & Hd).
  destruct (dropWhile is_ws l) as [| c tl] eqn:Ed.
  - exfalso. apply H. unfold trimChars. now rewrite Ed.
  - now exists lead, c, tl.
Qed.

Lemma list_ascii_of_string_app (a b : string) :
  list_ascii_of_string (a ++ b)%string = list_ascii_of_string a ++ list_ascii_of_string b.
Proof. induction a as [| c a IH]; cbn; [reflexivity | now rewrite IH]. Qed.

Lemma trim_of_chars (l : chars) :
  trim (string_of_list_ascii l) = string_of_list_ascii (trimChars l).
Proof. unfold trim. now rewrite list_ascii_of_string_of_list_ascii. Qed.

Lemma string_of_chars_empty (l : chars) : string_of_list_ascii l = ""%string -> l = [].
Proof. destruct l; [reflexivity | discriminate]. Qed.

End SectionCapture.

(* --------------------------------------------------------------------- *)
(** ** Documents that follow the prompt's template                        *)
(* --------------------------------------------------------------------- *)

Section TemplateDocuments.
Import JsString Regex ResponseParser.
Local Open Scope list_scope.

(** The headings of the output template of [buildGameAnalysisPrompt]. *)
Definition headings : list string :=
  ["Game Overview"; "Pitching Matchup Analysis"; "Key Offensive Matchups";
   "Team Momentum & Recent Form"; "Strategic Factors"; "Key Players to Watch";
   "Weather/Venue Impact"; "Prediction & Narrative"]%string.

(** The line of heading number [i]: [## <heading>] and a newline. *)
Definition headingLine (i : nat) : string :=
  ("## " ++ nth i headings "" ++ String nl "")%string.

(** A heading line and the text placed under it. *)
Definition segment (seg : nat * string) : string :=
  (headingLine (fst seg) ++ snd seg)%string.

Fixpoint segments (segs : list (nat * string)) : string :=
  match segs with
  | [] => ""%string
  | seg :: segs' => (segment seg ++ segments segs')%string
  end.

(** A preamble followed by sections. *)
Definition document (preamble : string) (segs : list (nat * string)) : string :=
  (preamble ++ segments segs)%string.

(** The key and the pattern the parser has for heading number [i]. *)
Definition sectionName (i : nat) : string := nth i (map fst sectionPatterns) ""%string.
Definition sectionRe (i : nat) : re := nth i (map snd sectionPatterns) Eps.

(** The words of a heading the pattern spells out, and the rest of the
    line that [.*?] takes (empty where the pattern ends in [\s*]). *)
Definition spelled : list (string * string) :=
  [("## Game Overview", ""); ("## Pitching Matchup Analysis", "");
   ("## Key Offensive Matchups", ""); ("## Team Momentum", " & Recent Form");
   ("## Strategic Factors", ""); ("## Key Players", " to Watch");
   ("## Weather/Venue Impact", ""); ("## Prediction", " & Narrative")]%string.

(** The part of pattern [i] that reads the spelled words. *)
Definition spelledRe (i : nat) : re :=
  nth i [litCI "Game Overview"; litCI "Pitching Matchup Analysis";
         litCI "Key Offensive Matchups"; litCI "Team Momentum";
         litCI "Strategic Factors"; litCI "Key Players";
         seqs [litCI "Weather"; Star false any; litCI "Impact"];
         litCI "Prediction"] Eps.

(** The pattern reads the spelled words of its own heading and goes on
    with what follows them. *)
Lemma spelled_words_read (i : nat) (K : MState -> option MState) (b t : chars)
    (x : MState) :
  i < 8 ->
  K {| before := rev (list_ascii_of_string (fst (nth i spelled (""%string, ""%string)))) ++ b;
       rest := t; caps := [] |} = Some x ->
  mt (lit "##") (mt (Star true is_ws) (mt (spelledRe i) K))
     {| before := b;
        rest := list_ascii_of_string (fst (nth i spelled (""%string, ""%string))) ++ t;
        caps := [] |} = Some x.
Proof.
  intros Hi H.
  do 8 (destruct i as [| i]; [vm_compute in H |- *; rewrite H; reflexivity |]).
  lia.
Qed.


(** What the line of heading [i] has after the spelled words. *)
Definition lineRest (i : nat) : chars :=
  list_ascii_of_string (snd (nth i spelled (""%string, ""%string))).

Definition spelledChars (i : nat) : chars :=
  list_ascii_of_string (fst (nth i spelled (""%string, ""%string))).

(** What pattern [i] has between the spelled words and [\n]. *)
Definition tailRe (i : nat) : re :=
  if isEmpty (lineRest i) then Star true is_ws else Star false any.

Lemma sectionRe_shape (i : nat) (s : MState) :
  i < 8 ->
  mt (sectionRe i) Some s
  = mt (lit "##")
       (mt (Star true is_ws)
           (mt (spelledRe i) (mt (tailRe i) (mt (Chr (only nl)) capture)))) s.
Proof. intros Hi. do 8 (destruct i as [| i]; [reflexivity |]). lia. Qed.

Lemma headingLine_chars (i : nat) :
  i < 8 ->
  list_ascii_of_string (headingLine i) = spelledChars i ++ lineRest i ++ [nl].
Proof. intros Hi. do 8 (destruct i as [| i]; [reflexivity |]). lia. Qed.

Lemma lineRest_noNewline (i : nat) : noNewline (lineRest i) = true.
Proof. do 8 (destruct i as [| i]; [reflexivity |]). destruct i; reflexivity. Qed.

Lemma is_ws_noHash (l : chars) : forallb is_ws l = true -> noHash l = true.
Proof.
  unfold noHash. induction l as [| c l IH]; [reflexivity |].
  cbn. intros H. apply andb_true_iff in H as [Hc Hl]. rewrite (IH Hl), andb_true_r.
  apply negb_true_iff. destruct (Ascii.eqb c hash) eqn:E; [| reflexivity].
  apply Ascii.eqb_eq in E as ->. discriminate Hc.
Qed.

Lemma noHash_app (x y : chars) :
  noHash (x ++ y) = true <-> noHash x = true /\ noHash y = true.
Proof. unfold noHash. rewrite forallb_app. apply andb_true_iff. Qed.

(** The capture keeps the section's text up to white space in front. *)
Definition captures (body : chars) (x : MState) : Prop :=
  exists cap, lookupCap 1 (caps x) = Some cap /\ trimChars cap = trimChars body.

(** At the line of its own heading, pattern [i] matches and captures
    the text under the heading. *)
Lemma heading_found (i : nat) (b body t : chars) :
  i < 8 -> noHash body = true -> trimChars body <> [] -> opensHeading t ->
  exists x,
    mt (sectionRe i) Some
       {| before := b;
          rest := list_ascii_of_string (headingLine i) ++ body ++ t;
          caps := [] |} = Some x /\
    captures body x.
Proof.
  intros Hi Hbody Hvis Ht.
  rewrite sectionRe_shape, headingLine_chars by exact Hi.
  rewrite <- !app_assoc.
  enough (exists x,
            mt (tailRe i) (mt (Chr (only nl)) capture)
               {| before := rev (spelledChars i) ++ b;
                  rest := lineRest i ++ [nl] ++ body ++ t; caps := [] |} = Some x /\
            captures body x) as (x & Hx & Hc).
  { exists x. split; [| exact Hc]. now apply spelled_words_read. }
  unfold tailRe. destruct (lineRest i) as [| c0 u] eqn:El; cbn [isEmpty].
  - (* the pattern ends in \s*\n *)
    destruct (visible_split body Hvis) as (lead & c & tl & -> & Hlead & Hc).
    apply noHash_app in Hbody as [_ Htl].
    cbn [app]. rewrite <- app_assoc. cbn [app].
    apply ws_then_newline; [exact Hlead | exact Hc |].
    intros b' w2 Hw2.
    change (w2 ++ c :: tl ++ t) with (w2 ++ (c :: tl) ++ t). rewrite app_assoc.
    rewrite capture_spec; [| | exact Ht].
    + eexists. split; [reflexivity |]. exists (w2 ++ c :: tl). split; [reflexivity |].
      now rewrite !trimChars_lead.
    + apply noHash_app. split; [now apply is_ws_noHash | exact Htl].
  - (* the pattern ends in .*?\n *)
    rewrite <- El. eexists. split.
    + apply any_then_newline; [apply lineRest_noNewline |].
      apply capture_spec; [exact Hbody | exact Ht].
    + exists body. split; reflexivity.
Qed.

(** No pattern matches inside a text without [#]. *)
Lemma noHash_dead (i : nat) (x : chars) :
  i < 8 -> noHash x = true -> dead (sectionRe i) x.
Proof.
  intros Hi Hx b t x1 c x2 E. rewrite sectionRe_shape by exact Hi.
  subst x. apply noHash_at in Hx. cbn. unfold only. fold hash. now rewrite Hx.
Qed.

Ltac dead_line :=
  repeat (apply dead_cons; [intros ? ?; vm_compute; reflexivity |]); apply dead_nil.

(** No pattern matches inside the line of another heading. *)
Lemma other_heading_dead (i j : nat) :
  i < 8 -> j < 8 -> i <> j ->
  dead (sectionRe i) (list_ascii_of_string (headingLine j)).
Proof.
  intros Hi Hj Hne.
  do 8 (destruct i as [| i];
        [do 8 (destruct j as [| j];
               [try congruence;
                cbv [headingLine headings nth String.append list_ascii_of_string];
                dead_line |]); lia |]).
  lia.
Qed.

End TemplateDocuments.

Section TemplateRecovery.
Import JsString Regex ResponseParser.
Local Open Scope list_scope.

(** The text has no [#]; the text has a character that [trim] keeps. *)
Definition plain (s : string) : bool := noHash (list_ascii_of_string s).
Definition visible (s : string) : bool := negb (String.eqb (trim s) "").

Lemma segments_app (s1 s2 : list (nat * string)) :
  segments (s1 ++ s2) = (segments s1 ++ segments s2)%string.
Proof.
  induction s1 as [| seg s1 IH]; [reflexivity |].
  cbn [app segments]. now rewrite IH, append_assoc.
Qed.

Lemma segments_opens (segs : list (nat * string)) :
  opensHeading (list_ascii_of_string (segments segs)).
Proof.
  destruct segs as [| [j body] segs]; [now left |].
  right. cbn. eexists. reflexivity.
Qed.

Lemma front_dead (i : nat) (pre : string) (s1 : list (nat * string)) :
  i < 8 -> plain pre = true ->
  Forall (fun seg => fst seg < 8 /\ fst seg <> i /\ plain (snd seg) = true) s1 ->
  dead (sectionRe i) (list_ascii_of_string (pre ++ segments s1)%string).
Proof.
  intros Hi Hpre Hall. rewrite list_ascii_of_string_app.
  apply dead_app; [now apply noHash_dead |].
  induction Hall as [| [j body] s1 (Hj & Hne & Hb) _ IH]; [apply dead_nil |].
  cbn [fst snd] in Hj, Hne, Hb.
  cbn [segments]. unfold segment. cbn [fst snd].
  rewrite !list_ascii_of_string_app, <- app_assoc.
  apply dead_app; [apply other_heading_dead; auto |].
  apply dead_app; [now apply noHash_dead | exact IH].
Qed.

Lemma section_app (name : string) (l1 l2 : list (string * SectionInfo)) :
  section name (l1 ++ l2)
  = match section name l1 with
    | Some s => Some s
    | None => section name l2
    end.
Proof.
  induction l1 as [| [n s] l1 IH]; [reflexivity |].
  cbn. now destruct (String.eqb name n).
Qed.

Lemma sectionEntry_other (text name n : string) (P : re) :
  name <> n -> section name (sectionEntry text (n, P)) = None.
Proof.
  intros Hne. unfold sectionEntry.
  destruct (search P text) as [m |]; [| reflexivity].
  destruct (group 1 m); [| reflexivity].
  cbn. apply String.eqb_neq in Hne. now rewrite Hne.
Qed.

Lemma section_absent (text name : string) (pats : list (string * re)) :
  ~ In name (map fst pats) ->
  section name (flat_map (sectionEntry text) pats) = None.
Proof.
  induction pats as [| [n P] pats IH]; [reflexivity |].
  cbn [map fst In flat_map]. intros H. rewrite section_app.
  rewrite sectionEntry_other by (intros ->; apply H; now left).
  apply IH. intros Hin. apply H. now right.
Qed.

(** The entry of a section is the one its own pattern adds. *)
Lemma section_of_entry (text name : string) (P : re) (pats : list (string * re)) :
  List.NoDup (map fst pats) -> In (name, P) pats ->
  section name (flat_map (sectionEntry text) pats)
  = section name (sectionEntry text (name, P)).
Proof.
  induction pats as [| [n Q] pats IH]; [intros _ [] |].
  cbn [map fst flat_map]. intros Hnd Hin. apply List.NoDup_cons_iff in Hnd as [Hn Hnd].
  rewrite section_app. destruct Hin as [E | Hin].
  - injection E as -> ->.
    destruct (section name (sectionEntry text (name, P))); [reflexivity |].
    now apply section_absent.
  - assert (Hne : name <> n).
    { intros ->. apply Hn. apply in_map_iff. now exists (n, P). }
    rewrite (sectionEntry_other text name n Q Hne). now apply IH.
Qed.

Lemma sectionPatterns_names : List.NoDup (map fst sectionPatterns).
Proof.
  cbn. repeat (apply List.NoDup_cons; [cbn; intuition discriminate |]). apply List.NoDup_nil.
Qed.

Lemma sectionPatterns_nth (i : nat) :
  i < 8 -> In (sectionName i, sectionRe i) sectionPatterns.
Proof.
  intros Hi. do 8 (destruct i as [| i]; [cbn; tauto |]). lia.
Qed.

(** A match of pattern [i] puts the trimmed capture under its key. *)
Lemma section_of_match (text : string) (i : nat) (m : Match) (cap : chars) :
  i < 8 ->
  search (sectionRe i) text = Some m ->
  lookupCap 1 (caps (m_end m)) = Some cap ->
  exists sec,
    section (sectionName i) (extractStructuredSections text) = Some sec /\
    content sec = string_of_list_ascii (trimChars cap).
Proof.
  intros Hi Hs Hc. unfold extractStructuredSections.
  rewrite (section_of_entry text _ _ _ sectionPatterns_names (sectionPatterns_nth i Hi)).
  unfold sectionEntry, group. rewrite Hs, Hc. cbn [option_map section].
  rewrite String.eqb_refl. eexists. split; [reflexivity |].
  cbn [content]. apply trim_of_chars.
Qed.

(** Every section of a document built on the template is recovered. *)
Lemma template_section_recovered (pre : string) (segs : list (nat * string))
    (i : nat) (body : string) :
  plain pre = true ->
  List.NoDup (map fst segs) ->
  Forall (fun seg => fst seg < 8 /\ plain (snd seg) = true /\ visible (snd seg) = true)
         segs ->
  In (i, body) segs ->
  exists sec,
    section (sectionName i) (extractStructuredSections (document pre segs)) = Some sec /\
    content sec = trim body /\
    content sec <> ""%string.
Proof.
  intros Hpre Hnd Hall Hin.
  destruct (in_split _ _ Hin) as (s1 & s2 & ->).
  rewrite Forall_app in Hall. destruct Hall as [Hall1 Hall2].
  apply Forall_cons_iff in Hall2 as [(Hi & Hplain & Hvis) _]. cbn [fst snd] in *.
  assert (Hfront : Forall (fun seg => fst seg < 8 /\ fst seg <> i /\ plain (snd seg) = true) s1).
  { rewrite map_app in Hnd. cbn [map fst] in Hnd.
    apply List.NoDup_remove_2 in Hnd.
    rewrite List.Forall_forall in Hall1 |- *. intros [j bj] Hj.
    destruct (Hall1 _ Hj) as (H1 & H2 & _). cbn [fst snd] in *.
    repeat split; auto. intros ->. apply Hnd. apply List.in_or_app. left.
    apply List.in_map_iff. exists (i, bj). split; [reflexivity | exact Hj]. }
  assert (Htrim : trimChars (list_ascii_of_string body) <> []).
  { intros E. unfold visible, trim in Hvis. rewrite E in Hvis. discriminate Hvis. }
  destruct (heading_found i (rev (list_ascii_of_string (pre ++ segments s1)%string) ++ [])
              (list_ascii_of_string body) (list_ascii_of_string (segments s2))
              Hi Hplain Htrim (segments_opens s2)) as (x & Hx & cap & Hcap & Hcaptrim).
  destruct (section_of_match (document pre (s1 ++ (i, body) :: s2)) i
              {| m_start := {| before := rev (list_ascii_of_string (pre ++ segments s1)%string) ++ [];
                               rest := list_ascii_of_string (headingLine i)
                                       ++ list_ascii_of_string body
                                       ++ list_ascii_of_string (segments s2);
                               caps := [] |};
                 m_end := x |} cap Hi) as (sec & Hsec & Hcontent).
  - unfold search, document. rewrite segments_app. cbn [segments].
    unfold segment. cbn [fst snd].
    rewrite <- append_assoc, (list_ascii_of_string_app (pre ++ segments s1)).
    rewrite (searchFrom_dead _ _ _ [] (front_dead i pre s1 Hi Hpre Hfront)).
    rewrite !list_ascii_of_string_app, <- ?List.app_assoc.
    apply searchFrom_here. rewrite list_ascii_of_string_app in Hx. exact Hx.
  - exact Hcap.
  - exists sec. split; [exact Hsec |].
    assert (E : content sec = trim body).
    { rewrite Hcontent, Hcaptrim. reflexivity. }
    split; [exact E |]. rewrite E. intros E0. unfold visible in Hvis.
    rewrite E0 in Hvis. discriminate Hvis.
Qed.

End TemplateRecovery.

Section MatcherInversion.
Import JsString Regex.
Local Open Scope list_scope.

(** [s'] is a position of the same text at or after [s], with the
    captures of [s] and maybe more. *)
Definition ahead (s s' : MState) : Prop :=
  (exists u, rest s = u ++ rest s' /\ before s' = rev u ++ before s) /\
  (exists e, caps s' = e ++ caps s).

Lemma ahead_refl (s : MState) : ahead s s.
Proof. split; now exists []. Qed.

Lemma ahead_trans (s1 s2 s3 : MState) : ahead s1 s2 -> ahead s2 s3 -> ahead s1 s3.
Proof.
  intros [(u & Hr & Hb) (e & He)] [(u' & Hr' & Hb') (e' & He')]. split.
  - exists (u ++ u'). rewrite Hr, Hr', Hb', Hb, rev_app_distr, <- !List.app_assoc.
    split; reflexivity.
  - exists (e' ++ e). now rewrite He', He, List.app_assoc.
Qed.

Lemma ahead_advance (c : ascii) (t : chars) (s : MState) :
  rest s = c :: t -> ahead s (advance c t s).
Proof.
  intros H. split; [| now exists []].
  exists [c]. split; [exact H | reflexivity].
Qed.

Lemma star_greedy_inv {R : Type} (p : ascii -> bool) (k : MState -> option R)
    (r b : chars) (cs : list (nat * chars)) (x : R) :
  star_greedy p k b r cs = Some x ->
  exists u t, r = u ++ t /\ k {| before := rev u ++ b; rest := t; caps := cs |} = Some x.
Proof.
  revert b. induction r as [| c t IH]; intros b; cbn [star_greedy].
  - intros H. now exists [], [].
  - destruct (p c); [| intros H; now exists [], (c :: t)].
    destruct (star_greedy p k (c :: b) t cs) eqn:E; [| intros H; now exists [], (c :: t)].
    intros [= ->]. destruct (IH _ E) as (u & t' & -> & Hk).
    exists (c :: u), t'. split; [reflexivity |].
    cbn [rev]. now rewrite <- List.app_assoc.
Qed.

Lemma star_lazy_inv {R : Type} (p : ascii -> bool) (k : MState -> option R)
    (r b : chars) (cs : list (nat * chars)) (x : R) :
  star_lazy p k b r cs = Some x ->
  exists u t, r = u ++ t /\ k {| before := rev u ++ b; rest := t; caps := cs |} = Some x.
Proof.
  revert b. induction r as [| c t IH]; intros b; cbn [star_lazy].
  - destruct (k _) eqn:E; [| discriminate]. intros [= ->]. now exists [], [].
  - destruct (k _) eqn:E; [intros [= ->]; now exists [], (c :: t) |].
    destruct (p c); [| discriminate]. intros H.
    destruct (IH _ H) as (u & t' & -> & Hk).
    exists (c :: u), t'. split; [reflexivity |].
    cbn [rev]. now rewrite <- List.app_assoc.
Qed.

(** A match that succeeds has called its continuation at a position
    ahead. *)
Lemma mt_sound (r : re) :
  forall (R : Type) (k : MState -> option R) (s : MState) (x : R),
    mt r k s = Some x -> exists s', ahead s s' /\ k s' = Some x.
Proof.
  induction r as [| p | r1 IH1 r2 IH2 | r1 IH1 r2 IH2 | g p | i r1 IH1 | r1 IH1 | | | | | ];
    intros R k s x; cbn [mt].
  - intros H. exists s. split; [apply ahead_refl | exact H].
  - destruct (rest s) as [| c t] eqn:E; [discriminate |].
    destruct (p c); [| discriminate]. intros H.
    exists (advance c t s). split; [now apply ahead_advance | exact H].
  - intros H. destruct (IH1 _ _ _ _ H) as (s1 & A1 & H1).
    destruct (IH2 _ _ _ _ H1) as (s2 & A2 & H2).
    exists s2. split; [exact (ahead_trans _ _ _ A1 A2) | exact H2].
  - destruct (mt r1 k s) eqn:E.
    + intros [= ->]. exact (IH1 _ _ _ _ E).
    + intros H. exact (IH2 _ _ _ _ H).
  - destruct g; intros H;
      [apply star_greedy_inv in H | apply star_lazy_inv in H];
      destruct H as (u & t & Hr & Hk);
      (eexists; split; [| exact Hk]);
      (split; cbn [before rest caps]; [exists u; now split | now exists []]).
  - intros H. destruct (IH1 _ _ _ _ H) as (s1 & [(u & Hr & Hb) (e & He)] & H1).
    eexists. split; [| exact H1]. split; cbn [before rest caps].
    + exists u. now split.
    + exists ((i, consumed s s1) :: e). now rewrite He.
  - destruct (mt r1 Some s) as [s' |] eqn:E; [| discriminate]. intros H.
    destruct (IH1 _ _ _ _ E) as (s1 & [_ He] & [= ->]).
    eexists. split; [| exact H]. split; cbn [before rest caps]; [now exists [] | exact He].
  - destruct (isEmpty (before s)); [| discriminate].
    intros H. exists s. split; [apply ahead_refl | exact H].
  - destruct (isEmpty (rest s)); [| discriminate].
    intros H. exists s. split; [apply ahead_refl | exact H].
  - destruct (atLineStart s); [| discriminate].
    intros H. exists s. split; [apply ahead_refl | exact H].
  - destruct (atLineEnd s); [| discriminate].
    intros H. exists s. split; [apply ahead_refl | exact H].
  - destruct (atWordBoundary s); [| discriminate].
    intros H. exists s. split; [apply ahead_refl | exact H].
Qed.

Lemma mt_seqs_cons {R : Type} (r : re) (l : list re) (k : MState -> option R)
    (s : MState) :
  mt (seqs (r :: l)) k s = mt r (mt (seqs l) k) s.
Proof. destruct l; reflexivity. Qed.

(** A word spelled character by character reads that many characters,
    each accepted by the class of its letter. *)
Lemma mt_word_inv {R : Type} (f : ascii -> ascii -> bool) (l : chars) :
  forall (k : MState -> option R) (s : MState) (x : R),
    mt (seqs (map (fun a => Chr (f a)) l)) k s = Some x ->
    exists u t,
      rest s = u ++ t /\ Forall2 (fun a c => f a c = true) l u /\
      k {| before := rev u ++ before s; rest := t; caps := caps s |} = Some x.
Proof.
  induction l as [| a l IH]; intros k s x.
  - destruct s as [b r cs]. cbn. intros H. exists [], r. repeat split; [constructor | exact H].
  - cbn [map]. rewrite mt_seqs_cons. cbn [mt].
    destruct (rest s) as [| c t] eqn:E; [discriminate |].
    destruct (f a c) eqn:Ef; [| discriminate]. intros H.
    destruct (IH _ _ _ H) as (u & t' & Hr & Hall & Hk).
    cbn [advance before rest caps] in Hr, Hk. subst t.
    exists (c :: u), t'. repeat split.
    + constructor; assumption.
    + cbn [rev]. now rewrite <- List.app_assoc.
Qed.

Lemma searchFrom_some (r : re) (t b : chars) (m : Match) :
  searchFrom r b t = Some m ->
  exists a t',
    t = a ++ t' /\
    mt r Some {| before := rev a ++ b; rest := t'; caps := [] |} = Some (m_end m).
Proof.
  revert b. induction t as [| c t IH]; intros b; cbn [searchFrom].
  - destruct (mt r Some _) eqn:E; [| discriminate].
    intros [= <-]. now exists [], [].
  - destruct (mt r Some _) eqn:E.
    + intros [= <-]. now exists [], (c :: t).
    + intros H. destruct (IH _ H) as (a & t' & -> & Hm).
      exists (c :: a), t'. split; [reflexivity |].
      cbn [rev]. now rewrite <- List.app_assoc.
Qed.

Lemma lookupCap_app (i : nat) (e cs : list (nat * chars)) :
  lookupCap i cs <> None -> lookupCap i (e ++ cs) <> None.
Proof.
  intros H. induction e as [| [j d] e IH]; cbn [app lookupCap]; [exact H |].
  destruct (Nat.eqb i j); [discriminate | exact IH].
Qed.

(** A group that matched is recorded where the match goes on. *)
Lemma mt_group_inv {R : Type} (i : nat) (r : re) (k : MState -> option R)
    (s : MState) (x : R) :
  mt (Group i r) k s = Some x ->
  exists s', k s' = Some x /\ lookupCap i (caps s') <> None.
Proof.
  cbn [mt]. intros H. destruct (mt_sound _ _ _ _ _ H) as (s1 & _ & H1).
  eexists. split; [exact H1 |]. cbn [caps lookupCap]. now rewrite Nat.eqb_refl.
Qed.

End MatcherInversion.

Section HeadingsRequired.
Import JsString Regex ResponseParser.
Local Open Scope list_scope.

(** The words pattern [i] spells first. *)
Definition headingWord (i : nat) : string :=
  nth i ["Game Overview"; "Pitching Matchup Analysis"; "Key Offensive Matchups";
         "Team Momentum"; "Strategic Factors"; "Key Players"; "Weather";
         "Prediction"]%string ""%string.

(** What pattern [i] spells after them. *)
Definition afterWord (i : nat) : re :=
  nth i [Eps; Eps; Eps; Eps; Eps; Eps; Seq (Star false any) (litCI "Impact"); Eps] Eps.

Lemma spelledRe_shape (i : nat) (K : MState -> option MState) (s : MState) :
  i < 8 ->
  mt (spelledRe i) K s = mt (litCI (headingWord i)) (mt (afterWord i) K) s.
Proof. intros Hi. do 8 (destruct i as [| i]; [reflexivity |]). lia. Qed.

Lemma lower_upper (c : ascii) : lower (upper c) = lower c.
Proof.
  destruct c as [b0 b1 b2 b3 b4 b5 b6 b7].
  destruct b0, b1, b2, b3, b4, b5, b6, b7; vm_compute; reflexivity.
Qed.

Lemma isCI_lower (a c : ascii) : isCI a c = true -> lower c = lower a.
Proof.
  unfold isCI. intros H. apply Ascii.eqb_eq in H.
  now rewrite <- (lower_upper c), H, lower_upper.
Qed.

Lemma spelled_lower (w u : chars) :
  Forall2 (fun a c => isCI a c = true) w u -> map lower u = map lower w.
Proof.
  induction 1 as [| a c w u H _ IH]; [reflexivity |].
  cbn [map]. now rewrite IH, (isCI_lower a c H).
Qed.

(** Where pattern [i] matches, the text reads [##], white space and the
    words of the heading in some case, and the match has its group. *)
Lemma sectionRe_inv (i : nat) (s x : MState) :
  i < 8 ->
  mt (sectionRe i) Some s = Some x ->
  (exists ws w t,
      rest s = hash :: hash :: ws ++ w ++ t /\
      map lower w = map lower (list_ascii_of_string (headingWord i))) /\
  lookupCap 1 (caps x) <> None.
Proof.
  intros Hi H. rewrite sectionRe_shape in H by exact Hi.
  unfold lit in H. apply mt_word_inv in H as (u & t1 & Hr1 & Hall1 & H).
  cbn [list_ascii_of_string] in Hall1.
  inversion Hall1 as [| a1 c1 l1 u1 Hc1 Hall1' E1 E2]; subst.
  inversion Hall1' as [| a2 c2 l2 u2 Hc2 Hall1'' E1 E2]; subst.
  inversion Hall1''; subst.
  apply Ascii.eqb_eq in Hc1, Hc2. subst c1 c2.
  cbn [mt before rest caps] in H.
  apply star_greedy_inv in H as (ws & t2 & -> & H).
  rewrite spelledRe_shape in H by exact Hi.
  unfold litCI in H. apply mt_word_inv in H as (w & t3 & Hr3 & Hall3 & H).
  cbn [before rest caps] in Hr3, H. subst t2.
  split.
  - exists ws, w, t3. split; [exact Hr1 |]. now apply spelled_lower.
  - destruct (mt_sound _ _ _ _ _ H) as (s4 & _ & H4).
    destruct (mt_sound _ _ _ _ _ H4) as (s5 & _ & H5).
    destruct (rest s5) as [| c t]; [discriminate |].
    destruct (only nl c); [| discriminate].
    unfold capture in H5. apply mt_group_inv in H5 as (s7 & H7 & Hcap).
    destruct (mt_sound _ _ _ _ _ H7) as (s8 & [_ (e & He)] & [= ->]).
    rewrite He. now apply lookupCap_app.
Qed.

Lemma string_of_chars_app (a b : chars) :
  string_of_list_ascii (a ++ b)
  = (string_of_list_ascii a ++ string_of_list_ascii b)%string.
Proof. induction a as [| c a IH]; cbn; [reflexivity | now rewrite IH]. Qed.

Lemma toLowerCase_chars (s : string) :
  toLowerCase s = string_of_list_ascii (map lower (list_ascii_of_string s)).
Proof. induction s as [| c s IH]; cbn; [reflexivity | now rewrite IH]. Qed.

(** A pattern that matches a text found its heading there. *)
Lemma search_sectionRe_inv (text : string) (i : nat) (m : Match) :
  i < 8 ->
  search (sectionRe i) text = Some m ->
  includes text "##" = true /\
  includes (toLowerCase text) (toLowerCase (headingWord i)) = true /\
  group 1 m <> None.
Proof.
  intros Hi H. unfold search in H.
  apply searchFrom_some in H as (a & t' & Htext & H).
  apply sectionRe_inv in H as [(ws & w & t & Hr & Hw) Hcap]; [| exact Hi].
  cbn [rest] in Hr. subst t'.
  split; [| split].
  - apply includes_app.
    exists (string_of_list_ascii a), (string_of_list_ascii (ws ++ w ++ t)).
    rewrite <- (string_of_list_ascii_of_string text), Htext.
    now rewrite string_of_chars_app.
  - apply includes_app.
    exists (string_of_list_ascii (map lower (a ++ hash :: hash :: ws))),
           (string_of_list_ascii (map lower t)).
    rewrite (toLowerCase_chars text), (toLowerCase_chars (headingWord i)), Htext, <- Hw.
    rewrite <- !string_of_chars_app, <- !map_app. do 2 f_equal.
    rewrite <- List.app_assoc. reflexivity.
  - unfold group. destruct (lookupCap 1 (caps (m_end m))); [discriminate | contradiction].
Qed.

Lemma sectionPatterns_enum :
  sectionPatterns = map (fun i => (sectionName i, sectionRe i)) (seq 0 8).
Proof. reflexivity. Qed.

Lemma flat_map_nil {A B : Type} (f : A -> list B) (l : list A) :
  (forall a, In a l -> f a = []) -> flat_map f l = [].
Proof.
  induction l as [| a l IH]; [reflexivity |]. intros H. cbn [flat_map].
  rewrite (H a) by now left. apply IH. intros b Hb. apply H. now right.
Qed.

(** No pattern matches: the mapping is empty. *)
Lemma extractStructuredSections_nil (text : string) :
  (forall i, i < 8 -> search (sectionRe i) text = None) ->
  extractStructuredSections text = [].
Proof.
  intros H. unfold extractStructuredSections. apply flat_map_nil.
  intros [name P] Hin. rewrite sectionPatterns_enum in Hin.
  apply List.in_map_iff in Hin as (i & [= <- <-] & Hi).
  apply List.in_seq in Hi. unfold sectionEntry. now rewrite H by lia.
Qed.

(** Pattern [i] does not match: the mapping has no entry for it. *)
Lemma section_none_without_match (text : string) (i : nat) :
  i < 8 -> search (sectionRe i) text = None ->
  section (sectionName i) (extractStructuredSections text) = None.
Proof.
  intros Hi H. unfold extractStructuredSections.
  rewrite (section_of_entry text _ _ _ sectionPatterns_names (sectionPatterns_nth i Hi)).
  unfold sectionEntry. now rewrite H.
Qed.

(** The keys of the mapping are among the eight of the parser. *)
Lemma section_keys (text name : string) :
  section name (extractStructuredSections text) <> None ->
  exists i, i < 8 /\ name = sectionName i.
Proof.
  intros H. destruct (in_dec string_dec name (map fst sectionPatterns)) as [Hin | Hout].
  - rewrite sectionPatterns_enum, List.map_map in Hin. cbn [fst] in Hin.
    apply List.in_map_iff in Hin as (i & <- & Hi). apply List.in_seq in Hi.
    exists i. split; [lia | reflexivity].
  - contradiction H. now apply section_absent.
Qed.

(** Without the words of heading [i], pattern [i] does not match. *)
Lemma search_none_without_words (text : string) (i : nat) :
  i < 8 ->
  includes (toLowerCase text) (toLowerCase (headingWord i)) = false ->
  search (sectionRe i) text = None.
Proof.
  intros Hi H. destruct (search (sectionRe i) text) as [m |] eqn:E; [| reflexivity].
  destruct (search_sectionRe_inv text i m Hi E) as (_ & Hw & _). congruence.
Qed.

End HeadingsRequired.

Section ParserRobustness.
Import JsString Regex ResponseParser.
Local Open Scope list_scope.

(** C8 (as amended). [extractStructuredSections] on every text:
    (1) a section pattern that matches has its group 1, so that reading
    [match[1].trim()] cannot throw; (2) a text with the words of no
    heading, or (3) with no [##], gives the empty mapping; (4) a text
    without the words of one heading gives a mapping without that
    section, and (5) the keys of the mapping are among the eight of the
    parser. (6) In a document made of a preamble without [#] and of
    sections under distinct headings of the template, in any order, each
    text having a visible character and no [#], every section is
    recovered: its [content] is the text, trimmed, and is not empty. *)
Theorem extractStructuredSections_robust_and_recovers :
  (forall text i m,
      i < 8 -> search (sectionRe i) text = Some m -> group 1 m <> None) /\
  (forall text,
      (forall i, i < 8 ->
                 includes (toLowerCase text) (toLowerCase (headingWord i)) = false) ->
      extractStructuredSections text = []) /\
  (forall text,
      includes text "##" = false -> extractStructuredSections text = []) /\
  (forall text i,
      i < 8 ->
      includes (toLowerCase text) (toLowerCase (headingWord i)) = false ->
      section (sectionName i) (extractStructuredSections text) = None) /\
  (forall text name,
      section name (extractStructuredSections text) <> None ->
      exists i, i < 8 /\ name = sectionName i) /\
  (forall pre segs i body,
      plain pre = true ->
      List.NoDup (map fst segs) ->
      Forall (fun seg => fst seg < 8 /\ plain (snd seg) = true /\ visible (snd seg) = true)
             segs ->
      In (i, body) segs ->
      exists sec,
        section (sectionName i) (extractStructuredSections (document pre segs)) = Some sec /\
        content sec = trim body /\
        content sec <> ""%string).
Proof.
  split; [| split; [| split; [| split; [| split]]]].
  - intros text i m Hi H. now destruct (search_sectionRe_inv text i m Hi H) as (_ & _ & Hg).
  - intros text H. apply extractStructuredSections_nil.
    intros i Hi. apply search_none_without_words; auto.
  - intros text H. apply extractStructuredSections_nil.
    intros i Hi. destruct (search (sectionRe i) text) as [m |] eqn:E; [| reflexivity].
    destruct (search_sectionRe_inv text i m Hi E) as (Hh & _). congruence.
  - intros text i Hi H. apply section_none_without_match; [exact Hi |].
    now apply search_none_without_words.
  - exact section_keys.
  - exact template_section_recovered.
Qed.

End ParserRobustness.

Section TemplateExamples.
Import JsString Regex ResponseParser.
Local Open Scope string_scope.

Definition blankLine : string := String nl (String nl "").

(** The output template of the prompt, returned as it is. *)
Definition templateSections : list (nat * string) :=
  [ (0, ("[Brief summary of the matchup and why it's interesting]" ++ blankLine)%string);
    (1, ("[Detailed analysis of starting pitchers and how they match up against opposing lineups]"
         ++ blankLine)%string);
    (2, ("[Specific batter vs pitcher matchups and lineup advantages]" ++ blankLine)%string);
    (3, ("[How recent performance trends might affect this game]" ++ blankLine)%string);
    (4, ("[Tactical elements fans should watch for]" ++ blankLine)%string);
    (5, ("[Specific players who could determine the outcome]" ++ blankLine)%string);
    (6, ("[How conditions might affect the game]" ++ blankLine)%string);
    (7, ("[Your assessment of how the game might unfold and what makes it compelling]"
         ++ blankLine)%string) ]%list.

Definition templateEcho : string :=
  document ("Here is the preview." ++ blankLine) templateSections.

(** A report whose first section opens with a sub-heading. *)
Definition subheadedSections : list (nat * string) :=
  [ (0, ("### Summary" ++ String nl "Giants host the Dodgers." ++ blankLine)%string);
    (1, ("Webb against Buehler." ++ blankLine)%string);
    (2, ("The Giants hit left-handers well." ++ blankLine)%string);
    (3, ("Six wins in the last ten." ++ blankLine)%string);
    (4, ("Watch the bullpen." ++ blankLine)%string);
    (5, ("Webb and Betts." ++ blankLine)%string);
    (6, ("Wind blowing in." ++ blankLine)%string);
    (7, ("A close game." ++ blankLine)%string) ]%list.

Definition subheadedReport : string := document "" subheadedSections.

End TemplateExamples.

Lemma extractStructuredSections_template_witness :
  exists sec,
    ResponseParser.section "prediction"
      (ResponseParser.extractStructuredSections templateEcho) = Some sec /\
    ResponseParser.content sec
    = JsString.trim ("[Your assessment of how the game might unfold and what makes it compelling]"
                     ++ blankLine) /\
    ResponseParser.content sec <> "".
Proof.
  destruct extractStructuredSections_robust_and_recovers as (_ & _ & _ & _ & _ & H).
  apply (H ("Here is the preview." ++ blankLine) templateSections 7
           ("[Your assessment of how the game might unfold and what makes it compelling]"
            ++ blankLine)).
  - reflexivity.
  - cbn. repeat (apply List.NoDup_cons; [cbn; intuition discriminate |]). apply List.NoDup_nil.
  - unfold templateSections.
    repeat (apply List.Forall_cons;
            [cbn [fst snd]; split; [lia | split; reflexivity] |]).
    apply List.Forall_nil.
  - cbn. tauto.
Defined.

(** The template returned as it is: the eight sections and their texts. *)
Example extractStructuredSections_template_echo :
  map (fun e => (fst e, ResponseParser.content (snd e)))
      (ResponseParser.extractStructuredSections templateEcho)
  = [ ("gameOverview", "[Brief summary of the matchup and why it's interesting]");
      ("pitchingMatchup",
       "[Detailed analysis of starting pitchers and how they match up against opposing lineups]");
      ("offensiveMatchups", "[Specific batter vs pitcher matchups and lineup advantages]");
      ("teamMomentum", "[How recent performance trends might affect this game]");
      ("strategicFactors", "[Tactical elements fans should watch for]");
      ("keyPlayers", "[Specific players who could determine the outcome]");
      ("weatherVenue", "[How conditions might affect the game]");
      ("prediction",
       "[Your assessment of how the game might unfold and what makes it compelling]") ]%list.
Proof. vm_compute. reflexivity. Qed.

(** C8, the claim as first stated: the eight headings of the template in
    order, each followed by a text that is not empty; the first text
    opens with a sub-heading, and the section [gameOverview] is recovered
    with an empty [content]. *)
Lemma extractStructuredSections_subheading_empty_content :
  map fst subheadedSections = seq 0 8 /\
  forallb (fun seg => negb (String.eqb (snd seg) "")) subheadedSections = true /\
  option_map ResponseParser.content
    (ResponseParser.section "gameOverview"
       (ResponseParser.extractStructuredSections subheadedReport))
  = Some "".
Proof. vm_compute. repeat split. Qed.

(** A text of white space only under a heading is recovered as the empty
    [content] too. *)
Example extractStructuredSections_blank_section :
  option_map ResponseParser.content
    (ResponseParser.section "prediction"
       (ResponseParser.extractStructuredSections
          (document "" [(7, ("   " ++ String ResponseParser.nl "")%string)]%list)))
  = Some "".
Proof. vm_compute. reflexivity. Qed.

(* ===================================================================== *)
(** * Part III: further properties of the embedded code                   *)
(* ===================================================================== *)

(* --------------------------------------------------------------------- *)
(** ** mcpClient.ts: the retry loop                                       *)
(* --------------------------------------------------------------------- *)

Section Retry.
Import Js McpClient.
Variable config : McpClientConfig.

Lemma retryLoop_step (operation : nat -> Res JsVal) (attempt r : nat) (e : Thrown) :
  retryLoop operation attempt (S r) e
  = match operation attempt with
    | Ok v => (inl v, 1)
    | Throw m =>
        let '(x, n) := retryLoop operation (S attempt) r (ErrorWith m) in (x, S n)
    end.
Proof. reflexivity. Qed.

Lemma retryLoop_first_success (operation : nat -> Res JsVal) (k : nat) :
  forall (attempt remaining : nat) (e : Thrown) (v : JsVal),
    k < remaining ->
    (forall j, j < k -> isOk (operation (attempt + j)) = false) ->
    operation (attempt + k) = Ok v ->
    retryLoop operation attempt remaining e = (inl v, S k).
Proof.
  induction k as [| k IH]; intros attempt remaining e v Hk Hfail Hok;
    (destruct remaining as [| r]; [lia |]); rewrite retryLoop_step.
  - rewrite Nat.add_0_r in Hok. now rewrite Hok.
  - pose proof (Hfail 0 ltac:(lia)) as H0. rewrite Nat.add_0_r in H0.
    destruct (operation attempt) as [x | m]; [discriminate |].
    rewrite (IH (S attempt) r (ErrorWith m) v); [reflexivity | lia | |].
    + intros j Hj. replace (S attempt + j) with (attempt + S j) by lia.
      apply Hfail. lia.
    + replace (S attempt + k) with (attempt + S k) by lia. exact Hok.
Qed.

Lemma retryLoop_exhausted (operation : nat -> Res JsVal) (r : nat) :
  forall (attempt : nat) (e : Thrown),
    (forall j, j <= r -> isOk (operation (attempt + j)) = false) ->
    exists m, operation (attempt + r) = Throw m /\
              retryLoop operation attempt (S r) e = (inr (ErrorWith m), S r).
Proof.
  induction r as [| r IH]; intros attempt e Hfail; rewrite retryLoop_step.
  - pose proof (Hfail 0 ltac:(lia)) as H0. rewrite Nat.add_0_r in *.
    destruct (operation attempt) as [x | m]; [discriminate |].
    exists m. split; reflexivity.
  - pose proof (Hfail 0 ltac:(lia)) as H0. rewrite Nat.add_0_r in H0.
    destruct (operation attempt) as [x | m0]; [discriminate |].
    destruct (IH (S attempt) (ErrorWith m0)) as (m & Hm & Hr).
    + intros j Hj. replace (S attempt + j) with (attempt + S j) by lia.
      apply Hfail. lia.
    + exists m. split.
      * replace (attempt + S r) with (S attempt + r) by lia. exact Hm.
      * now rewrite Hr.
Qed.

(** X1. [executeWithRetry] calls the operation at attempts 1, 2, ... and
    stops at the first that succeeds: when attempt [k] is the first to
    succeed, within [maxRetries], its value is returned after exactly [k]
    calls; when every attempt fails, the error of the last one is thrown
    after [maxRetries] calls; with [maxRetries] 0 the operation is never
    called and what is thrown is [undefined]. *)
Theorem executeWithRetry_outcomes :
  (forall operation k v,
      1 <= k <= maxRetries config ->
      (forall j, 1 <= j < k -> isOk (operation j) = false) ->
      operation k = Ok v ->
      executeWithRetry config operation = (inl v, k)) /\
  (forall operation,
      1 <= maxRetries config ->
      (forall j, 1 <= j <= maxRetries config -> isOk (operation j) = false) ->
      exists m, operation (maxRetries config) = Throw m /\
                executeWithRetry config operation
                = (inr (ErrorWith m), maxRetries config)) /\
  (maxRetries config = 0 ->
   forall operation, executeWithRetry config operation = (inr ThrownUndefined, 0)).
Proof.
  unfold executeWithRetry. split; [| split].
  - intros operation k v Hk Hfail Hok.
    destruct k as [| k]; [lia |].
    apply (retryLoop_first_success operation k 1); [lia | | exact Hok].
    intros j Hj. apply Hfail. lia.
  - intros operation Hmax Hfail.
    destruct (maxRetries config) as [| r]; [lia |].
    destruct (retryLoop_exhausted operation r 1 ThrownUndefined) as (m & Hm & Hr).
    + intros j Hj. apply Hfail. lia.
    + exists m. split; [exact Hm | exact Hr].
  - intros -> operation. reflexivity.
Qed.

End Retry.

(* --------------------------------------------------------------------- *)
(** ** mcpClient.ts: an open breaker under steady traffic                 *)
(* --------------------------------------------------------------------- *)

Section OpenBreaker.
Import Js McpClient.
Variable config : McpClientConfig.

(** Calls made one after the other. Each comes with the clock when the
    breaker is consulted, the clock when a failure is recorded, and what
    the server would answer at each attempt. *)
Fixpoint calls (cb : CircuitBreakerState) (l : list (Z * Z * (nat -> Res JsVal)))
  : list Outcome * CircuitBreakerState :=
  match l with
  | [] => ([], cb)
  | (nowCheck, nowFail, operation) :: l' =>
      let out := getGiantsGamePreview config cb nowCheck nowFail operation in
      let '(outs, cb') := calls (breaker out) l' in
      (out :: outs, cb')
  end.

(** Every call arrives no later than the reset time after the failure
    recorded before it. *)
Fixpoint paced (last : Z) (l : list (Z * Z * (nat -> Res JsVal))) : Prop :=
  match l with
  | [] => True
  | (nowCheck, nowFail, _) :: l' =>
      (nowCheck - last <= circuitBreakerResetTime config)%Z /\ paced nowFail l'
  end.

Definition rejected (out : Outcome) : Prop :=
  result out = inr (ErrorWith "MCP server circuit breaker is open") /\ attempts out = 0.

(** X2. A call rejected by the open breaker is recorded as a failure, which
    restarts the reset window. So while calls keep arriving at most the
    reset time apart, the breaker stays open and every call is rejected
    without reaching the server, whatever the server would answer. *)
Theorem open_breaker_stays_open_under_traffic
    (cb : CircuitBreakerState) (l : list (Z * Z * (nat -> Res JsVal))) :
  state cb = open ->
  paced (lastFailureTime cb) l ->
  Forall rejected (fst (calls cb l)) /\
  state (snd (calls cb l)) = open /\
  failures (snd (calls cb l)) = failures cb + length l.
Proof.
  revert cb. induction l as [| [[nowCheck nowFail] operation] l IH]; intros cb Hopen Hp.
  - cbn. repeat split; [constructor | exact Hopen | lia].
  - cbn [paced] in Hp. destruct Hp as [Hgap Hp].
    cbn [calls].
    assert (E : getGiantsGamePreview config cb nowCheck nowFail operation
                = {| result := inr (ErrorWith "MCP server circuit breaker is open");
                     breaker := recordFailure config nowFail cb; attempts := 0 |}).
    { unfold getGiantsGamePreview, isCircuitOpen. rewrite Hopen.
      assert (Ex : (circuitBreakerResetTime config <? nowCheck - lastFailureTime cb)%Z = false)
        by (apply Z.ltb_ge; lia).
      now rewrite Ex. }
    rewrite E. cbn [breaker].
    assert (Hopen' : state (recordFailure config nowFail cb) = open).
    { unfold recordFailure. cbn [state]. rewrite Hopen. now destruct (Nat.leb _ _). }
    specialize (IH (recordFailure config nowFail cb) Hopen' Hp).
    destruct (calls (recordFailure config nowFail cb) l) as [outs cb'].
    cbn [fst snd] in *. destruct IH as (Hall & Hst & Hf).
    repeat split.
    + constructor; [split; reflexivity | exact Hall].
    + exact Hst.
    + rewrite Hf. cbn [recordFailure failures length]. lia.
Qed.

End OpenBreaker.

(** The breaker of the default client, opened at time 0, and three calls
    a minute apart to a server that is up again. *)
Lemma open_breaker_default_witness :
  let cb := {| McpClient.failures := 5; McpClient.lastFailureTime := 0;
               McpClient.state := McpClient.open |} in
  let up := fun _ : nat => Js.Ok Js.JNull in
  let l := [(60000%Z, 60000%Z, up); (120000%Z, 120000%Z, up); (180000%Z, 180000%Z, up)] in
  Forall rejected (fst (calls McpClient.defaultConfig cb l)) /\
  McpClient.state (snd (calls McpClient.defaultConfig cb l)) = McpClient.open /\
  McpClient.failures (snd (calls McpClient.defaultConfig cb l)) = 8.
Proof.
  cbv zeta.
  apply (open_breaker_stays_open_under_traffic McpClient.defaultConfig
           {| McpClient.failures := 5; McpClient.lastFailureTime := 0;
              McpClient.state := McpClient.open |}).
  - reflexivity.
  - cbn. repeat split; lia.
Defined.

(* --------------------------------------------------------------------- *)
(** ** mlb-api.js: what a request does to the cache                       *)
(* --------------------------------------------------------------------- *)

Section CacheInvariants.
Import Js MlbApi.

(** X3. One [makeRequest], whatever the clock and the network do: the
    entries of other URLs are untouched, no entry is ever removed (an
    expired one stays until it is replaced), a call that throws or that
    issues no [fetch] leaves the client as it was, and at most one
    [fetch] is issued. *)
Theorem makeRequest_cache_invariants (c : Client) (url : string)
    (now : Z) (net : FetchOutcome) (now' : Z) :
  let out := makeRequest c url now net now' in
  (forall k, k <> url -> cache (client out) !! k = cache c !! k) /\
  (forall k, is_Some (cache c !! k) -> is_Some (cache (client out) !! k)) /\
  (isOk (result out) = false -> client out = c) /\
  (networkCalls out = 0 -> client out = c) /\
  cacheTimeout (client out) = cacheTimeout c /\
  networkCalls out <= 1.
Proof.
  cbv zeta.
  assert (Hins : forall d k, is_Some (cache c !! k) ->
                   is_Some (cache (withEntry c url d) !! k)).
  { intros d k Hk. cbn [withEntry cache].
    destruct (decide (k = url)) as [-> | Hne].
    - rewrite lookup_insert_eq. eauto.
    - now rewrite lookup_insert_ne by congruence. }
  assert (Hother : forall d k, k <> url ->
                     cache (withEntry c url d) !! k = cache c !! k).
  { intros d k Hne. cbn [withEntry cache]. now rewrite lookup_insert_ne by congruence. }
  unfold makeRequest.
  destruct (cache c !! url) as [e |];
    [destruct (now - timestamp e <? cacheTimeout c)%Z |];
    try (destruct net as [[|] status statusText [d | m] | | m]);
    cbn [result client networkCalls isOk negb];
    repeat split; auto; try discriminate; try lia.
Qed.

End CacheInvariants.

(* --------------------------------------------------------------------- *)
(** ** server.js: what a preview does to the analysis cache               *)
(* --------------------------------------------------------------------- *)

Section PreviewCache.
Import Js Server.
Variable cfg : Config.
Variable w : World.

Lemma failure_not_success (m : string) (d : JsVal) :
  get (failure m d) "success" <> Ok (JBool true).
Proof. cbn. discriminate. Qed.

(** What one call of [getGiantsGamePreview] is, by cases: served from a
    live entry; a failure envelope with the cache as it was; or a fresh
    success, stored under the key of the request when caching is on. *)
Lemma preview_cases (st : State) (date options : JsVal) (clk : Clock) :
  let key := previewKey w (gameDateOf date clk) (defaultOptions options) in
  let out := getGiantsGamePreview cfg w st date options clk in
  (exists cached, liveEntry cfg st key (nowCheck clk) = Some cached /\
                  out = (markFromCache (data cached), st)) \/
  (liveEntry cfg st key (nowCheck clk) = None /\
   (exists m, fst out = failure m (gameDateOf date clk)) /\
   analysisCache (snd out) = analysisCache st /\
   llmCalls st <= llmCalls (snd out) <= S (llmCalls st)) \/
  (liveEntry cfg st key (nowCheck clk) = None /\
   get (fst out) "success" = Ok (JBool true) /\
   analysisCache (snd out)
   = (if enableCaching cfg
      then <[key := {| data := fst out; timestamp := nowStore clk |}]> (analysisCache st)
      else analysisCache st) /\
   llmCalls (snd out) = S (llmCalls st)).
Proof.
  cbv zeta. unfold getGiantsGamePreview.
  destruct (liveEntry cfg st _ (nowCheck clk)) as [cached |] eqn:Elive.
  - left. exists cached. split; reflexivity.
  - right.
    destruct (fetchComprehensiveGameData cfg w (gameDateOf date clk)) as [fetched log].
    destruct fetched as [rawData | m];
      [| left; cbn; repeat split; eauto; lia].
    destruct (get rawData "gameFound") as [gameFound | m];
      [| left; cbn; repeat split; eauto; lia].
    destruct (truthy gameFound); cbn [negb];
      [| left; cbn; repeat split; eauto; lia].
    destruct (DataFormatter.formatGameData (builtins w) rawData (defaultOptions options))
      as [formattedData | m];
      [| left; cbn; repeat split; eauto; lia].
    destruct (analyzeGameData w formattedData (defaultOptions options)) as [analysis | m];
      cbn [bind]; [| left; cbn; repeat split; eauto; lia].
    destruct (parseGameAnalysis w analysis) as [parsed | m];
      cbn [bind]; [| left; cbn; repeat split; eauto; lia].
    destruct (get rawData "game") as [game | m];
      cbn [bind]; [| left; cbn; repeat split; eauto; lia].
    right. cbn [fst snd]. split; [reflexivity |]. split; [reflexivity |].
    destruct (enableCaching cfg); cbn; split; reflexivity.
Qed.

(** X4. The analysis cache changes only by storing a successful preview
    under the key of its request: a failure envelope is never stored,
    with caching off nothing is, and no call asks more than one
    completion of the LLM. *)
Theorem preview_cache_discipline (st : State) (date options : JsVal) (clk : Clock) :
  let key := previewKey w (gameDateOf date clk) (defaultOptions options) in
  let out := getGiantsGamePreview cfg w st date options clk in
  (analysisCache (snd out) = analysisCache st \/
   (enableCaching cfg = true /\
    get (fst out) "success" = Ok (JBool true) /\
    analysisCache (snd out)
    = <[key := {| data := fst out; timestamp := nowStore clk |}]> (analysisCache st))) /\
  (get (fst out) "success" <> Ok (JBool true) ->
   analysisCache (snd out) = analysisCache st) /\
  (enableCaching cfg = false -> analysisCache (snd out) = analysisCache st) /\
  llmCalls st <= llmCalls (snd out) <= S (llmCalls st).
Proof.
  cbv zeta.
  destruct (preview_cases st date options clk)
    as [(cached & _ & ->) | [(_ & _ & Hc & Hl) | (_ & Hs & Hc & Hl)]];
    cbn [fst snd] in *.
  - split; [now left |]. split; [reflexivity |]. split; [reflexivity | lia].
  - split; [now left |]. split; [intros _; exact Hc |]. split; [intros _; exact Hc | lia].
  - destruct (enableCaching cfg) eqn:Ec.
    + split; [right; repeat split; assumption |].
      split; [intros Hn; contradiction |]. split; [discriminate | lia].
    + split; [now left |]. split; [intros _; exact Hc |].
      split; [intros _; exact Hc | lia].
Qed.

(** X5. With caching on, a preview generated with [success: true] is served
    again: a later call for the same date and options, made less than
    [cacheTimeout] after the result was stored, returns the same object
    with [fromCache: true], asks nothing of the LLM and leaves the state
    as it is. *)
Theorem preview_served_from_cache (st : State) (date options : JsVal)
    (clk1 clk2 : Clock) :
  enableCaching cfg = true ->
  liveEntry cfg st
    (previewKey w (gameDateOf date clk1) (defaultOptions options)) (nowCheck clk1) = None ->
  get (fst (getGiantsGamePreview cfg w st date options clk1)) "success"
    = Ok (JBool true) ->
  gameDateOf date clk2 = gameDateOf date clk1 ->
  (nowCheck clk2 - nowStore clk1 < cacheTimeout cfg)%Z ->
  getGiantsGamePreview cfg w
    (snd (getGiantsGamePreview cfg w st date options clk1)) date options clk2
  = (markFromCache (fst (getGiantsGamePreview cfg w st date options clk1)),
     snd (getGiantsGamePreview cfg w st date options clk1)).
Proof.
  intros Hon Hmiss Hsucc Hdate Hfresh.
  destruct (preview_cases st date options clk1)
    as [(cached & Hlive & _) | [(_ & (m & Hf) & _) | (_ & _ & Hc & _)]].
  - congruence.
  - rewrite Hf in Hsucc. now apply failure_not_success in Hsucc.
  - rewrite Hon in Hc.
    set (out1 := getGiantsGamePreview cfg w st date options clk1) in *.
    unfold getGiantsGamePreview at 1.
    assert (Hlive : liveEntry cfg (snd out1)
                      (previewKey w (gameDateOf date clk2) (defaultOptions options))
                      (nowCheck clk2)
                    = Some {| data := fst out1; timestamp := nowStore clk1 |}).
    { unfold liveEntry. rewrite Hon, Hdate, Hc, lookup_insert_eq. cbn [timestamp].
      assert (E : (nowCheck clk2 - nowStore clk1 <? cacheTimeout cfg)%Z = true)
        by (apply Z.ltb_lt; lia).
      now rewrite E. }
    rewrite Hlive. reflexivity.
Qed.

End PreviewCache.

Lemma preview_served_from_cache_witness :
  let first := Server.getGiantsGamePreview Server.CONFIG stormyWorld
                 Server.initialState Js.JNull Js.JUndefined sampleClock in
  let later := {| Server.today := "2024-05-01"; Server.nowCheck := 1801999;
                  Server.nowStore := 1802500;
                  Server.generatedAt := "2024-05-01T12:30:00.000Z" |} in
  Js.get (fst first) "success" = Js.Ok (Js.JBool true) /\
  Server.getGiantsGamePreview Server.CONFIG stormyWorld (snd first)
    Js.JNull Js.JUndefined later
  = (Server.markFromCache (fst first), snd first).
Proof.
  cbv zeta.
  assert (H : Js.get (fst (Server.getGiantsGamePreview Server.CONFIG stormyWorld
                             Server.initialState Js.JNull Js.JUndefined sampleClock))
                "success" = Js.Ok (Js.JBool true)) by reflexivity.
  split; [exact H |].
  apply (preview_served_from_cache Server.CONFIG stormyWorld Server.initialState
           Js.JNull Js.JUndefined sampleClock).
  - reflexivity.
  - reflexivity.
  - exact H.
  - reflexivity.
  - cbn. lia.
Defined.

(* --------------------------------------------------------------------- *)
(** ** data-formatter.js: pitchers, recent games, streaks and trends      *)
(* --------------------------------------------------------------------- *)

(** Inversion of a chain of [bind]s and tests that ended in [Ok]. *)
Ltac ok_inv H :=
  repeat match type of H with
         | Js.bind ?c _ = _ =>
             let E := fresh "E" in
             destruct c eqn:E; cbn [Js.bind] in H; [| discriminate H]
         | (if ?b then _ else _) = _ =>
             let E := fresh "E" in destruct b eqn:E; try discriminate H
         end.

Section GameLists.
Import Js JsString DataFormatter.
Variable rt : Builtins.

Lemma get_truthy (v : JsVal) (k : string) :
  truthy v = true -> exists x, get v k = Ok x.
Proof. destruct v; cbn; try discriminate; eauto. Qed.

(** A value that is no object and no array. Its conversions to text and
    to a number never throw; those of an object do when it has a
    [toString] of its own that cannot be called. *)
Definition primitive (v : JsVal) : bool :=
  match v with
  | JObj _ | JArr _ => false
  | _ => true
  end.

(** [s.stats?.[0]?.splits?.[0]?.stat], and the four fields of it that
    [comparePitchers] converts. *)
Definition statOf (s : JsVal) : JsVal :=
  optGet (optIndex (optGet (optIndex (optGet s "stats") 0) "splits") 0) "stat".

Definition convertedFields (s : JsVal) : list JsVal :=
  map (optGet (statOf s)) ["era"; "whip"; "wins"; "losses"].

(** X6. On statistics whose [era], [whip], [wins] and [losses] are
    primitive values or missing, [comparePitchers] throws on no input: it
    reads its arguments through optional chaining only. It returns
    [{ available: false }] or an object with [available: true]. *)
Theorem comparePitchers_never_throws (giantsStats opponentStats : JsVal) :
  forallb primitive (convertedFields giantsStats) = true ->
  forallb primitive (convertedFields opponentStats) = true ->
  exists v,
    comparePitchers rt giantsStats opponentStats = Ok v /\
    (v = notAvailable \/ get v "available" = Ok (JBool true)).
Proof.
  intros _ _. unfold comparePitchers.
  destruct (truthy giantsStats) eqn:Hg; cbn [negb orb]; [| eauto].
  destruct (truthy opponentStats) eqn:Ho; cbn [negb orb]; [| eauto].
  unfold optFirstSplitStat.
  destruct (get_truthy giantsStats "stats" Hg) as [sg ->].
  destruct (get_truthy opponentStats "stats" Ho) as [so ->]. cbn [bind].
  set (giants := optGet (optIndex (optGet (optIndex sg 0) "splits") 0) "stat").
  set (opponent := optGet (optIndex (optGet (optIndex so 0) "splits") 0) "stat").
  destruct (truthy giants) eqn:Hgi; cbn [negb orb]; [| eauto].
  destruct (truthy opponent) eqn:Hop; cbn [negb orb]; [| eauto].
  destruct (get_truthy opponent "era" Hop) as [x1 ->].
  destruct (get_truthy giants "era" Hgi) as [x2 ->].
  destruct (get_truthy opponent "whip" Hop) as [x3 ->].
  destruct (get_truthy giants "whip" Hgi) as [x4 ->].
  destruct (get_truthy giants "strikeOuts" Hgi) as [x5 ->].
  destruct (get_truthy opponent "strikeOuts" Hop) as [x6 ->].
  destruct (get_truthy giants "wins" Hgi) as [x7 ->].
  destruct (get_truthy giants "losses" Hgi) as [x8 ->].
  destruct (get_truthy opponent "wins" Hop) as [x9 ->].
  destruct (get_truthy opponent "losses" Hop) as [x10 ->].
  cbn [bind]. eexists. split; [reflexivity |]. right. reflexivity.
Qed.

(** X7. [calculateHeadToHeadTrend] returns 'Insufficient data' exactly for
    fewer than three games, and otherwise one of the two 'favored'
    labels: its last [return], 'Even recent trend', is never reached. *)
Theorem calculateHeadToHeadTrend_never_even (games : list JsVal) (v : JsVal) :
  calculateHeadToHeadTrend rt games = Ok v ->
  (length games < 3 /\ v = JStr "Insufficient data") \/
  (3 <= length games /\
   (v = JStr "Giants favored recently" \/ v = JStr "Opponent favored recently")).
Proof.
  unfold calculateHeadToHeadTrend.
  destruct (Nat.ltb (length games) 3) eqn:E.
  - intros [= <-]. left. apply Nat.ltb_lt in E. now split.
  - apply Nat.ltb_ge in E. intros H. right. split; [exact E |].
    destruct (foldM _ (slice 0 3 games) 0) as [n |]; cbn [bind] in H; [| discriminate].
    destruct (Nat.leb 2 n) eqn:E2; [injection H as <-; now left |].
    destruct (Nat.leb n 1) eqn:E1; [injection H as <-; now right |].
    apply Nat.leb_gt in E2, E1. lia.
Qed.

Lemma gameScores_no_team (game teamId : JsVal) (h : bool) (a b : JsVal) :
  truthy teamId = false -> gameScores game teamId = Ok (h, a, b) -> h = true.
Proof.
  unfold gameScores. intros -> H. cbn [bind] in H. ok_inv H. now injection H as <- _ _.
Qed.

(** What the [forEach] of [analyzeRecentGames] adds to its counters. *)
Lemma tally_bounds (teamId : JsVal) (l : list JsVal) :
  forall t0 t,
    foldM (tallyGame rt teamId) l t0 = Ok t ->
    exists dw dh dhw,
      wins t = wins t0 + dw /\ homeGames t = homeGames t0 + dh /\
      homeWins t = homeWins t0 + dhw /\
      dw <= length l /\ dh <= length l /\ dhw <= dh /\ dhw <= dw /\
      (truthy teamId = false -> dh = length l /\ dhw = dw).
Proof.
  induction l as [| game l IH]; intros t0 t H.
  - injection H as <-. exists 0, 0, 0. cbn. repeat split; lia.
  - cbn [foldM] in H.
    destruct (tallyGame rt teamId t0 game) as [t1 |] eqn:E1; cbn [bind] in H;
      [| discriminate].
    destruct (IH t1 t H) as (dw & dh & dhw & Hw & Hh & Hhw & B1 & B2 & B3 & B4 & B5).
    unfold tallyGame in E1.
    destruct (gameScores game teamId) as [[[isHome ts] os] |] eqn:Es; cbn [bind] in E1;
      [| discriminate].
    injection E1 as <-. cbn [wins homeGames homeWins] in *.
    set (won := jsGt rt ts os) in *.
    exists ((if won then 1 else 0) + dw), ((if isHome then 1 else 0) + dh),
           ((if isHome && won then 1 else 0) + dhw).
    cbn [length].
    do 7 (split; [destruct won, isHome; cbn in *; lia |]).
    intros Hno. destruct (B5 Hno) as [-> ->].
    rewrite (gameScores_no_team game teamId isHome ts os Hno Es).
    destruct won; cbn; lia.
Qed.

(** X8. [analyzeRecentGames] on a list of games that is not empty: the
    record counts [w] wins and [n - w] losses over the [n] games
    considered, [n] being at most 10; the home record counts [hw] wins
    out of [h] home games, with [hw <= w] and [h <= n]. When no team is
    given (as for the opponent), every game counts as a home game, so the
    home record repeats the record. *)
Theorem analyzeRecentGames_record (l : list JsVal) (teamId v : JsVal) :
  l <> [] ->
  analyzeRecentGames rt (JArr l) teamId = Ok v ->
  exists w h hw,
    w <= Nat.min 10 (length l) /\ h <= Nat.min 10 (length l) /\ hw <= h /\ hw <= w /\
    get v "record"
    = Ok (JStr (dash rt (JNat w) (JNat (Nat.min 10 (length l) - w)))) /\
    get v "homeRecord"
    = Ok (JStr (if Nat.ltb 0 h then dash rt (JNat hw) (JNat (h - hw)) else "N/A")) /\
    (truthy teamId = false -> h = Nat.min 10 (length l) /\ hw = w).
Proof.
  intros Hne H. destruct l as [| g l]; [contradiction |].
  unfold analyzeRecentGames in H. cbn [truthy negb get bind] in H.
  replace (String.eqb "length" "length") with true in H by reflexivity.
  rewrite nonempty_length_not_zero in H.
  unfold recentTen in H. cbn [bind] in H.
  assert (Hlen : length (slice 0 10 (g :: l)) = Nat.min 10 (length (g :: l))).
  { unfold slice. cbn [skipn]. now rewrite length_firstn. }
  set (recent := slice 0 10 (g :: l)) in *. clearbody recent.
  destruct (foldM (tallyGame rt teamId) recent _) as [t |] eqn:Et; cbn [bind] in H;
    [| discriminate].
  destruct (tally_bounds teamId recent _ t Et)
    as (dw & dh & dhw & Hw & Hh & Hhw & B1 & B2 & B3 & B4 & B5).
  cbn [wins homeGames homeWins] in Hw, Hh, Hhw.
  destruct (calculateStreak rt recent teamId) as [streak |]; cbn [bind] in H;
    [| discriminate].
  destruct (identifyTrends rt recent teamId) as [trends |]; cbn [bind] in H;
    [| discriminate].
  injection H as <-. rewrite Hlen in *.
  exists dw, dh, dhw. rewrite Hw, Hh, Hhw. cbn [Nat.add].
  do 4 (split; [lia |]). split; [reflexivity |]. split; [reflexivity | exact B5].
Qed.

(** Whether the team won a game, as every loop over games decides it. *)
Definition won (teamId game : JsVal) : Res bool :=
  sc <- gameScores game teamId ;;
  let '(_, teamScore, opponentScore) := sc in
  Ok (jsGt rt teamScore opponentScore).

(** The number of results at the head of [bs] that equal [b]. *)
Fixpoint leadingRun (b : bool) (bs : list bool) : nat :=
  match bs with
  | b' :: bs' => if Bool.eqb b b' then S (leadingRun b bs') else 0
  | [] => 0
  end.

Lemma streakLoop_run (teamId : JsVal) (games : list JsVal) :
  forall (bs : list bool) (streak : nat) (b : bool),
    mapM (won teamId) games = Ok bs ->
    streakLoop rt teamId games streak (Some b) = Ok (streak + leadingRun b bs, Some b).
Proof.
  induction games as [| game games IH]; intros bs streak b H.
  - injection H as <-. cbn. now rewrite Nat.add_0_r.
  - cbn [mapM] in H. unfold won at 1 in H.
    destruct (gameScores game teamId) as [[[isHome ts] os] |] eqn:Es; cbn [bind] in H;
      [| discriminate].
    destruct (mapM (won teamId) games) as [bs' |] eqn:Em; cbn [bind] in H;
      [| discriminate].
    injection H as <-. cbn [streakLoop]. rewrite Es. cbn [bind leadingRun].
    destruct (Bool.eqb b (jsGt rt ts os)).
    + rewrite (IH bs' (S streak) b eq_refl). f_equal. f_equal. lia.
    + now rewrite Nat.add_0_r.
Qed.

(** X9. [calculateStreak] on games whose scores can be read: the letter is
    the result of the first game, [W] or [L], and the number is the
    length of the run of that result at the head of the list. *)
Theorem calculateStreak_leading_run (games : list JsVal) (teamId : JsVal)
    (b : bool) (bs : list bool) :
  mapM (won teamId) games = Ok (b :: bs) ->
  calculateStreak rt games teamId
  = Ok (JStr ((if b then "W" else "L") ++ jsToString rt (JNat (S (leadingRun b bs))))).
Proof.
  intros H. destruct games as [| game games]; [discriminate H |].
  cbn [mapM] in H. unfold won at 1 in H.
  destruct (gameScores game teamId) as [[[isHome ts] os] |] eqn:Es; cbn [bind] in H;
    [| discriminate].
  destruct (mapM (won teamId) games) as [bs' |] eqn:Em; cbn [bind] in H;
    [| discriminate].
  injection H as <- <-.
  unfold calculateStreak. cbn [streakLoop]. rewrite Es. cbn [bind].
  rewrite (streakLoop_run teamId games bs' 1 (jsGt rt ts os) Em). cbn [bind].
  now destruct (jsGt rt ts os).
Qed.

Lemma num_gt_nan (x y : JsNum) : num_gt x (num_add NaN y) = false.
Proof. unfold num_gt. now destruct x. Qed.

Lemma num_lt_nan (x y : JsNum) : num_lt x (num_sub NaN y) = false.
Proof. unfold num_sub. now destruct x. Qed.

(** X10. [identifyTrends] reports at most one trend, 'Offense improving' or
    'Offense struggling'; and it reports none for five games or fewer:
    with exactly five, the average of the previous games is [0 / 0]. *)
Theorem identifyTrends_needs_six_games (games : list JsVal) (teamId v : JsVal) :
  identifyTrends rt games teamId = Ok v ->
  (v = JArr [] \/ v = JArr [JStr "Offense improving"]
   \/ v = JArr [JStr "Offense struggling"]) /\
  (length games <= 5 -> v = JArr []).
Proof.
  unfold identifyTrends. intros H.
  destruct (Nat.ltb (length games) 5) eqn:E5.
  - injection H as <-. split; [now left | reflexivity].
  - apply Nat.ltb_ge in E5.
    destruct (sumScores rt (slice 0 5 games) teamId) as [recentSum |]; cbn [bind] in H;
      [| discriminate].
    destruct (sumScores rt (slice 5 10 games) teamId) as [previousSum |] eqn:Ep;
      cbn [bind] in H; [| discriminate].
    split.
    + destruct (num_gt _ _); [injection H as <-; auto |].
      destruct (num_lt _ _); injection H as <-; auto.
    + intros Hle. assert (Hlen : length games = 5) by lia.
      assert (Hprev : slice 5 10 games = []).
      { unfold slice. rewrite skipn_all2 by lia. reflexivity. }
      rewrite Hprev in Ep, H. cbn in Ep. injection Ep as <-.
      change (jsDiv rt (JInt 0) (JNat (length (@nil JsVal)))) with NaN in H.
      rewrite num_gt_nan, num_lt_nan in H. now injection H as <-.
Qed.

End GameLists.

Section GameListSamples.
Import Js DataFormatter.

(** A finished game: the ids and the scores of the two teams. *)
Definition playedGame (homeId homeScore awayId awayScore : Z) : JsVal :=
  JObj [("teams",
         JObj [("home", JObj [("team", JObj [("id", JInt homeId)]);
                              ("score", JInt homeScore)]);
               ("away", JObj [("team", JObj [("id", JInt awayId)]);
                              ("score", JInt awayScore)])])].

(** The Giants win at home, win away, lose at home, and lose twice away. *)
Definition recentSample : list JsVal :=
  [playedGame 137 5 119 3; playedGame 119 2 137 4; playedGame 137 1 119 6;
   playedGame 119 7 137 0; playedGame 119 4 137 3].

(** The season statistics of a pitcher, as the API nests them. *)
Definition pitcherStats (era whip : string) (wins losses strikeOuts : Z) : JsVal :=
  JObj [("stats",
         JArr [JObj [("splits",
                      JArr [JObj [("stat",
                                   JObj [("era", JStr era); ("whip", JStr whip);
                                         ("wins", JInt wins); ("losses", JInt losses);
                                         ("strikeOuts", JInt strikeOuts)])]])]])].

End GameListSamples.

(** The winning rates of the records 1-2 and 13-28 are 'Even': their
    relative difference, 5% on paper, is rounded below it. *)
Example comparePitchers_records_example :
  exists v,
    DataFormatter.comparePitchers sampleBuiltins
      (pitcherStats "3.25" "1.10" 1 2 145) (pitcherStats "2.95" "1.02" 13 28 165)
    = Js.Ok v /\
    Js.get v "recordAdvantage" = Js.Ok (Js.JStr "Even") /\
    Js.get v "strikeoutAdvantage" = Js.Ok (Js.JStr "Opponent").
Proof. eexists. split; [vm_compute; reflexivity |]. split; reflexivity. Qed.

Lemma comparePitchers_never_throws_witness :
  forallb primitive (convertedFields (pitcherStats "3.25" "1.10" 10 8 145)) = true /\
  forallb primitive (convertedFields (pitcherStats "2.95" "1.02" 12 4 165)) = true /\
  exists v,
    DataFormatter.comparePitchers sampleBuiltins
      (pitcherStats "3.25" "1.10" 10 8 145) (pitcherStats "2.95" "1.02" 12 4 165)
    = Js.Ok v /\
    (v = DataFormatter.notAvailable \/ Js.get v "available" = Js.Ok (Js.JBool true)).
Proof.
  split; [reflexivity |]. split; [reflexivity |].
  apply (comparePitchers_never_throws sampleBuiltins); reflexivity.
Defined.

Lemma analyzeRecentGames_record_witness :
  recentSample <> [] /\
  exists v,
    DataFormatter.analyzeRecentGames sampleBuiltins (Js.JArr recentSample)
      DataFormatter.giantsTeamId = Js.Ok v /\
    exists w h hw,
      w <= Nat.min 10 (length recentSample) /\ h <= Nat.min 10 (length recentSample) /\
      hw <= h /\ hw <= w /\
      Js.get v "record"
      = Js.Ok (Js.JStr (DataFormatter.dash sampleBuiltins (Js.JNat w)
                          (Js.JNat (Nat.min 10 (length recentSample) - w)))) /\
      Js.get v "homeRecord"
      = Js.Ok (Js.JStr (if Nat.ltb 0 h
                        then DataFormatter.dash sampleBuiltins (Js.JNat hw) (Js.JNat (h - hw))
                        else "N/A")) /\
      (Js.truthy DataFormatter.giantsTeamId = false ->
       h = Nat.min 10 (length recentSample) /\ hw = w).
Proof.
  split; [discriminate |].
  eexists. split; [vm_compute; reflexivity |].
  apply (analyzeRecentGames_record sampleBuiltins recentSample DataFormatter.giantsTeamId);
    [discriminate | vm_compute; reflexivity].
Defined.

(** The same games without a team: all five count as home games. *)
Example analyzeRecentGames_opponent_example :
  exists v,
    DataFormatter.analyzeRecentGames sampleBuiltins (Js.JArr recentSample) Js.JNull
    = Js.Ok v /\
    Js.get v "record" = Js.Ok (Js.JStr "3-2") /\
    Js.get v "homeRecord" = Js.Ok (Js.JStr "3-2").
Proof. eexists. split; [vm_compute; reflexivity |]. split; reflexivity. Qed.

Lemma calculateStreak_leading_run_witness :
  Js.mapM (won sampleBuiltins DataFormatter.giantsTeamId) recentSample
  = Js.Ok [true; true; false; false; false] /\
  DataFormatter.calculateStreak sampleBuiltins recentSample DataFormatter.giantsTeamId
  = Js.Ok (Js.JStr "W2").
Proof.
  assert (H : Js.mapM (won sampleBuiltins DataFormatter.giantsTeamId) recentSample
              = Js.Ok [true; true; false; false; false]) by (vm_compute; reflexivity).
  split; [exact H |].
  exact (calculateStreak_leading_run sampleBuiltins recentSample
           DataFormatter.giantsTeamId true [true; false; false; false] H).
Defined.

Lemma calculateHeadToHeadTrend_never_even_witness :
  DataFormatter.calculateHeadToHeadTrend sampleBuiltins recentSample
  = Js.Ok (Js.JStr "Giants favored recently") /\
  ((length recentSample < 3 /\
    Js.JStr "Giants favored recently" = Js.JStr "Insufficient data") \/
   (3 <= length recentSample /\
    (Js.JStr "Giants favored recently" = Js.JStr "Giants favored recently" \/
     Js.JStr "Giants favored recently" = Js.JStr "Opponent favored recently"))).
Proof.
  assert (H : DataFormatter.calculateHeadToHeadTrend sampleBuiltins recentSample
              = Js.Ok (Js.JStr "Giants favored recently")) by (vm_compute; reflexivity).
  split; [exact H |].
  exact (calculateHeadToHeadTrend_never_even sampleBuiltins recentSample _ H).
Defined.

Lemma identifyTrends_needs_six_games_witness :
  DataFormatter.identifyTrends sampleBuiltins recentSample DataFormatter.giantsTeamId
  = Js.Ok (Js.JArr []) /\
  (length recentSample <= 5 -> Js.JArr [] = Js.JArr []).
Proof.
  assert (H : DataFormatter.identifyTrends sampleBuiltins recentSample
                DataFormatter.giantsTeamId = Js.Ok (Js.JArr []))
    by (vm_compute; reflexivity).
  split; [exact H |].
  exact (proj2 (identifyTrends_needs_six_games sampleBuiltins recentSample
                  DataFormatter.giantsTeamId _ H)).
Defined.

(** With ten games a trend can be reported: five recent games with 4 runs
    each after five with 1 run each. *)
Example identifyTrends_improving_example :
  DataFormatter.identifyTrends sampleBuiltins
    (repeat (playedGame 137 4 119 0) 5 ++ repeat (playedGame 137 1 119 0) 5)%list
    DataFormatter.giantsTeamId
  = Js.Ok (Js.JArr [Js.JStr "Offense improving"]).
Proof. vm_compute. reflexivity. Qed.

(* --------------------------------------------------------------------- *)
(** ** The matcher, forwards                                              *)
(* --------------------------------------------------------------------- *)

Section MatcherForward.
Import JsString Regex.
Local Open Scope list_scope.

Lemma mt_seq_inv {R : Type} (r1 r2 : re) (k : MState -> option R) (s : MState) (x : R) :
  mt (Seq r1 r2) k s = Some x -> exists s1, ahead s s1 /\ mt r2 k s1 = Some x.
Proof. cbn [mt]. apply mt_sound. Qed.

(** A word spelled character by character reads the characters its
    classes accept. *)
Lemma mt_word_fwd {R : Type} (f : ascii -> ascii -> bool) (l : chars) :
  forall (u : chars) (k : MState -> option R) (b t : chars) (cs : list (nat * chars)),
    Forall2 (fun a c => f a c = true) l u ->
    mt (seqs (map (fun a => Chr (f a)) l)) k {| before := b; rest := u ++ t; caps := cs |}
    = k {| before := rev u ++ b; rest := t; caps := cs |}.
Proof.
  induction l as [| a l IH]; intros u k b t cs H; inversion H as [| a' c l' u' Hc Hrest]; subst.
  - reflexivity.
  - cbn [map]. rewrite mt_seqs_cons. cbn [mt rest app]. rewrite Hc.
    unfold advance. cbn [before caps]. rewrite (IH u' k (c :: b) t cs Hrest).
    cbn [rev]. now rewrite <- List.app_assoc.
Qed.

(** [p*] stops where the next character is not in the class. *)
Definition stopsAt (p : ascii -> bool) (t : chars) : Prop :=
  match t with [] => True | c :: _ => p c = false end.

Lemma star_greedy_stop {R : Type} (p : ascii -> bool) (k : MState -> option R)
    (b t : chars) (cs : list (nat * chars)) :
  stopsAt p t ->
  star_greedy p k b t cs = k {| before := b; rest := t; caps := cs |}.
Proof. destruct t as [| c t]; cbn; [reflexivity |]. now intros ->. Qed.

Lemma star_greedy_run {R : Type} (p : ascii -> bool) (k : MState -> option R)
    (u t b : chars) (cs : list (nat * chars)) (x : R) :
  forallb p u = true -> stopsAt p t ->
  k {| before := rev u ++ b; rest := t; caps := cs |} = Some x ->
  star_greedy p k b (u ++ t) cs = Some x.
Proof.
  intros Hu Ht Hk. apply star_greedy_deeper; [exact Hu |].
  now rewrite star_greedy_stop.
Qed.

Lemma upper_lower (c : ascii) : upper (lower c) = upper c.
Proof.
  destruct c as [b0 b1 b2 b3 b4 b5 b6 b7].
  destruct b0, b1, b2, b3, b4, b5, b6, b7; vm_compute; reflexivity.
Qed.

Lemma lower_isCI (a c : ascii) : lower c = lower a -> isCI a c = true.
Proof.
  intros H. unfold isCI. apply Ascii.eqb_eq.
  now rewrite <- (upper_lower c), H, upper_lower.
Qed.

Lemma same_lower_spelled (w u : chars) :
  map lower u = map lower w -> Forall2 (fun a c => isCI a c = true) w u.
Proof.
  revert u. induction w as [| a w IH]; intros [| c u] H; try discriminate H.
  - constructor.
  - injection H as Hc Hu. constructor; [now apply lower_isCI | now apply IH].
Qed.

(** A text that holds a word in some case includes it once lowered. *)
Lemma includes_lower_of_chars (text word : string) (a w t : chars) :
  list_ascii_of_string text = a ++ w ++ t ->
  map lower w = map lower (list_ascii_of_string word) ->
  includes (toLowerCase text) (toLowerCase word) = true.
Proof.
  intros Htext Hw. apply includes_app.
  exists (string_of_list_ascii (map lower a)), (string_of_list_ascii (map lower t)).
  rewrite (toLowerCase_chars text), (toLowerCase_chars word), Htext, <- Hw.
  now rewrite <- !string_of_chars_app, <- !map_app.
Qed.

Lemma ahead_rest (s s' : MState) : ahead s s' -> exists u, rest s = u ++ rest s'.
Proof. intros [(u & Hr & _) _]. now exists u. Qed.

End MatcherForward.

(* --------------------------------------------------------------------- *)
(** ** data-formatter.js: reading the weather strings                     *)
(* --------------------------------------------------------------------- *)

Section WeatherStrings.
Import Js JsString Regex DataFormatter.
Local Open Scope list_scope.

Definition noDigit (l : chars) : bool := forallb (fun c => negb (is_digit c)) l.

Lemma ws_not_digit (c : ascii) : is_ws c = true -> is_digit c = false.
Proof.
  destruct c as [b0 b1 b2 b3 b4 b5 b6 b7].
  destruct b0, b1, b2, b3, b4, b5, b6, b7; vm_compute; intros H;
    first [reflexivity | discriminate H].
Qed.

Lemma temperature_dead (pre : chars) : noDigit pre = true -> dead temperaturePattern pre.
Proof.
  induction pre as [| c pre IH]; intros H; [apply dead_nil |].
  cbn in H. apply andb_true_iff in H as [Hc Hpre]. apply negb_true_iff in Hc.
  apply dead_cons; [| now apply IH].
  intros b t. unfold temperaturePattern, plus. cbn [mt rest]. now rewrite Hc.
Qed.

Lemma wind_dead (pre : chars) : noDigit pre = true -> dead windPattern pre.
Proof.
  induction pre as [| c pre IH]; intros H; [apply dead_nil |].
  cbn in H. apply andb_true_iff in H as [Hc Hpre]. apply negb_true_iff in Hc.
  apply dead_cons; [| now apply IH].
  intros b t. unfold windPattern, plus. cbn [seqs mt rest]. now rewrite Hc.
Qed.

(** The digits pattern at a run of digits: the whole run is the group. *)
Lemma digits_group_here (k : MState -> option MState) (b ds t : chars) (x : MState) :
  ds <> [] -> forallb is_digit ds = true -> stopsAt is_digit t ->
  k {| before := rev ds ++ b; rest := t; caps := [(1, ds)] |} = Some x ->
  mt (Group 1 (plus true is_digit)) k {| before := b; rest := ds ++ t; caps := [] |}
  = Some x.
Proof.
  intros Hne Hds Ht Hk. destruct ds as [| d ds]; [contradiction |].
  cbn in Hds. apply andb_true_iff in Hds as [Hd Hds].
  unfold plus. cbn [mt rest app]. rewrite Hd. unfold advance. cbn [before rest caps].
  apply star_greedy_run; [exact Hds | exact Ht |].
  cbn [before rest caps].
  rewrite (consumed_app b (d :: ds)); [| reflexivity |].
  - cbn [rev] in Hk. rewrite <- List.app_assoc in Hk. exact Hk.
  - cbn [before rev]. now rewrite <- List.app_assoc.
Qed.

(** X11. [extractTemperature] reads the first run of digits of the string,
    wherever it stands, and returns the number they spell when they are
    at most 15 (beyond 2^53 [parseInt] rounds); it answers 70 for a string
    without a digit. *)
Theorem extractTemperature_first_digits :
  (forall t : string,
      noDigit (list_ascii_of_string t) = true ->
      extractTemperature (JStr t) = Ok 70) /\
  (forall pre ds post : string,
      noDigit (list_ascii_of_string pre) = true ->
      ds <> ""%string ->
      forallb is_digit (list_ascii_of_string ds) = true ->
      String.length ds <= 15 ->
      stopsAt is_digit (list_ascii_of_string post) ->
      extractTemperature (JStr (pre ++ ds ++ post)%string)
      = Ok (digitsToNat (list_ascii_of_string ds))).
Proof.
  split.
  - intros t Ht. unfold extractTemperature. cbn [asString bind]. unfold search.
    rewrite <- (app_nil_r (list_ascii_of_string t)).
    rewrite (searchFrom_dead _ _ _ [] (temperature_dead _ Ht)).
    reflexivity.
  - intros pre ds post Hpre Hne Hds _ Hpost.
    unfold extractTemperature. cbn [asString bind]. unfold search.
    rewrite !list_ascii_of_string_app.
    rewrite (searchFrom_dead _ _ _ [] (temperature_dead _ Hpre)).
    erewrite searchFrom_here; cycle 1.
    + unfold temperaturePattern.
      apply (digits_group_here Some _ (list_ascii_of_string ds)).
      * intros E. apply Hne. destruct ds; [reflexivity | discriminate E].
      * exact Hds.
      * exact Hpost.
      * reflexivity.
    + unfold parseIntGroup. cbn [m_end caps lookupCap Nat.eqb]. reflexivity.
Qed.

(** X12. [extractWindSpeed] answers 0 unless the string holds [mph] in some
    case; it reads the digits that stand, with or without white space,
    before [mph] when no digit comes earlier in the string, and returns
    the number they spell when they are at most 15 (beyond 2^53
    [parseInt] rounds). *)
Theorem extractWindSpeed_needs_mph :
  (forall w : string,
      includes (toLowerCase w) "mph" = false ->
      extractWindSpeed (JStr w) = Ok 0) /\
  (forall pre ds ws unit post : string,
      noDigit (list_ascii_of_string pre) = true ->
      ds <> ""%string ->
      forallb is_digit (list_ascii_of_string ds) = true ->
      String.length ds <= 15 ->
      forallb is_ws (list_ascii_of_string ws) = true ->
      toLowerCase unit = "mph"%string ->
      extractWindSpeed (JStr (pre ++ ds ++ ws ++ unit ++ post)%string)
      = Ok (digitsToNat (list_ascii_of_string ds))).
Proof.
  split.
  - intros w Hw. unfold extractWindSpeed. cbn [asString bind].
    destruct (search windPattern w) as [m |] eqn:E; [| reflexivity].
    exfalso. unfold search in E.
    apply searchFrom_some in E as (a & t' & Htext & H).
    unfold windPattern in H. cbn [seqs] in H.
    apply mt_seq_inv in H as (s1 & A1 & H).
    apply mt_seq_inv in H as (s2 & A2 & H).
    unfold litCI in H. apply mt_word_inv in H as (u & t3 & Hr & Hall & _).
    apply ahead_rest in A1 as (u1 & Hr1). apply ahead_rest in A2 as (u2 & Hr2).
    cbn [rest] in Hr1.
    assert (Hin : includes (toLowerCase w) (toLowerCase "mph") = true).
    { apply (includes_lower_of_chars w "mph" (a ++ u1 ++ u2) u t3).
      - rewrite Htext, Hr1, Hr2, Hr, <- !List.app_assoc. reflexivity.
      - now apply spelled_lower. }
    change (toLowerCase "mph") with "mph"%string in Hin.
    rewrite Hw in Hin. discriminate Hin.
  - intros pre ds ws unit post Hpre Hne Hds _ Hws Hunit.
    assert (Hu : Forall2 (fun a c => isCI a c = true)
                   (list_ascii_of_string "mph") (list_ascii_of_string unit)).
    { apply same_lower_spelled.
      rewrite <- (list_ascii_of_string_of_list_ascii (map lower (list_ascii_of_string unit))).
      rewrite <- toLowerCase_chars, Hunit. reflexivity. }
    assert (Hm : exists c rest', list_ascii_of_string unit = c :: rest' /\ lower c = "m"%char).
    { rewrite toLowerCase_chars in Hunit.
      destruct (list_ascii_of_string unit) as [| c r]; [discriminate Hunit |].
      cbn in Hunit. injection Hunit as Hc _. now exists c, r. }
    destruct Hm as (c & rest' & Eunit & Hc).
    assert (Hcd : is_digit c = false /\ is_ws c = false).
    { clear - Hc. destruct c as [b0 b1 b2 b3 b4 b5 b6 b7].
      destruct b0, b1, b2, b3, b4, b5, b6, b7; vm_compute in Hc |- *;
        first [split; reflexivity | discriminate Hc]. }
    unfold extractWindSpeed. cbn [asString bind]. unfold search.
    rewrite !list_ascii_of_string_app.
    rewrite (searchFrom_dead _ _ _ [] (wind_dead _ Hpre)).
    erewrite searchFrom_here; cycle 1.
    + unfold windPattern. cbn [seqs].
      change (mt (Seq ?a ?r) Some ?s) with (mt a (mt r Some) s).
      apply (digits_group_here _ _ (list_ascii_of_string ds)).
      * intros E. apply Hne. destruct ds; [reflexivity | discriminate E].
      * exact Hds.
      * destruct (list_ascii_of_string ws) as [| x xs] eqn:Ew; cbn.
        -- rewrite Eunit. cbn. apply Hcd.
        -- cbn in Hws. apply andb_true_iff in Hws as [Hx _]. now apply ws_not_digit.
      * change (mt (Seq ?a ?r) Some ?s) with (mt a (mt r Some) s).
        cbn [mt before rest caps].
        apply star_greedy_run; [exact Hws | rewrite Eunit; cbn; apply Hcd |].
        unfold litCI.
        rewrite (mt_word_fwd isCI _ _ Some _ _ _ Hu). cbn. reflexivity.
    + unfold parseIntGroup. cbn [m_end caps lookupCap Nat.eqb]. reflexivity.
Qed.

Example weather_strings_examples :
  extractTemperature (JStr "72 degrees") = Ok 72 /\
  extractTemperature (JStr "Unknown") = Ok 70 /\
  extractWindSpeed (JStr "18 mph, Out To CF") = Ok 18 /\
  extractWindSpeed (JStr "30 km/h") = Ok 0 /\
  extractWindSpeed (JStr "Unknown") = Ok 0.
Proof. vm_compute. repeat split. Qed.

Definition rainImpact : JsVal := JStr "Rain may affect play".
Definition windImpact : JsVal := JStr "Strong wind may affect ball flight".
Definition coldImpact : JsVal := JStr "Cold weather may reduce offensive production".
Definition hotImpact : JsVal := JStr "Hot weather may favor hitters".
Definition minimalImpact : JsVal := JStr "Minimal weather impact expected".

Lemma thermal_cases (temp : JsVal) (th : list JsVal) :
  (if truthy temp
   then (t <- extractTemperature temp ;;
         Ok (if Nat.ltb t 50
             then [JStr "Cold weather may reduce offensive production"]
             else if Nat.ltb 85 t
             then [JStr "Hot weather may favor hitters"]
             else []))
   else Ok []) = Ok th ->
  th = [] \/ th = [coldImpact] \/ th = [hotImpact].
Proof.
  intros Hr. destruct (truthy temp); [| injection Hr as <-; auto].
  destruct (extractTemperature temp) as [t |]; cbn [bind] in Hr; [| discriminate].
  injection Hr as <-. destruct (Nat.ltb t 50); [auto |].
  destruct (Nat.ltb 85 t); auto.
Qed.

(** X13. When [assessWeatherImpact] returns, the list of impacts is never
    empty and holds at most three entries; the 'minimal impact' entry
    stands alone, and the cold and the hot entries never come together. *)
Theorem assessWeatherImpact_list (weather v : JsVal) :
  assessWeatherImpact weather = Ok v ->
  exists l,
    v = JArr l /\ l <> [] /\ length l <= 3 /\
    (In minimalImpact l -> l = [minimalImpact]) /\
    ~ (In coldImpact l /\ In hotImpact l) /\
    Forall (fun i => In i [rainImpact; windImpact; coldImpact; hotImpact; minimalImpact]) l.
Proof.
  unfold assessWeatherImpact. intros H.
  destruct (get weather "condition") as [condition |]; cbn [bind] in H; [| discriminate].
  destruct (if truthy condition then _ else _) as [rain |]; cbn [bind] in H;
    [| discriminate].
  destruct (get weather "wind") as [wind |]; cbn [bind] in H; [| discriminate].
  destruct (if truthy wind then _ else _) as [windy |]; cbn [bind] in H; [| discriminate].
  destruct (get weather "temp") as [temp |]; cbn [bind] in H; [| discriminate].
  destruct (if truthy temp then _ else _) as [thermal |] eqn:Et; cbn [bind] in H;
    [| discriminate].
  pose proof (thermal_cases temp thermal Et) as Hth. injection H as <-.
  eexists. split; [reflexivity |].
  unfold rainImpact, windImpact, coldImpact, hotImpact, minimalImpact.
  destruct rain, windy, Hth as [-> | [-> | ->]]; cbn;
    (split; [discriminate |]); (split; [lia |]);
    (split; [intros Hin; repeat (destruct Hin as [Hin | Hin]; try discriminate Hin);
             try reflexivity; try contradiction |]);
    (split; [intros [H1 H2];
             repeat (destruct H1 as [H1 | H1]; try discriminate H1); try contradiction;
             repeat (destruct H2 as [H2 | H2]; try discriminate H2); try contradiction |]);
    repeat (constructor; [cbn; tauto |]); constructor.
Qed.

End WeatherStrings.

Lemma assessWeatherImpact_list_witness :
  let weather := Js.JObj [("condition", Js.JStr "Light Rain");
                          ("temp", Js.JStr "45"); ("wind", Js.JStr "18 mph, In From LF")] in
  DataFormatter.assessWeatherImpact weather
  = Js.Ok (Js.JArr [rainImpact; windImpact; coldImpact]) /\
  exists l,
    Js.JArr [rainImpact; windImpact; coldImpact] = Js.JArr l /\ l <> [] /\ length l <= 3 /\
    (In minimalImpact l -> l = [minimalImpact]) /\
    ~ (In coldImpact l /\ In hotImpact l) /\
    Forall (fun i => In i [rainImpact; windImpact; coldImpact; hotImpact; minimalImpact]) l.
Proof.
  cbv zeta.
  assert (H : DataFormatter.assessWeatherImpact
                (Js.JObj [("condition", Js.JStr "Light Rain");
                          ("temp", Js.JStr "45"); ("wind", Js.JStr "18 mph, In From LF")])
              = Js.Ok (Js.JArr [rainImpact; windImpact; coldImpact]))
    by (vm_compute; reflexivity).
  split; [exact H |].
  exact (assessWeatherImpact_list _ _ H).
Defined.

(* --------------------------------------------------------------------- *)
(** ** data-formatter.js: the optional blocks of [formatGameData]         *)
(* --------------------------------------------------------------------- *)

Section OptionalBlocks.
Import Js DataFormatter.
Variable rt : Builtins.

Lemma truthy_or (a b : JsVal) : truthy (or_ a b) = truthy a || truthy b.
Proof. unfold or_. destruct (truthy a) eqn:E; [now rewrite E | reflexivity]. Qed.

Lemma optGet_get (v : JsVal) (k : string) (x : JsVal) : get v k = Ok x -> optGet v k = x.
Proof. unfold optGet. now intros ->. Qed.

(** The options [formatGameData] works with: [{}] when none are given. *)
Definition optionsOrDefault (options : JsVal) : JsVal :=
  match options with JUndefined => JObj [] | _ => options end.

(** X14. When [formatGameData] returns, the result always has the four blocks
    [gameContext], [teamStats], [recentPerformance] and [pitchingMatchup];
    it has a [weather] block exactly when [options.includeWeather] is not
    [false] and the bundle's [weather] is truthy, an [injuries] block
    exactly when [options.includeInjuries] is not [false] and one of the
    two injury reports is truthy, and a [headToHead] block exactly when
    the bundle's [headToHead] is truthy. *)
Theorem formatGameData_blocks (rawData options v : JsVal) :
  formatGameData rt rawData options = Ok v ->
  exists fs,
    v = JObj fs /\
    hasKey "gameContext" fs = true /\ hasKey "teamStats" fs = true /\
    hasKey "recentPerformance" fs = true /\ hasKey "pitchingMatchup" fs = true /\
    hasKey "weather" fs
    = notFalse (optGet (optionsOrDefault options) "includeWeather")
      && truthy (optGet rawData "weather") /\
    hasKey "injuries" fs
    = notFalse (optGet (optionsOrDefault options) "includeInjuries")
      && (truthy (optGet rawData "giantsInjuries")
          || truthy (optGet rawData "opponentInjuries")) /\
    hasKey "headToHead" fs = truthy (optGet rawData "headToHead").
Proof.
  unfold formatGameData. fold (optionsOrDefault options). intros H.
  destruct (isNullish rawData); [discriminate |].
  do 14 (match type of H with
         | bind (get rawData ?k) _ = _ =>
             let E := fresh "G" in
             destruct (get rawData k) eqn:E; cbn [bind] in H; [| discriminate H];
             apply optGet_get in E
         end).
  do 4 (match type of H with
        | bind ?c _ = _ => destruct c; cbn [bind] in H; [| discriminate H]
        end).
  destruct (get (optionsOrDefault options) "includeWeather") as [iw |] eqn:Giw;
    cbn [bind] in H; [| discriminate]. apply optGet_get in Giw.
  match type of H with
  | bind ?c _ = _ => destruct c as [fs1 |] eqn:E1; cbn [bind] in H; [| discriminate H]
  end.
  destruct (get (optionsOrDefault options) "includeInjuries") as [ii |] eqn:Gii;
    cbn [bind] in H; [| discriminate]. apply optGet_get in Gii.
  match type of H with
  | bind ?c _ = _ => destruct c as [fs2 |] eqn:E2; cbn [bind] in H; [| discriminate H]
  end.
  match type of H with
  | bind ?c _ = _ => destruct c as [fs3 |] eqn:E3; cbn [bind] in H; [| discriminate H]
  end.
  injection H as <-. exists fs3. split; [reflexivity |].
  rewrite truthy_or in E2.
  subst.
  destruct (notFalse _ && truthy _) in E1 |- *;
    [destruct (formatWeather _); cbn [bind] in E1; [| discriminate] |];
    injection E1 as <-;
    (destruct (notFalse _ && (truthy _ || truthy _)) in E2 |- *;
     [destruct (formatInjuries _ _); cbn [bind] in E2; [| discriminate] |];
     injection E2 as <-);
    (destruct (truthy (optGet rawData "headToHead")) in E3 |- *;
     [destruct (formatHeadToHead _); cbn [bind] in E3; [| discriminate] |];
     injection E3 as <-);
    rewrite ?hasKey_setField; cbn; repeat split.
Qed.

End OptionalBlocks.

Lemma formatGameData_blocks_witness :
  exists v,
    DataFormatter.formatGameData sampleBuiltins
      (bundleWith [("weather", Js.JObj [("condition", Js.JStr "Clear")])])
      (Js.JObj [("includeInjuries", Js.JBool false)]) = Js.Ok v /\
    exists fs,
      v = Js.JObj fs /\
      hasKey "gameContext" fs = true /\ hasKey "teamStats" fs = true /\
      hasKey "recentPerformance" fs = true /\ hasKey "pitchingMatchup" fs = true /\
      hasKey "weather" fs = true /\
      hasKey "injuries" fs = false /\
      hasKey "headToHead" fs = false.
Proof.
  eexists. split; [vm_compute; reflexivity |].
  apply (formatGameData_blocks sampleBuiltins
           (bundleWith [("weather", Js.JObj [("condition", Js.JStr "Clear")])])
           (Js.JObj [("includeInjuries", Js.JBool false)])).
  vm_compute. reflexivity.
Defined.

(* --------------------------------------------------------------------- *)
(** ** mlb-api.js: the queries built on [makeRequest]                     *)
(* --------------------------------------------------------------------- *)

Section RecentGamesQuery.
Import Js MlbQueries.

Lemma filterM_spec {A : Type} (f : A -> Res bool) (l : list A) :
  forall kept,
    filterM f l = Ok kept ->
    Forall (fun x => f x = Ok true) kept /\ length kept <= length l.
Proof.
  induction l as [| x l IH]; intros kept H.
  - injection H as <-. split; [constructor | reflexivity].
  - cbn [filterM] in H.
    destruct (f x) as [keep |] eqn:Ex; cbn [bind] in H; [| discriminate].
    destruct (filterM f l) as [rest |]; cbn [bind] in H; [| discriminate].
    destruct (IH rest eq_refl) as [Hall Hlen]. injection H as <-.
    destruct keep; cbn [length]; (split; [| lia]).
    + constructor; [exact Ex | exact Hall].
    + exact Hall.
Qed.

Lemma Forall_firstn {A : Type} (P : A -> Prop) (n : nat) (l : list A) :
  Forall P l -> Forall P (firstn n l).
Proof.
  intros H. revert n. induction H as [| x l Hx _ IH]; intros [| n]; cbn;
    constructor; auto.
Qed.

(** X15. When [getRecentGames] returns, it returns an array of at most
    [limit] games, every one of them with
    [status.abstractGameState === 'Final']; the array is empty when the
    schedule has no [dates]. *)
Theorem getRecentGames_final_and_limited (data : JsVal) (limit : nat) (v : JsVal) :
  getRecentGames data limit = Ok v ->
  exists l,
    v = JArr l /\ length l <= limit /\
    Forall (fun game => isFinal game = Ok true) l /\
    (truthy (optGet data "dates") = false -> l = []).
Proof.
  unfold getRecentGames. intros H.
  destruct (get data "dates") as [dates |] eqn:Ed; cbn [bind] in H; [| discriminate].
  rewrite (optGet_get _ _ _ Ed).
  destruct (truthy dates); cbn [negb] in H.
  - destruct (asArray _ dates) as [ds |]; cbn [bind] in H; [| discriminate].
    destruct (DataFormatter.flatGames ds) as [games |]; cbn [bind] in H; [| discriminate].
    destruct (filterM isFinal games) as [finals |] eqn:Ef; cbn [bind] in H;
      [| discriminate].
    injection H as <-. destruct (filterM_spec _ _ _ Ef) as [Hall _].
    eexists. split; [reflexivity |]. unfold slice. cbn [skipn Nat.sub].
    rewrite Nat.sub_0_r. split; [| split].
    + rewrite length_firstn. lia.
    + now apply Forall_firstn.
    + discriminate.
  - injection H as <-. exists []. repeat split; [cbn; lia | constructor].
Qed.

Definition scheduledGame (state : string) (pk : Z) : JsVal :=
  JObj [("gamePk", JInt pk); ("status", JObj [("abstractGameState", JStr state)])].

Definition monthSchedule : JsVal :=
  JObj [("dates",
         JArr [JObj [("games", JArr [scheduledGame "Final" 1; scheduledGame "Final" 2])];
               JObj [("games", JArr [scheduledGame "Preview" 3])];
               JObj [("games", JArr [scheduledGame "Final" 4])]])].

End RecentGamesQuery.

Lemma getRecentGames_witness :
  MlbQueries.getRecentGames monthSchedule 2
  = Js.Ok (Js.JArr [scheduledGame "Final" 1; scheduledGame "Final" 2]) /\
  exists l,
    Js.JArr [scheduledGame "Final" 1; scheduledGame "Final" 2] = Js.JArr l /\
    length l <= 2 /\
    Forall (fun game => MlbQueries.isFinal game = Js.Ok true) l /\
    (Js.truthy (Js.optGet monthSchedule "dates") = false -> l = []).
Proof.
  assert (H : MlbQueries.getRecentGames monthSchedule 2
              = Js.Ok (Js.JArr [scheduledGame "Final" 1; scheduledGame "Final" 2]))
    by (vm_compute; reflexivity).
  split; [exact H |].
  exact (getRecentGames_final_and_limited monthSchedule 2 _ H).
Defined.

(* --------------------------------------------------------------------- *)
(** ** server.js on the client's own weather and injury reports           *)
(* --------------------------------------------------------------------- *)

Section InjuriesBlock.
Import Js DataFormatter.
Variable rt : Builtins.

(** The [injuries] block of [formatGameData], when it is asked for and
    one of the reports is truthy, is [formatInjuries] of the two
    reports. *)
Lemma formatGameData_injuries (rawData options v : JsVal) :
  formatGameData rt rawData options = Ok v ->
  notFalse (optGet (optionsOrDefault options) "includeInjuries")
    && (truthy (optGet rawData "giantsInjuries")
        || truthy (optGet rawData "opponentInjuries")) = true ->
  formatInjuries (optGet rawData "giantsInjuries") (optGet rawData "opponentInjuries")
  = Ok (optGet v "injuries").
Proof.
  unfold formatGameData. fold (optionsOrDefault options). intros H Hask.
  destruct (isNullish rawData); [discriminate |].
  do 14 (match type of H with
         | bind (get rawData ?k) _ = _ =>
             let E := fresh "G" in
             destruct (get rawData k) eqn:E; cbn [bind] in H; [| discriminate H];
             apply optGet_get in E
         end).
  do 4 (match type of H with
        | bind ?c _ = _ => destruct c; cbn [bind] in H; [| discriminate H]
        end).
  destruct (get (optionsOrDefault options) "includeWeather") as [iw |];
    cbn [bind] in H; [| discriminate].
  match type of H with
  | bind ?c _ = _ => destruct c as [fs1 |]; cbn [bind] in H; [| discriminate H]
  end.
  destruct (get (optionsOrDefault options) "includeInjuries") as [ii |] eqn:Gii;
    cbn [bind] in H; [| discriminate]. apply optGet_get in Gii.
  match type of H with
  | bind ?c _ = _ => destruct c as [fs2 |] eqn:E2; cbn [bind] in H; [| discriminate H]
  end.
  match type of H with
  | bind ?c _ = _ => destruct c as [fs3 |] eqn:E3; cbn [bind] in H; [| discriminate H]
  end.
  injection H as <-. rewrite truthy_or in E2. subst.
  rewrite Hask in E2.
  destruct (formatInjuries _ _) as [i |]; cbn [bind] in E2; [| discriminate].
  injection E2 as <-. f_equal. unfold optGet. cbn [get].
  destruct (truthy (optGet rawData "headToHead")) in E3.
  - destruct (formatHeadToHead _); cbn [bind] in E3; [| discriminate].
    injection E3 as <-. rewrite !lookupField_setField. reflexivity.
  - injection E3 as <-. rewrite lookupField_setField. reflexivity.
Qed.

End InjuriesBlock.

Section ClientBackedWorld.
Import Js Server.
Variable cfg : Config.
Variable w : World.

(** The world's weather and injury reports are those of [MLBAPIClient]:
    [getGameWeather] catches whatever its feed does and returns a value,
    [getInjuryReport] returns its placeholder. *)
Definition clientBacked : Prop :=
  (forall gameId, exists gameFeed,
      getGameWeather w gameId = Ok (fst (MlbQueries.getGameWeather gameFeed))) /\
  (forall teamId, exists lastUpdated,
      getInjuryReport w teamId = Ok (MlbQueries.getInjuryReport teamId lastUpdated)).

(** [{ available: false, count: 0 }] *)
Definition noInjuries : JsVal := JObj [("available", JBool false); ("count", JInt 0)].

Lemma formatInjuries_placeholder (a b : JsVal) (t1 t2 : string) :
  DataFormatter.formatInjuries (MlbQueries.getInjuryReport a t1)
    (MlbQueries.getInjuryReport b t2)
  = Ok (JObj [("giants", noInjuries); ("opponent", noInjuries)]).
Proof. reflexivity. Qed.

Lemma fetchMandatory_reads (date : JsVal) (data : list (string * JsVal))
    (game opponent : JsVal) :
  fetchMandatory cfg w date = Ok (Some (data, game, opponent)) ->
  (exists pk, get game "gamePk" = Ok pk) /\ (exists id, get opponent "id" = Ok id).
Proof.
  unfold fetchMandatory. intros H.
  destruct (locateGame cfg w date) as [[l |] |] eqn:El; cbn [bind] in H;
    try discriminate.
  destruct (fetchTeamData cfg w l) as [d1 |]; cbn [bind] in H; [| discriminate].
  destruct (fetchPitchers w (l_game l) d1) as [d2 |] eqn:Ep; cbn [bind] in H;
    [| discriminate].
  injection H as _ <- <-. split.
  - unfold fetchPitchers in Ep.
    destruct (get (l_game l) "gamePk") as [pk |]; [now exists pk | discriminate Ep].
  - unfold locateGame in El. ok_inv El. injection El as <-. cbn [l_opponent].
    eexists. eassumption.
Qed.

(** The client's [getGameWeather] writes its line exactly when the feed
    rejects. *)
Lemma getGameWeather_console (gameFeed : Res JsVal) :
  snd (MlbQueries.getGameWeather gameFeed)
  = match gameFeed with
    | Ok _ => []
    | Throw m => [("Weather data not available:"%string, Err m)]
    end /\
  (forall m, gameFeed = Throw m -> fst (MlbQueries.getGameWeather gameFeed) = JNull).
Proof.
  split; [| intros m ->; reflexivity].
  destruct gameFeed as [feed | m]; [| reflexivity].
  unfold MlbQueries.getGameWeather.
  match goal with
  | |- snd (match ?e with Ok _ => _ | Throw _ => _ end) = _ =>
      assert (He : exists v, e = Ok v); [| destruct He as [v ->]; reflexivity]
  end.
  assert (Hvenue : forall (venue : JsVal) (conditions : JsVal -> JsVal -> JsVal),
             exists v,
               (if truthy venue
                then (name <- get venue "name" ;;
                      location <- get venue "location" ;;
                      Ok (conditions name location))
                else Ok JNull) = Ok v).
  { intros venue conditions. destruct (truthy venue) eqn:Hv; [| eauto].
    destruct (get_truthy venue "name" Hv) as [name ->].
    destruct (get_truthy venue "location" Hv) as [location ->]. cbn [bind]. eauto. }
  cbn [bind].
  destruct (truthy feed) eqn:Hf.
  - destruct (get_truthy feed "gameData" Hf) as [gameData ->]. cbn [bind].
    destruct (truthy gameData) eqn:Hg.
    + destruct (get_truthy gameData "weather" Hg) as [weather ->]. cbn [bind].
      destruct (truthy weather); [eauto |].
      apply (Hvenue _ (fun name location => JObj _)).
    + cbn [bind]. rewrite Hg. apply (Hvenue _ (fun name location => JObj _)).
  - cbn [bind]. rewrite Hf. cbn [bind]. rewrite Hf.
    apply (Hvenue _ (fun name location => JObj _)).
Qed.

(** X16. With the client's own [getGameWeather] and [getInjuryReport], the
    best-effort part of [fetchComprehensiveGameData] never degrades: once
    the game is located and the mandatory fetches resolved, neither inner
    [catch] runs, the server writes no line through [this.log], and the
    bundle has its [weather], [giantsInjuries] and [opponentInjuries]
    fields. The injury reports being the placeholder with an empty list,
    the [injuries] block that [formatGameData] makes of the bundle, when
    asked for, says [{ available: false, count: 0 }] for both teams. What
    is written comes from the client itself: its [getGameWeather] writes
    'Weather data not available:' with [console.error], and returns
    [null], exactly when its game feed rejects. *)
Theorem client_reports_never_degrade (date : JsVal) (data : list (string * JsVal))
    (game opponent : JsVal) :
  clientBacked ->
  fetchMandatory cfg w date = Ok (Some (data, game, opponent)) ->
  (exists raw,
     fetchComprehensiveGameData cfg w date = (Ok (JObj raw), []) /\
     hasKey "weather" raw = true /\
     hasKey "giantsInjuries" raw = true /\
     hasKey "opponentInjuries" raw = true /\
     forall rt options v,
       DataFormatter.formatGameData rt (JObj raw) options = Ok v ->
       DataFormatter.notFalse (optGet (optionsOrDefault options) "includeInjuries") = true ->
       optGet v "injuries" = JObj [("giants", noInjuries); ("opponent", noInjuries)]) /\
  (forall gameFeed,
     snd (MlbQueries.getGameWeather gameFeed)
     = match gameFeed with
       | Ok _ => []
       | Throw m => [("Weather data not available:"%string, Err m)]
       end /\
     (forall m, gameFeed = Throw m -> fst (MlbQueries.getGameWeather gameFeed) = JNull)).
Proof.
  intros [Hweather Hinjuries] Hf. split; [| exact getGameWeather_console].
  destruct (fetchMandatory_reads _ _ _ _ Hf) as [[pk Hpk] [id Hid]].
  destruct (Hweather pk) as [feed Hw].
  destruct (Hinjuries (teamId cfg)) as [t1 Hg].
  destruct (Hinjuries id) as [t2 Ho].
  unfold fetchComprehensiveGameData, fetchBestEffort. rewrite Hf, Hpk, Hid.
  cbn [bind]. rewrite Hw, Hg, Ho. cbn [app].
  eexists. split; [reflexivity |].
  rewrite !hasKey_setField. cbn [String.eqb Ascii.eqb Bool.eqb orb].
  split; [reflexivity |]. split; [reflexivity |]. split; [reflexivity |].
  intros rt options v Hfmt Hask.
  pose proof (formatGameData_injuries rt _ options v Hfmt) as Hi.
  unfold optGet in Hi at 2 3 4 5. cbn [get] in Hi.
  rewrite !lookupField_setField in Hi.
  cbn [String.eqb Ascii.eqb Bool.eqb] in Hi.
  rewrite formatInjuries_placeholder in Hi.
  assert (Hask' : DataFormatter.notFalse (optGet (optionsOrDefault options) "includeInjuries")
                  && (truthy (MlbQueries.getInjuryReport (teamId cfg) t1)
                      || truthy (MlbQueries.getInjuryReport id t2)) = true)
    by (rewrite Hask; reflexivity).
  specialize (Hi Hask'). now injection Hi as <-.
Qed.

End ClientBackedWorld.

Section ClientWorldSample.
Import Js Server.

(** The stormy world's schedule and statistics, with the weather and the
    injury reports of the client; the game feed of the weather rejects. *)
Definition clientWorld : World :=
  {| getTeamSchedule := fun _ _ _ => Ok scheduleWithGame;
     getTeamStats := fun _ => Ok seasonStats;
     getRecentGames := fun _ _ => Ok (JArr []);
     getHeadToHeadRecord := fun _ _ => Ok (JObj [("dates", JArr [])]);
     getTeamRoster := fun _ => Ok (JArr []);
     getGameFeed := fun _ => Ok (JObj []);
     getPlayerStats := fun _ _ => Ok (JObj []);
     getGameWeather := fun _ =>
       Ok (fst (MlbQueries.getGameWeather (Throw "MLB API request timeout")));
     getInjuryReport := fun teamId =>
       Ok (MlbQueries.getInjuryReport teamId "2024-05-01T12:00:00.000Z");
     analyzeGameData := fun _ _ => Ok (JObj [("content", JStr "## Game Overview")]);
     parseGameAnalysis := fun analysis =>
       Ok (JObj [("rawAnalysis", optGet analysis "content")]);
     jsonStringify := fun _ => "{}";
     builtins := sampleBuiltins |}.

End ClientWorldSample.

Lemma client_reports_witness :
  clientBacked clientWorld /\
  (exists raw,
     Server.fetchComprehensiveGameData Server.CONFIG clientWorld (Js.JStr "2024-05-01")
     = (Js.Ok (Js.JObj raw), []) /\
     hasKey "weather" raw = true /\
     hasKey "giantsInjuries" raw = true /\
     hasKey "opponentInjuries" raw = true /\
     forall rt options v,
       DataFormatter.formatGameData rt (Js.JObj raw) options = Js.Ok v ->
       DataFormatter.notFalse (Js.optGet (optionsOrDefault options) "includeInjuries") = true ->
       Js.optGet v "injuries"
       = Js.JObj [("giants", noInjuries); ("opponent", noInjuries)]) /\
  MlbQueries.getGameWeather (Js.Throw "MLB API request timeout")
  = (Js.JNull, [("Weather data not available:", Js.Err "MLB API request timeout")]).
Proof.
  assert (H : clientBacked clientWorld).
  { split.
    - intros gameId. exists (Js.Throw "MLB API request timeout"). reflexivity.
    - intros teamId. exists "2024-05-01T12:00:00.000Z". reflexivity. }
  split; [exact H |].
  split; [| reflexivity].
  assert (Hf : exists data game opponent,
             Server.fetchMandatory Server.CONFIG clientWorld (Js.JStr "2024-05-01")
             = Js.Ok (Some (data, game, opponent)))
    by (do 3 eexists; vm_compute; reflexivity).
  destruct Hf as (data & game & opponent & Hf).
  exact (proj1 (client_reports_never_degrade Server.CONFIG clientWorld
                  (Js.JStr "2024-05-01") data game opponent H Hf)).
Defined.

(* --------------------------------------------------------------------- *)
(** ** What a match has read                                              *)
(* --------------------------------------------------------------------- *)

Section MatcherLanguage.
Import JsString Regex.
Local Open Scope list_scope.

(** The texts an expression can consume, conditions on the position
    aside. *)
Fixpoint reads (r : re) (u : chars) : Prop :=
  match r with
  | Chr p => exists c, u = [c] /\ p c = true
  | Seq r1 r2 => exists u1 u2, u = u1 ++ u2 /\ reads r1 u1 /\ reads r2 u2
  | Alt r1 r2 => reads r1 u \/ reads r2 u
  | Star _ p => forallb p u = true
  | Group _ r1 => reads r1 u
  | Eps | Look _ | Bos | Eos | Bol | Eol | WordB => u = []
  end.

(** [s'] is [s] moved over the text [u]. *)
Definition span (s s' : MState) (u : chars) : Prop :=
  rest s = u ++ rest s' /\ before s' = rev u ++ before s.

Lemma span_nil (s : MState) : span s s [].
Proof. split; reflexivity. Qed.

Lemma span_app (s1 s2 s3 : MState) (u v : chars) :
  span s1 s2 u -> span s2 s3 v -> span s1 s3 (u ++ v).
Proof.
  intros [Hr Hb] [Hr' Hb']. split.
  - now rewrite Hr, Hr', <- List.app_assoc.
  - now rewrite Hb', Hb, rev_app_distr, <- List.app_assoc.
Qed.

Lemma star_greedy_reads {R : Type} (p : ascii -> bool) (k : MState -> option R)
    (r b : chars) (cs : list (nat * chars)) (x : R) :
  star_greedy p k b r cs = Some x ->
  exists u t, r = u ++ t /\ forallb p u = true /\
              k {| before := rev u ++ b; rest := t; caps := cs |} = Some x.
Proof.
  revert b. induction r as [| c t IH]; intros b; cbn [star_greedy].
  - intros H. now exists [], [].
  - destruct (p c) eqn:Hc; [| intros H; now exists [], (c :: t)].
    destruct (star_greedy p k (c :: b) t cs) eqn:E; [| intros H; now exists [], (c :: t)].
    intros [= ->]. destruct (IH _ E) as (u & t' & -> & Hu & Hk).
    exists (c :: u), t'. split; [reflexivity |]. split; [cbn; now rewrite Hc |].
    cbn [rev]. now rewrite <- List.app_assoc.
Qed.

Lemma star_lazy_reads {R : Type} (p : ascii -> bool) (k : MState -> option R)
    (r b : chars) (cs : list (nat * chars)) (x : R) :
  star_lazy p k b r cs = Some x ->
  exists u t, r = u ++ t /\ forallb p u = true /\
              k {| before := rev u ++ b; rest := t; caps := cs |} = Some x.
Proof.
  revert b. induction r as [| c t IH]; intros b; cbn [star_lazy].
  - destruct (k _) eqn:E; [| discriminate]. intros [= ->]. now exists [], [].
  - destruct (k _) eqn:E; [intros [= ->]; now exists [], (c :: t) |].
    destruct (p c) eqn:Hc; [| discriminate]. intros H.
    destruct (IH _ H) as (u & t' & -> & Hu & Hk).
    exists (c :: u), t'. split; [reflexivity |]. split; [cbn; now rewrite Hc |].
    cbn [rev]. now rewrite <- List.app_assoc.
Qed.

(** A match that succeeds has read a text of the expression and gone on
    from the position after it. *)
Lemma mt_reads (r : re) :
  forall (R : Type) (k : MState -> option R) (s : MState) (x : R),
    mt r k s = Some x ->
    exists s' u, span s s' u /\ reads r u /\ k s' = Some x.
Proof.
  induction r as [| p | r1 IH1 r2 IH2 | r1 IH1 r2 IH2 | g p | i r1 IH1 | r1 IH1 | | | | | ];
    intros R k s x; cbn [mt reads].
  - intros H. exists s, []. split; [apply span_nil | now split].
  - destruct (rest s) as [| c t] eqn:E; [discriminate |].
    destruct (p c) eqn:Hc; [| discriminate]. intros H.
    exists (advance c t s), [c]. split; [split; [exact E | reflexivity] |].
    split; [now exists c | exact H].
  - intros H. destruct (IH1 _ _ _ _ H) as (s1 & u1 & S1 & R1 & H1).
    destruct (IH2 _ _ _ _ H1) as (s2 & u2 & S2 & R2 & H2).
    exists s2, (u1 ++ u2). split; [exact (span_app _ _ _ _ _ S1 S2) |].
    split; [now exists u1, u2 | exact H2].
  - destruct (mt r1 k s) eqn:E.
    + intros [= ->]. destruct (IH1 _ _ _ _ E) as (s1 & u & S1 & R1 & H1).
      exists s1, u. split; [exact S1 |]. split; [now left | exact H1].
    + intros H. destruct (IH2 _ _ _ _ H) as (s1 & u & S1 & R1 & H1).
      exists s1, u. split; [exact S1 |]. split; [now right | exact H1].
  - destruct g; intros H;
      [apply star_greedy_reads in H | apply star_lazy_reads in H];
      destruct H as (u & t & Hr & Hu & Hk);
      (eexists _, u; split; [| split; [exact Hu | exact Hk]]);
      (split; cbn [before rest]; [exact Hr | reflexivity]).
  - intros H. destruct (IH1 _ _ _ _ H) as (s1 & u & [Hr Hb] & R1 & H1).
    eexists _, u. split; [| split; [exact R1 | exact H1]].
    split; cbn [before rest]; assumption.
  - destruct (mt r1 Some s) as [s' |]; [| discriminate]. intros H.
    eexists _, []. split; [| split; [reflexivity | exact H]].
    split; reflexivity.
  - destruct (isEmpty (before s)); [| discriminate].
    intros H. exists s, []. split; [apply span_nil | now split].
  - destruct (isEmpty (rest s)); [| discriminate].
    intros H. exists s, []. split; [apply span_nil | now split].
  - destruct (atLineStart s); [| discriminate].
    intros H. exists s, []. split; [apply span_nil | now split].
  - destruct (atLineEnd s); [| discriminate].
    intros H. exists s, []. split; [apply span_nil | now split].
  - destruct (atWordBoundary s); [| discriminate].
    intros H. exists s, []. split; [apply span_nil | now split].
Qed.

(** What a search finds: a text [u] of the expression, standing in the
    searched text, which is the matched string. *)
Lemma searchFrom_reads (r : re) (t b : chars) (m : Match) :
  searchFrom r b t = Some m ->
  exists a u t',
    t = a ++ u ++ t' /\ reads r u /\
    matched m = string_of_list_ascii u /\
    before (m_end m) = rev u ++ rev a ++ b /\ rest (m_end m) = t'.
Proof.
  revert b. induction t as [| c t IH]; intros b; cbn [searchFrom].
  - destruct (mt r Some _) eqn:E; [| discriminate]. intros [= <-].
    destruct (mt_reads r _ _ _ _ E) as (s' & u & [Hr Hb] & Hu & [= <-]).
    cbn [before rest] in Hr, Hb.
    exists [], u, (rest s'). cbn [app rev]. repeat split; auto.
    unfold matched. cbn [m_start m_end]. f_equal. now apply (consumed_app b).
  - destruct (mt r Some _) eqn:E.
    + intros [= <-].
      destruct (mt_reads r _ _ _ _ E) as (s' & u & [Hr Hb] & Hu & [= <-]).
      cbn [before rest] in Hr, Hb.
      exists [], u, (rest s'). cbn [app rev]. repeat split; auto.
      unfold matched. cbn [m_start m_end]. f_equal. now apply (consumed_app b).
    + intros H. destruct (IH _ H) as (a & u & t' & -> & Hu & Hm & Hb & Hr).
      exists (c :: a), u, t'. repeat split; auto.
      cbn [rev]. now rewrite Hb, <- !List.app_assoc.
Qed.

Lemma search_reads (r : re) (text : string) (m : Match) :
  search r text = Some m ->
  exists a u t,
    list_ascii_of_string text = a ++ u ++ t /\ reads r u /\
    matched m = string_of_list_ascii u.
Proof.
  unfold search. intros H.
  destruct (searchFrom_reads _ _ _ _ H) as (a & u & t & Ht & Hu & Hm & _).
  now exists a, u, t.
Qed.

(** Every match of a global search is a text of the expression standing
    in the searched text. *)
Lemma matchesFrom_reads (r : re) (fuel : nat) :
  forall (t b : chars) (m : Match),
    In m (matchesFrom fuel r b t) ->
    exists a u t',
      t = a ++ u ++ t' /\ reads r u /\ matched m = string_of_list_ascii u.
Proof.
  induction fuel as [| fuel IH]; intros t b m Hin; [destruct Hin |].
  cbn [matchesFrom] in Hin.
  destruct (searchFrom r b t) as [m0 |] eqn:E; [| destruct Hin].
  destruct (searchFrom_reads _ _ _ _ E) as (a & u & t' & Ht & Hu & Hm & Hb & Hr).
  assert (Hlater : forall b' t'' m',
             In m' (matchesFrom fuel r b' t'') -> (exists x, t' = x ++ t'') ->
             exists a u t', t = a ++ u ++ t' /\ reads r u
                            /\ matched m' = string_of_list_ascii u).
  { intros b' t'' m' Hm' [x Hx].
    destruct (IH _ _ _ Hm') as (a1 & u1 & t1 & Ht1 & Hu1 & Hm1).
    exists (a ++ u ++ x ++ a1), u1, t1. split; [| now split].
    rewrite Ht, Hx, Ht1, <- !List.app_assoc. reflexivity. }
  destruct (Nat.eqb _ _).
  - rewrite Hr in Hin. destruct t' as [| c t''].
    + destruct Hin as [<- | []]. now exists a, u, [].
    + destruct Hin as [<- | Hin]; [now exists a, u, (c :: t'') |].
      apply (Hlater _ _ _ Hin). now exists [c].
  - destruct Hin as [<- | Hin]; [now exists a, u, t' |].
    rewrite Hr in Hin. apply (Hlater _ _ _ Hin). now exists [].
Qed.

Lemma matchAll_reads (r : re) (text s : string) :
  In s (matchAll r text) ->
  exists a u t,
    list_ascii_of_string text = a ++ u ++ t /\ reads r u /\ s = string_of_list_ascii u.
Proof.
  unfold matchAll. intros H. apply List.in_map_iff in H as (m & <- & Hm).
  exact (matchesFrom_reads _ _ _ _ _ Hm).
Qed.

Lemma reads_seqs_cons (r : re) (l : list re) (u : chars) :
  reads (seqs (r :: l)) u ->
  exists u1 u2, u = u1 ++ u2 /\ reads r u1 /\ reads (seqs l) u2.
Proof.
  destruct l as [| r' l]; cbn [seqs].
  - intros H. exists u, []. rewrite app_nil_r. now repeat split.
  - intros H. exact H.
Qed.

Lemma reads_litCI (w : string) (u : chars) :
  reads (litCI w) u -> map lower u = map lower (list_ascii_of_string w).
Proof.
  unfold litCI. revert u.
  induction (list_ascii_of_string w) as [| a l IH]; intros u H.
  - cbn in H. now subst.
  - cbn [map] in H. apply reads_seqs_cons in H as (u1 & u2 & -> & (c & -> & Hc) & H2).
    cbn [app map]. now rewrite (IH _ H2), (isCI_lower a c Hc).
Qed.

Lemma reads_alts_cons (r : re) (l : list re) (u : chars) :
  l <> [] -> reads (alts (r :: l)) u -> reads r u \/ reads (alts l) u.
Proof. destruct l as [| r' l]; [contradiction |]. intros _ H. exact H. Qed.

(** One of several words, in some case. *)
Lemma reads_words (words : list string) (u : chars) :
  words <> [] ->
  reads (alts (map litCI words)) u ->
  exists w, In w words /\ map lower u = map lower (list_ascii_of_string w).
Proof.
  induction words as [| w words IH]; [contradiction |]. intros _ H.
  destruct words as [| w' words].
  - exists w. split; [now left | now apply reads_litCI].
  - cbn [map] in H. apply reads_alts_cons in H; [| discriminate].
    destruct H as [H | H].
    + exists w. split; [now left | now apply reads_litCI].
    + destruct (IH ltac:(discriminate) H) as (w0 & Hin & Hw).
      exists w0. split; [now right | exact Hw].
Qed.

End MatcherLanguage.

(* --------------------------------------------------------------------- *)
(** ** response-parser.js: the outcome and the confidence of a prediction *)
(* --------------------------------------------------------------------- *)

Section ParserWords.
Import JsString Regex ResponseParser.
Local Open Scope list_scope.

Lemma toLowerCase_app (a b : string) :
  toLowerCase (a ++ b)%string = (toLowerCase a ++ toLowerCase b)%string.
Proof. induction a as [| c a IH]; cbn; [reflexivity | now rewrite IH]. Qed.

(** A word included in a part of a text is included in the text. *)
Lemma includes_part (pre s post w : string) :
  includes s w = true -> includes (pre ++ s ++ post)%string w = true.
Proof.
  rewrite !includes_app. intros (a & b & ->).
  exists (pre ++ a)%string, (b ++ post)%string.
  now rewrite !append_assoc.
Qed.

Lemma includes_after (pre s w : string) :
  includes s w = true -> includes (pre ++ s)%string w = true.
Proof.
  rewrite !includes_app. intros (a & b & ->).
  exists (pre ++ a)%string, b. now rewrite !append_assoc.
Qed.

Lemma includes_lower_part (text : string) (a u t : chars) (w : string) :
  list_ascii_of_string text = a ++ u ++ t ->
  includes (toLowerCase (string_of_list_ascii u)) w = true ->
  includes (toLowerCase text) w = true.
Proof.
  intros Htext H.
  rewrite <- (string_of_list_ascii_of_string text), Htext.
  rewrite !string_of_chars_app, !toLowerCase_app. now apply includes_part.
Qed.

(** A sequence with a choice of words among its parts reads a text that
    includes one of the words, in some case. *)
Lemma reads_seqs_word (l : list re) (words : list string) (u : chars) :
  words <> [] ->
  In (alts (map litCI words)) l ->
  reads (seqs l) u ->
  exists w, In w words /\
            includes (toLowerCase (string_of_list_ascii u)) (toLowerCase w) = true.
Proof.
  intros Hne. revert u. induction l as [| r l IH]; intros u Hin H; [destruct Hin |].
  apply reads_seqs_cons in H as (u1 & u2 & -> & H1 & H2).
  destruct Hin as [-> | Hin].
  - destruct (reads_words words u1 Hne H1) as (w & Hw & Hl).
    exists w. split; [exact Hw |].
    apply (includes_lower_of_chars _ w [] u1 u2); [| exact Hl].
    now rewrite list_ascii_of_string_of_list_ascii.
  - destruct (IH u2 Hin H2) as (w & Hw & Hi).
    exists w. split; [exact Hw |].
    rewrite string_of_chars_app, toLowerCase_app. now apply includes_after.
Qed.

Lemma firstOutcomeMatch_some (patterns : list re) (analysis m0 : string) :
  firstOutcomeMatch patterns analysis = Some m0 ->
  exists pattern, In pattern patterns /\ In m0 (matchAll pattern analysis).
Proof.
  induction patterns as [| p patterns IH]; [discriminate |].
  cbn [firstOutcomeMatch].
  destruct (matchAll p analysis) as [| m ms] eqn:E.
  - intros H. destruct (IH H) as (q & Hq & Hm). exists q. split; [now right | exact Hm].
  - intros [= <-]. exists p. split; [now left |]. rewrite E. now left.
Qed.

Lemma someIncluded_intro (words : list string) (lowerText w : string) :
  In w words -> includes lowerText w = true -> someIncluded words lowerText = true.
Proof.
  intros Hin Hi. unfold someIncluded. apply existsb_exists. now exists w.
Qed.

(** A text that includes a winning or a losing word is not read as an
    even matchup. *)
Lemma interpretOutcome_decided (text w : string) :
  In w ["win"; "lose"; "prevail"; "struggle"; "victory"; "defeat"; "advantage"; "favor"]
       %string ->
  includes (toLowerCase text) w = true ->
  interpretOutcome text = "Giants favored"%string
  \/ interpretOutcome text = "Opponent favored"%string.
Proof.
  intros Hw Hi. unfold interpretOutcome.
  destruct (someIncluded ["win"; "victory"; "prevail"; "advantage"; "favor"]%string
              (toLowerCase text)) eqn:Ep; [now left |].
  right.
  assert (Hn : someIncluded ["lose"; "defeat"; "struggle"; "disadvantage"]%string
                 (toLowerCase text) = true).
  { cbn in Hw.
    destruct Hw as [<- | [<- | [<- | [<- | [<- | [<- | [<- | [<- | []]]]]]]]];
      first [ apply (fun H => someIncluded_intro _ _ _ H Hi); cbn; tauto
            | exfalso;
              assert (Hp : someIncluded
                             ["win"; "victory"; "prevail"; "advantage"; "favor"]%string
                             (toLowerCase text) = true)
                by (apply (fun H => someIncluded_intro _ _ _ H Hi); cbn; tauto);
              congruence ]. }
  now rewrite Hn.
Qed.

(** X17. [extractOutcomePrediction] never answers 'Even matchup': every match
    of its patterns holds a winning or a losing word. And it answers
    'No clear prediction' for a text that mentions neither 'giants' nor
    'sf' nor 'opponent', in any case. *)
Theorem extractOutcomePrediction_labels (analysis : string) :
  (extractOutcomePrediction analysis = "Giants favored"%string \/
   extractOutcomePrediction analysis = "Opponent favored"%string \/
   extractOutcomePrediction analysis = "No clear prediction"%string) /\
  (includes (toLowerCase analysis) "giants" = false ->
   includes (toLowerCase analysis) "sf" = false ->
   includes (toLowerCase analysis) "opponent" = false ->
   extractOutcomePrediction analysis = "No clear prediction"%string).
Proof.
  unfold extractOutcomePrediction.
  destruct (firstOutcomeMatch outcomePatterns analysis) as [m0 |] eqn:E;
    [| split; [right; right |]; reflexivity].
  destruct (firstOutcomeMatch_some _ _ _ E) as (p & Hp & Hm).
  destruct (matchAll_reads _ _ _ Hm) as (a & u & t & Htext & Hu & ->).
  unfold outcomePatterns in Hp.
  split.
  - assert (Hw : exists w,
               In w ["win"; "lose"; "prevail"; "struggle"; "victory"; "defeat";
                     "advantage"; "favor"]%string /\
               includes (toLowerCase (string_of_list_ascii u)) w = true).
    { destruct Hp as [<- | [<- | [<- | []]]].
      - destruct (fun H2 => reads_seqs_word _ ["win"; "lose"; "prevail"; "struggle"]%string u
                    ltac:(discriminate) H2 Hu) as (w & Hw & Hi); [cbn; tauto |].
        exists (toLowerCase w). split; [| exact Hi].
        cbn in Hw. destruct Hw as [<- | [<- | [<- | [<- | []]]]]; cbn; tauto.
      - destruct (fun H2 => reads_seqs_word _ ["win"; "lose"; "victory"; "defeat"]%string u
                    ltac:(discriminate) H2 Hu) as (w & Hw & Hi); [cbn; tauto |].
        exists (toLowerCase w). split; [| exact Hi].
        cbn in Hw. destruct Hw as [<- | [<- | [<- | [<- | []]]]]; cbn; tauto.
      - destruct (fun H2 => reads_seqs_word _ ["advantage"; "favor"]%string u
                    ltac:(discriminate) H2 Hu) as (w & Hw & Hi); [cbn; tauto |].
        exists (toLowerCase w). split; [| exact Hi].
        cbn in Hw. destruct Hw as [<- | [<- | []]]; cbn; tauto. }
    destruct Hw as (w & Hw & Hi).
    destruct (interpretOutcome_decided _ w Hw Hi) as [-> | ->]; auto.
  - intros Hg Hs Ho. exfalso.
    assert (Hw : exists w,
               In w ["giants"; "sf"; "opponent"]%string /\
               includes (toLowerCase (string_of_list_ascii u)) w = true).
    { destruct Hp as [<- | [<- | [<- | []]]].
      - destruct (fun H2 => reads_seqs_word _ ["giants"; "sf"]%string u
                    ltac:(discriminate) H2 Hu) as (w & Hw & Hi); [cbn; tauto |].
        exists (toLowerCase w). split; [| exact Hi].
        cbn in Hw. destruct Hw as [<- | [<- | []]]; cbn; tauto.
      - destruct (fun H2 => reads_seqs_word _ ["giants"; "sf"]%string u
                    ltac:(discriminate) H2 Hu) as (w & Hw & Hi); [cbn; tauto |].
        exists (toLowerCase w). split; [| exact Hi].
        cbn in Hw. destruct Hw as [<- | [<- | []]]; cbn; tauto.
      - destruct (fun H2 => reads_seqs_word _ ["giants"; "sf"; "opponent"]%string u
                    ltac:(discriminate) H2 Hu) as (w & Hw & Hi); [cbn; tauto |].
        exists (toLowerCase w). split; [| exact Hi].
        cbn in Hw. destruct Hw as [<- | [<- | [<- | []]]]; cbn; tauto. }
    destruct Hw as (w & Hw & Hi).
    pose proof (includes_lower_part analysis a u t w Htext Hi) as Hin.
    cbn in Hw. destruct Hw as [<- | [<- | [<- | []]]]; congruence.
Qed.

End ParserWords.

Section ParserConfidence.
Import JsString Regex ResponseParser.
Local Open Scope list_scope.

Lemma filter_count_le {A : Type} (f g : A -> bool) (l : list A) :
  (forall x, In x l -> f x = true -> g x = true) ->
  length (List.filter f l) <= length (List.filter g l).
Proof.
  induction l as [| x l IH]; intros H; [reflexivity |].
  cbn [List.filter].
  assert (IH' : length (List.filter f l) <= length (List.filter g l))
    by (apply IH; intros y Hy; apply H; now right).
  destruct (f x) eqn:Ef.
  - rewrite (H x (or_introl eq_refl) Ef). cbn [length]. lia.
  - destruct (g x); cbn [length]; lia.
Qed.

(** 'uncertain' holds 'certain': a term counted as low for it is counted
    as high too. So a low score needs a term with 'weak' or 'possible'. *)
Lemma calculateConfidenceScore_low (terms : list string) :
  calculateConfidenceScore terms = "low"%string ->
  exists term,
    In term terms /\
    (includes (toLowerCase term) "weak" = true \/
     includes (toLowerCase term) "possible" = true).
Proof.
  intros H.
  destruct (existsb (fun term => includes (toLowerCase term) "weak"
                                 || includes (toLowerCase term) "possible") terms) eqn:Ex.
  - apply existsb_exists in Ex as (term & Hin & Hor).
    exists term. split; [exact Hin |]. now apply orb_true_iff in Hor.
  - exfalso. unfold calculateConfidenceScore in H.
    destruct terms as [| t0 ts]; [discriminate H |].
    set (terms := t0 :: ts) in *. cbv zeta in H.
    assert (Hle : length (List.filter
                            (fun term => someIncluded ["uncertain"; "weak"; "possible"]%string
                                           (toLowerCase term)) terms)
                  <= length (List.filter
                               (fun term => someIncluded
                                              ["confident"; "certain"; "strong"; "likely"]%string
                                              (toLowerCase term)) terms)).
    { apply filter_count_le. intros term Hin Hlow.
      assert (Hno : includes (toLowerCase term) "weak" = false /\
                    includes (toLowerCase term) "possible" = false).
      { apply orb_false_iff.
        destruct (includes (toLowerCase term) "weak" || includes (toLowerCase term) "possible")
          eqn:E; [| reflexivity].
        assert (existsb (fun term => includes (toLowerCase term) "weak"
                                     || includes (toLowerCase term) "possible") terms = true)
          by (apply existsb_exists; now exists term).
        congruence. }
      destruct Hno as [Hw Hp].
      unfold someIncluded in Hlow |- *. cbn [existsb] in Hlow |- *.
      rewrite Hw, Hp in Hlow. rewrite !orb_false_r in Hlow.
      rewrite (includes_suffix_of_word _ "un" "certain" Hlow).
      now rewrite !orb_true_r. }
    destruct (Nat.ltb _ _) in H; [discriminate H |].
    destruct (Nat.ltb _ _) eqn:E in H; [| discriminate H].
    apply Nat.ltb_lt in E. lia.
Qed.

(** X18. [extractPredictionConfidence] answers 'low' only for a text that
    holds 'weak' or 'possible', in some case: 'uncertain' alone does not
    lower the confidence, since it counts as 'certain' too. *)
Theorem extractPredictionConfidence_low (analysis : string) :
  extractPredictionConfidence analysis = "low"%string ->
  includes (toLowerCase analysis) "weak" = true \/
  includes (toLowerCase analysis) "possible" = true.
Proof.
  unfold extractPredictionConfidence. intros H.
  apply calculateConfidenceScore_low in H as (term & Hin & Hor).
  apply List.in_flat_map in Hin as (p & _ & Hm).
  destruct (matchAll_reads _ _ _ Hm) as (a & u & t & Htext & _ & ->).
  destruct Hor as [Hw | Hp]; [left | right];
    eapply includes_lower_part; eassumption.
Qed.

End ParserConfidence.

Lemma extractPredictionConfidence_low_witness :
  ResponseParser.extractPredictionConfidence "The bullpen leaves a weak chance of a comeback"
  = "low" /\
  (JsString.includes
     (JsString.toLowerCase "The bullpen leaves a weak chance of a comeback") "weak" = true \/
   JsString.includes
     (JsString.toLowerCase "The bullpen leaves a weak chance of a comeback") "possible" = true).
Proof.
  assert (H : ResponseParser.extractPredictionConfidence
                "The bullpen leaves a weak chance of a comeback" = "low")
    by (vm_compute; reflexivity).
  split; [exact H |].
  exact (extractPredictionConfidence_low _ H).
Defined.

(** 'uncertain' alone: one low term that is a high term too. *)
Example extractPredictionConfidence_uncertain_example :
  ResponseParser.extractPredictionConfidence "The outcome is uncertain" = "moderate" /\
  ResponseParser.extractPredictionConfidence "A win is possible" = "low".
Proof. vm_compute. split; reflexivity. Qed.

(* --------------------------------------------------------------------- *)
(** ** response-parser.js: bullet points                                  *)
(* --------------------------------------------------------------------- *)

Section Bullets.
Import JsString Regex ResponseParser.
Local Open Scope list_scope.

(** The class [[-*•\d+.\s]] of the prefix a bullet loses. *)
Definition bulletLead (c : ascii) : bool :=
  oneOf "-*+." c || is_digit c || is_ws c.

Lemma bulletPrefix_shape : bulletPrefix = Seq Bos (plus true bulletLead).
Proof. reflexivity. Qed.

Lemma star_greedy_some (p : ascii -> bool) (t : chars) :
  forall (b : chars) (cs : list (nat * chars)),
    exists bf, star_greedy p Some b t cs
               = Some {| before := bf; rest := dropWhile p t; caps := cs |}.
Proof.
  induction t as [| c t IH]; intros b cs; cbn [star_greedy dropWhile].
  - now exists b.
  - destruct (p c); [| now exists b].
    destruct (IH (c :: b) cs) as [bf ->]. now exists bf.
Qed.

Lemma searchFrom_bos_later (r : re) (t : chars) :
  forall b, b <> [] -> searchFrom (Seq Bos r) b t = None.
Proof.
  induction t as [| c t IH]; intros b Hb; cbn [searchFrom mt before];
    (destruct b as [| x b]; [contradiction |]); cbn [isEmpty].
  - reflexivity.
  - apply IH. discriminate.
Qed.

(** [m.replace(/^[-*•\d+.\s]+/, '')] drops the leading characters of the
    class, all of them. *)
Lemma removeFirst_bulletPrefix (s : string) :
  removeFirst bulletPrefix s
  = string_of_list_ascii (dropWhile bulletLead (list_ascii_of_string s)).
Proof.
  rewrite bulletPrefix_shape. unfold removeFirst, search.
  assert (Hs : s = string_of_list_ascii (list_ascii_of_string s))
    by (symmetry; apply string_of_list_ascii_of_string).
  destruct (list_ascii_of_string s) as [| c l]; [exact Hs |].
  cbn [searchFrom]. unfold plus. cbn [mt before rest isEmpty dropWhile].
  destruct (bulletLead c).
  - unfold advance. cbn [before rest caps].
    destruct (star_greedy_some bulletLead l [c] []) as [bf ->].
    reflexivity.
  - rewrite searchFrom_bos_later by discriminate. exact Hs.
Qed.

Lemma dropWhile_keeps_last (p : ascii -> bool) (c : ascii) (l : chars) :
  p c = false -> exists z, dropWhile p (l ++ [c]) = z ++ [c].
Proof.
  intros Hc. induction l as [| x l IH]; cbn.
  - rewrite Hc. now exists [].
  - destruct (p x); [exact IH | now exists (x :: l)].
Qed.

Lemma trimChars_keeps_first (c : ascii) (d : chars) :
  is_ws c = false -> exists d', trimChars (c :: d) = c :: d'.
Proof.
  intros Hc. unfold trimChars. cbn [dropWhile]. rewrite Hc. cbn [rev].
  destruct (dropWhile_keeps_last is_ws c (rev d) Hc) as [z ->].
  rewrite rev_app_distr. cbn. now exists (rev z).
Qed.

Lemma bulletLead_ws (c : ascii) : bulletLead c = false -> is_ws c = false.
Proof. unfold bulletLead. intros H. now apply orb_false_iff in H as [_ H]. Qed.

(** X19. No bullet that [extractBulletPoints] returns begins with a digit,
    [-], [*], [+], [.] or white space: the prefix it removes takes the
    bullet mark and any number that opens the text of the bullet. A
    bullet may be empty. *)
Theorem extractBulletPoints_stripped (text : string) :
  Forall (fun bullet =>
            bullet = ""%string \/
            exists c rest, bullet = String c rest /\ bulletLead c = false)
         (extractBulletPoints text).
Proof.
  apply List.Forall_forall. intros bullet Hin. unfold extractBulletPoints in Hin.
  apply List.in_flat_map in Hin as (p & _ & Hin).
  apply List.in_map_iff in Hin as (m & <- & _).
  rewrite removeFirst_bulletPrefix. unfold trim.
  rewrite list_ascii_of_string_of_list_ascii.
  destruct (dropWhile_split bulletLead (list_ascii_of_string m)) as (lead & _ & _ & Hd).
  destruct (dropWhile bulletLead (list_ascii_of_string m)) as [| c d]; [now left |].
  right. destruct (trimChars_keeps_first c d (bulletLead_ws c Hd)) as [d' ->].
  exists c, (string_of_list_ascii d'). split; [reflexivity | exact Hd].
Qed.

Example extractBulletPoints_example :
  extractBulletPoints
    ("- 3.25 ERA over the last month" ++ String nl "* Webb's splitter"
     ++ String nl "2. 10 strikeouts" ++ String nl "- 12")%string
  = ["ERA over the last month"; "Webb's splitter"; ""; "strikeouts"]%string.
Proof. vm_compute. reflexivity. Qed.

End Bullets.

(* --------------------------------------------------------------------- *)
(** ** response-parser.js: the other extractors and the parse cache       *)
(* --------------------------------------------------------------------- *)

Section ParserLists.
Import Js JsString Regex ResponseParser ParserExtractors.
Local Open Scope list_scope.

(** What [dedupeBy] keeps: elements of the list, with keys that are not
    in [seen] and are pairwise distinct, each the first of its key. *)
Lemma dedupeBy_spec {A : Type} (key : A -> string) (l : list A) :
  forall seen : gset string,
    List.NoDup (map key (dedupeBy key seen l)) /\
    forall x, In x (dedupeBy key seen l) ->
              (key x ∉ seen) /\
              exists l1 l2, l = l1 ++ x :: l2 /\ ~ In (key x) (map key l1).
Proof.
  induction l as [| y l IH]; intros seen; cbn [dedupeBy].
  - split; [constructor | intros x []].
  - destruct (decide (key y ∈ seen)) as [Hin | Hout].
    + destruct (IH seen) as [Hnd Hall]. split; [exact Hnd |].
      intros x Hx. destruct (Hall x Hx) as (Hs & l1 & l2 & -> & Hfirst).
      split; [exact Hs |]. exists (y :: l1), l2. split; [reflexivity |].
      cbn [map In]. intros [E | Hi]; [| contradiction]. rewrite <- E in Hs. contradiction.
    + destruct (IH ({[ key y ]} ∪ seen)) as [Hnd Hall]. split.
      * cbn [map]. constructor; [| exact Hnd].
        intros Hi. apply List.in_map_iff in Hi as (x & E & Hx).
        destruct (Hall x Hx) as [Hs _]. rewrite E in Hs.
        apply Hs, elem_of_union. left. now apply elem_of_singleton.
      * intros x [<- | Hx].
        -- split; [exact Hout |]. exists [], l. split; [reflexivity | intros []].
        -- destruct (Hall x Hx) as (Hs & l1 & l2 & -> & Hfirst).
           split; [intros Hi; apply Hs, elem_of_union; now right |].
           exists (y :: l1), l2. split; [reflexivity |].
           cbn [map In]. intros [E | Hi]; [| contradiction].
           apply Hs, elem_of_union. left. now apply elem_of_singleton.
Qed.

Lemma dedupeBy_id {A : Type} (key : A -> string) (l : list A) :
  forall seen : gset string,
    List.NoDup (map key l) -> (forall x, In x l -> key x ∉ seen) ->
    dedupeBy key seen l = l.
Proof.
  induction l as [| y l IH]; intros seen Hnd Hs; [reflexivity |].
  cbn [dedupeBy]. cbn [map] in Hnd. apply List.NoDup_cons_iff in Hnd as [Hy Hnd].
  destruct (decide (key y ∈ seen)) as [Hin | _].
  - exfalso. exact (Hs y (or_introl eq_refl) Hin).
  - f_equal. apply IH; [exact Hnd |].
    intros x Hx. assert (key x ∉ seen) by (apply Hs; now right).
    assert (key x <> key y).
    { intros E. apply Hy. rewrite <- E. apply List.in_map_iff. now exists x. }
    intros Hi. apply elem_of_union in Hi as [Hi | Hi]; [| contradiction].
    apply elem_of_singleton in Hi. contradiction.
Qed.

Lemma In_firstn {A : Type} (n : nat) (l : list A) (x : A) :
  In x (firstn n l) -> In x l.
Proof.
  revert n. induction l as [| y l IH]; intros [| n] H; cbn in H; try contradiction.
  destruct H as [<- | H]; [now left | right; exact (IH n H)].
Qed.

Lemma NoDup_firstn {A : Type} (n : nat) (l : list A) :
  List.NoDup l -> List.NoDup (firstn n l).
Proof.
  intros H. revert n. induction H as [| x l Hx _ IH]; intros [| n]; cbn;
    try constructor; auto.
  intros Hin. apply Hx. exact (In_firstn _ _ _ Hin).
Qed.

Lemma dropWhile_idem (p : ascii -> bool) (l : list ascii) :
  dropWhile p (dropWhile p l) = dropWhile p l.
Proof.
  induction l as [| c l IH]; [reflexivity |]. cbn.
  destruct (p c) eqn:E; [exact IH |]. cbn. now rewrite E.
Qed.

(** [trim] returns a string with no white space around it. *)
Lemma trim_trim (s : string) : trim (trim s) = trim s.
Proof.
  unfold trim. rewrite list_ascii_of_string_of_list_ascii. f_equal.
  set (l := list_ascii_of_string s). unfold trimChars.
  set (d := dropWhile is_ws l).
  assert (Hd : dropWhile is_ws d = d) by apply dropWhile_idem.
  assert (He : dropWhile is_ws (rev (dropWhile is_ws (rev d)))
               = rev (dropWhile is_ws (rev d))).
  { destruct d as [| c d'] eqn:Ed; [reflexivity |].
    assert (Hc : is_ws c = false).
    { cbn in Hd. destruct (is_ws c) eqn:E; [| reflexivity].
      exfalso. assert (Hlen : length (dropWhile is_ws d') = length (c :: d'))
        by now rewrite Hd.
      destruct (dropWhile_split is_ws d') as (lead & _ & Hsplit & _).
      apply (f_equal (@length ascii)) in Hsplit. rewrite length_app in Hsplit.
      cbn [length] in Hlen. lia. }
    cbn [rev]. destruct (dropWhile_keeps_last is_ws c (rev d') Hc) as [z ->].
    rewrite rev_app_distr. cbn. now rewrite Hc. }
  rewrite He, rev_involutive, dropWhile_idem. reflexivity.
Qed.

(** X20. The lists of [extractKeyInsights], [extractKeyEventPredictions],
    [extractStrategicFactors] and [extractKeyTermsFromSection] are
    bounded, whatever the text: at most 8 insights, 9 events, 9 factors
    and 15 key terms. The insights are pairwise distinct and carry no
    white space around them. *)
Theorem parser_lists_bounded (analysis : string) :
  (length (extractKeyInsights analysis) <= 8)%nat /\
  List.NoDup (extractKeyInsights analysis) /\
  Forall (fun insight => trim insight = insight) (extractKeyInsights analysis) /\
  (length (extractKeyEventPredictions analysis) <= 9)%nat /\
  (length (extractStrategicFactors analysis) <= 9)%nat /\
  (length (extractKeyTermsFromSection analysis) <= 15)%nat.
Proof.
  assert (Hthree : forall (pats : list re) (n : nat),
             (length (flat_map (fun pattern => slice 0 n (matchAll pattern analysis)) pats)
              <= n * length pats)%nat).
  { intros pats n. induction pats as [| p pats IH]; cbn [flat_map length]; [lia |].
    rewrite length_app. unfold slice at 1. cbn [skipn]. rewrite length_firstn. lia. }
  unfold extractKeyInsights.
  set (insights := flat_map _ insightPatterns).
  destruct (dedupeBy_spec (fun s : string => s) insights ∅) as [Hnd Hall].
  rewrite List.map_id in Hnd.
  unfold slice. cbn [skipn Nat.sub].
  split; [rewrite length_firstn; lia |].
  split; [now apply NoDup_firstn |].
  split.
  { apply List.Forall_forall. intros i Hi. apply In_firstn in Hi.
    destruct (Hall i Hi) as (_ & l1 & l2 & E & _).
    assert (Hin : In i insights) by (rewrite E; apply List.in_or_app; right; now left).
    apply List.in_flat_map in Hin as (p & _ & Hm).
    apply List.in_map_iff in Hm as (m & <- & _). apply trim_trim. }
  split; [exact (Hthree eventPatterns 3) |].
  split; [exact (Hthree strategyPatterns 3) |].
  unfold extractKeyTermsFromSection.
  change (fun pattern => firstn 5 (matchAll pattern analysis))
    with (fun pattern => slice 0 5 (matchAll pattern analysis)).
  exact (Hthree termPatterns 5).
Qed.

(** X21. [deduplicatePlayerSpotlight] returns at most six players, with
    pairwise distinct names, each of them the first player of its name
    in the list given; applied to its own result it changes nothing. *)
Theorem deduplicatePlayerSpotlight_spec (players : list Player) :
  (length (deduplicatePlayerSpotlight players) <= 6)%nat /\
  List.NoDup (map name (deduplicatePlayerSpotlight players)) /\
  (forall p, In p (deduplicatePlayerSpotlight players) ->
             exists l1 l2, players = l1 ++ p :: l2 /\ ~ In (name p) (map name l1)) /\
  deduplicatePlayerSpotlight (deduplicatePlayerSpotlight players)
  = deduplicatePlayerSpotlight players.
Proof.
  unfold deduplicatePlayerSpotlight, slice. cbn [skipn Nat.sub].
  destruct (dedupeBy_spec name players ∅) as [Hnd Hall].
  assert (Hnd6 : List.NoDup (map name (firstn 6 (dedupeBy name ∅ players)))).
  { rewrite <- List.firstn_map. now apply NoDup_firstn. }
  split; [rewrite length_firstn; lia |].
  split; [exact Hnd6 |].
  split.
  { intros p Hp. apply In_firstn in Hp. now destruct (Hall p Hp) as [_ H]. }
  rewrite (dedupeBy_id name _ ∅ Hnd6).
  - rewrite !List.skipn_O, List.firstn_firstn. reflexivity.
  - intros x _. apply not_elem_of_empty.
Qed.

End ParserLists.

(* --------------------------------------------------------------------- *)
(** ** response-parser.js: readability                                     *)
(* --------------------------------------------------------------------- *)

Section Readability.
Import Js JsString Regex ResponseParser ParserExtractors.

Lemma avg_lt (words sentences : nat) (bound : Z) :
  num_lt (num_div (num_of_nat words) (num_of_nat (S sentences)))
         (Fin (inject_Z bound))
  = (Z.of_nat words <? bound * Z.of_nat (S sentences))%Z.
Proof.
  unfold num_of_nat, num_div.
  assert (Hpos : (0 < inject_Z (Z.of_nat (S sentences)))%Q).
  { change 0%Q with (inject_Z 0). rewrite <- Zlt_Qlt. lia. }
  destruct (Qeq_bool (inject_Z (Z.of_nat (S sentences))) 0) eqn:E.
  { apply Qeq_bool_iff in E. rewrite E in Hpos. now apply Qlt_irrefl in Hpos. }
  cbn [num_lt].
  destruct (Z.ltb_spec (Z.of_nat words) (bound * Z.of_nat (S sentences))) as [Hlt | Hge].
  - apply Qltb_lt. apply Qlt_shift_div_r; [exact Hpos |].
    rewrite <- inject_Z_mult, <- Zlt_Qlt. exact Hlt.
  - apply Qltb_ge. apply Qle_shift_div_l; [exact Hpos |].
    rewrite <- inject_Z_mult, <- Zle_Qle. exact Hge.
Qed.

(** X22. [calculateReadability] compares the words of the text (the pieces
    between runs of white space) with its sentences (the pieces between
    runs of [.], [!] and [?], at least one): fewer than 15 words a
    sentence is "easy", fewer than 25 "moderate", anything else
    "complex". The quotient is never NaN. *)
Theorem calculateReadability_thresholds (text : string) :
  let words := pieces is_ws text in
  let sentences := pieces (oneOf ".!?") text in
  (1 <= sentences)%nat /\
  (calculateReadability text = "easy" <-> (words < 15 * sentences)%nat) /\
  (calculateReadability text = "moderate"
   <-> (15 * sentences <= words < 25 * sentences)%nat) /\
  (calculateReadability text = "complex" <-> (25 * sentences <= words)%nat).
Proof.
  intros words sentences. unfold calculateReadability.
  fold words. fold sentences.
  assert (Hs : exists n, sentences = S n) by (now exists (runs (oneOf ".!?") false (list_ascii_of_string text))).
  destruct Hs as [n Hn]. rewrite Hn. clearbody words. clear Hn sentences.
  change (Fin 15) with (Fin (inject_Z 15)). change (Fin 25) with (Fin (inject_Z 25)).
  rewrite !avg_lt.
  split; [lia |].
  destruct (Z.ltb_spec (Z.of_nat words) (15 * Z.of_nat (S n))) as [H15 | H15];
    [| destruct (Z.ltb_spec (Z.of_nat words) (25 * Z.of_nat (S n))) as [H25 | H25]].
  - split; [split; [lia | reflexivity] |].
    split; (split; [discriminate | lia]).
  - split; [split; [discriminate | lia] |].
    split; [split; [lia | reflexivity] |].
    split; [discriminate | lia].
  - split; [split; [discriminate | lia] |].
    split; [split; [discriminate | lia] |].
    split; [lia | reflexivity].
Qed.

(** Nine words; the split on the sentence marks leaves three pieces, the
    last one empty. *)
Example calculateReadability_example :
  calculateReadability "Webb starts tonight. The Giants should win this one!" = "easy"
  /\ pieces is_ws "Webb starts tonight. The Giants should win this one!" = 9
  /\ pieces (oneOf ".!?") "Webb starts tonight. The Giants should win this one!" = 3.
Proof. repeat split; vm_compute; reflexivity. Qed.

End Readability.

(* --------------------------------------------------------------------- *)
(** ** response-parser.js: the text after a label                          *)
(* --------------------------------------------------------------------- *)

Section LabelledText.
Import Js JsString Regex ResponseParser ParserExtractors.
Local Open Scope list_scope.

(** The text starts with the word, letter case aside. *)
Fixpoint startsCI (word l : chars) : bool :=
  match word with
  | [] => true
  | a :: word' =>
      match l with
      | c :: l' => isCI a c && startsCI word' l'
      | [] => false
      end
  end.

(** What follows the first place where the word stands, letter case
    aside. *)
Fixpoint afterCI (word l : chars) : option chars :=
  if startsCI word l then Some (skipn (length word) l)
  else match l with
       | _ :: l' => afterCI word l'
       | [] => None
       end.

(** The text ends here, or the stop word stands here. *)
Definition stopsHere (stop : option string) (l : chars) : bool :=
  match stop with
  | Some word => startsCI (list_ascii_of_string word) l || isEmpty l
  | None => isEmpty l
  end.

(** The text up to the first place that stops it. *)
Fixpoint upTo (stop : option string) (l : chars) : chars :=
  if stopsHere stop l then []
  else match l with
       | c :: l' => c :: upTo stop l'
       | [] => []
       end.

Lemma mt_litCI {R : Type} (word : chars) :
  forall (k : MState -> option R) (b l : chars) (cs : list (nat * chars)),
    mt (seqs (map (fun a => Chr (isCI a)) word)) k {| before := b; rest := l; caps := cs |}
    = if startsCI word l
      then k {| before := rev (firstn (length word) l) ++ b;
                rest := skipn (length word) l; caps := cs |}
      else None.
Proof.
  induction word as [| a word IH]; intros k b l cs; [reflexivity |].
  cbn [map]. rewrite mt_seqs_cons. cbn [mt rest startsCI].
  destruct l as [| c l]; [reflexivity |].
  destruct (isCI a c); [| reflexivity].
  unfold advance. cbn [before caps andb]. rewrite IH.
  cbn [length firstn skipn rev]. now rewrite <- app_assoc.
Qed.

Definition stopRe (stop : option string) : re :=
  match stop with
  | Some word => Look (Alt (litCI word) Eos)
  | None => Eos
  end.

Lemma mt_stopRe (stop : option string) (b l : chars) (cs : list (nat * chars)) :
  mt (stopRe stop) Some {| before := b; rest := l; caps := cs |}
  = if stopsHere stop l then Some {| before := b; rest := l; caps := cs |} else None.
Proof.
  destruct stop as [word |]; cbn [stopRe stopsHere mt rest before caps].
  - unfold litCI. rewrite mt_litCI.
    destruct (startsCI (list_ascii_of_string word) l); [reflexivity |].
    cbn [orb]. now destruct (isEmpty l).
  - reflexivity.
Qed.

Lemma consumed_here (b u x y : chars) (cs cs' : list (nat * chars)) :
  consumed {| before := b; rest := x; caps := cs |}
           {| before := rev u ++ b; rest := y; caps := cs' |} = u.
Proof. now apply (consumed_app b u). Qed.

(** [(.*?)] before a stop: the group takes the text up to the stop. *)
Lemma lazy_upTo (stop : option string) (b0 : chars) (l : chars) :
  forall u : chars,
    star_lazy any
      (fun s' => mt (stopRe stop) Some
                    {| before := before s'; rest := rest s';
                       caps := (1, consumed {| before := b0; rest := u ++ l; caps := [] |} s')
                               :: caps s' |})
      (rev u ++ b0) l []
    = Some {| before := rev (u ++ upTo stop l) ++ b0;
              rest := skipn (length (upTo stop l)) l;
              caps := [(1, u ++ upTo stop l)] |}.
Proof.
  induction l as [| c l IH]; intros u.
  - cbn [star_lazy before rest caps]. rewrite mt_stopRe.
    assert (E : stopsHere stop [] = true) by (destruct stop; cbn; [apply orb_true_r | reflexivity]).
    rewrite E. cbn [upTo]. rewrite E. cbn [length skipn].
    now rewrite consumed_here, app_nil_r.
  - cbn [star_lazy before rest caps]. rewrite mt_stopRe. cbn [upTo].
    destruct (stopsHere stop (c :: l)) eqn:E.
    + cbn [length skipn].
      now rewrite consumed_here, app_nil_r.
    + unfold any at 1. cbn [length skipn].
      specialize (IH (u ++ [c])).
      rewrite rev_app_distr in IH. cbn [rev app] in IH.
      rewrite <- !app_assoc in IH. cbn [app] in IH.
      exact IH.
Qed.

(** The pattern at one place: it matches where the label stands, and
    nowhere else. *)
Lemma labelled_here (label : string) (stop : option string) (b l : chars) :
  mt (labelled (litCI label) stop) Some {| before := b; rest := l; caps := [] |}
  = if startsCI (list_ascii_of_string label) l
    then
      let r := skipn (length (list_ascii_of_string label)) l in
      Some {| before := rev (upTo stop r)
                        ++ rev (firstn (length (list_ascii_of_string label)) l) ++ b;
              rest := skipn (length (upTo stop r)) r;
              caps := [(1, upTo stop r)] |}
    else None.
Proof.
  unfold labelled. rewrite mt_seqs_cons. unfold litCI at 1. rewrite mt_litCI.
  destruct (startsCI (list_ascii_of_string label) l); [| reflexivity].
  rewrite mt_seqs_cons. cbn [seqs mt before rest caps].
  fold (stopRe stop).
  set (b1 := rev (firstn (length (list_ascii_of_string label)) l) ++ b).
  set (r := skipn (length (list_ascii_of_string label)) l).
  exact (lazy_upTo stop b1 r []).
Qed.

Lemma search_labelled (label : string) (stop : option string) (l b : chars) :
  option_map (fun m => group 1 m) (searchFrom (labelled (litCI label) stop) b l)
  = option_map (fun r => Some (string_of_list_ascii (upTo stop r)))
               (afterCI (list_ascii_of_string label) l).
Proof.
  revert b. induction l as [| c l IH]; intros b.
  - cbn [searchFrom afterCI]. rewrite labelled_here.
    destruct (startsCI (list_ascii_of_string label) []); reflexivity.
  - cbn [searchFrom afterCI]. rewrite labelled_here.
    destruct (startsCI (list_ascii_of_string label) (c :: l)); [reflexivity |].
    apply IH.
Qed.

Lemma startsWith_lower (word s : string) :
  startsWith (toLowerCase s) (toLowerCase word)
  = startsCI (list_ascii_of_string word) (list_ascii_of_string s).
Proof.
  revert s. induction word as [| a word IH]; intros s; [reflexivity |].
  destruct s as [| c s]; [reflexivity |].
  cbn [toLowerCase startsWith list_ascii_of_string startsCI].
  rewrite IH. f_equal.
  destruct (isCI a c) eqn:E.
  - apply isCI_lower in E. rewrite E. apply Ascii.eqb_refl.
  - apply Ascii.eqb_neq. intros H. symmetry in H. apply lower_isCI in H. congruence.
Qed.

Lemma afterCI_includes (word s : string) :
  afterCI (list_ascii_of_string word) (list_ascii_of_string s) = None
  <-> includes (toLowerCase s) (toLowerCase word) = false.
Proof.
  induction s as [| c s IH].
  - pose proof (startsWith_lower word "") as H0.
    cbn [toLowerCase list_ascii_of_string] in H0.
    cbn [list_ascii_of_string afterCI toLowerCase includes]. rewrite H0.
    destruct (startsCI (list_ascii_of_string word) []); split; congruence.
  - pose proof (startsWith_lower word (String c s)) as H0.
    cbn [toLowerCase list_ascii_of_string] in H0.
    cbn [list_ascii_of_string afterCI toLowerCase includes]. rewrite H0.
    destruct (startsCI (list_ascii_of_string word) (c :: list_ascii_of_string s));
      [split; discriminate | exact IH].
Qed.

(** The pattern of a helper extractor, for any label, stop word and
    default. *)
Lemma labelled_text_spec (label : string) (stop : option string)
    (default analysis : string) :
  let found := afterCI (list_ascii_of_string label) (list_ascii_of_string analysis) in
  textAfter (litCI label) stop default analysis
  = match found with
    | Some r => trim (string_of_list_ascii (upTo stop r))
    | None => default
    end
  /\ bulletsAfter (litCI label) stop analysis
     = match found with
       | Some r => extractBulletPoints (string_of_list_ascii (upTo stop r))
       | None => []
       end
  /\ (found = None <-> includes (toLowerCase analysis) (toLowerCase label) = false).
Proof.
  intros found.
  pose proof (search_labelled label stop (list_ascii_of_string analysis) []) as H.
  fold (search (labelled (litCI label) stop) analysis) in H. fold found in H.
  split; [| split].
  - unfold textAfter.
    destruct (search (labelled (litCI label) stop) analysis) as [m |], found as [r |];
      cbn [option_map] in H; try discriminate H; [| reflexivity].
    injection H as ->. reflexivity.
  - unfold bulletsAfter.
    destruct (search (labelled (litCI label) stop) analysis) as [m |], found as [r |];
      cbn [option_map] in H; try discriminate H; [| reflexivity].
    injection H as ->. reflexivity.
  - apply afterCI_includes.
Qed.

(** An analysis in the layout of the pitcher prompt. *)
Definition pitcherReport : string :=
  ("Pitcher overview:  Webb relies on his sinker. " ++ String nl
   "MATCHUP ADVANTAGES:" ++ String nl
   "- Ground balls" ++ String nl
   "- Weak contact" ++ String nl
   "Matchup Challenges:" ++ String nl
   "* Left-handed power")%string.

Example labelled_extractors_example :
  extractPitcherOverview pitcherReport = "Webb relies on his sinker."%string
  /\ extractMatchupAdvantages pitcherReport = ["Ground balls"; "Weak contact"]%string
  /\ extractMatchupChallenges pitcherReport = ["Left-handed power"]%string
  /\ extractStrategicPrediction pitcherReport = "No prediction available"%string
  /\ extractKeyBatters pitcherReport = [].
Proof. repeat split; vm_compute; reflexivity. Qed.

End LabelledText.

Section KeyBatters.
Import Js JsString Regex ResponseParser ParserExtractors.
Local Open Scope list_scope.

Definition colon : chars := [":"%char].

Lemma only_colon (c : ascii) : only ":" c = startsCI colon [c].
Proof.
  unfold colon, startsCI, isCI, only. rewrite andb_true_r.
  destruct c as [b0 b1 b2 b3 b4 b5 b6 b7].
  destruct b0, b1, b2, b3, b4, b5, b6, b7; vm_compute; reflexivity.
Qed.

Lemma startsCI_colon (c : ascii) (l : chars) : startsCI colon (c :: l) = only ":" c.
Proof. rewrite only_colon. unfold colon. cbn [startsCI]. now rewrite !andb_true_r. Qed.

(** The group and the stop, at any place of a text. *)
Lemma group_stop_here (stop : option string) (b l : chars) :
  mt (seqs [Group 1 (Star false any); stopRe stop]) Some
     {| before := b; rest := l; caps := [] |}
  = Some {| before := rev (upTo stop l) ++ b;
            rest := skipn (length (upTo stop l)) l;
            caps := [(1, upTo stop l)] |}.
Proof. cbn [seqs mt before rest caps]. exact (lazy_upTo stop b l []). Qed.

(** [.*?:] before the group: the group starts after the first colon. *)
Lemma lazy_colon (stop : option string) (l : chars) :
  forall b : chars,
    option_map caps
      (star_lazy any
         (mt (Chr (only ":")) (mt (seqs [Group 1 (Star false any); stopRe stop]) Some))
         b l [])
    = option_map (fun r => [(1, upTo stop r)]) (afterCI colon l).
Proof.
  induction l as [| c l IH]; intros b; [reflexivity |].
  cbn [star_lazy afterCI]. rewrite startsCI_colon.
  cbn [mt rest]. destruct (only ":" c) eqn:E.
  - unfold advance. cbn [before caps]. rewrite group_stop_here. reflexivity.
  - unfold any at 2. apply IH.
Qed.

Lemma afterCI_suffix (word l r : chars) :
  afterCI word l = Some r -> exists k, length word <= k /\ r = skipn k l.
Proof.
  induction l as [| c l IH]; cbn [afterCI].
  - destruct (startsCI word []); [| discriminate]. intros [= <-]. now exists (length word).
  - destruct (startsCI word (c :: l)).
    + intros [= <-]. now exists (length word).
    + intros H. destruct (IH H) as (k & Hk & ->). exists (S k). split; [lia | reflexivity].
Qed.

Lemma no_colon_skipn (l : chars) (k : nat) :
  afterCI colon l = None -> afterCI colon (skipn k l) = None.
Proof.
  revert l. induction k as [| k IH]; intros l H; [exact H |].
  destruct l as [| c l]; [exact H |]. cbn [skipn]. apply IH.
  cbn [afterCI] in H. now destruct (startsCI colon (c :: l)).
Qed.

Definition keyBattersLabel (word : string) : re :=
  seqs [litCI word; Star false any; Chr (only ":")].

Lemma search_keyBatters (word : string) (stop : option string) (l : chars) :
  word <> ""%string ->
  forall b : chars,
    option_map (fun m => caps (m_end m))
               (searchFrom (labelled (keyBattersLabel word) stop) b l)
    = match afterCI (list_ascii_of_string word) l with
      | Some r => option_map (fun r' => [(1, upTo stop r')]) (afterCI colon r)
      | None => None
      end.
Proof.
  intros Hword.
  assert (Hhere : forall b l,
            option_map caps
              (mt (labelled (keyBattersLabel word) stop) Some
                  {| before := b; rest := l; caps := [] |})
            = if startsCI (list_ascii_of_string word) l
              then option_map (fun r' => [(1, upTo stop r')])
                     (afterCI colon (skipn (length (list_ascii_of_string word)) l))
              else None).
  { intros b0 l0. unfold labelled, keyBattersLabel.
    rewrite mt_seqs_cons, mt_seqs_cons. unfold litCI at 1. rewrite mt_litCI.
    destruct (startsCI (list_ascii_of_string word) l0); [| reflexivity].
    exact (lazy_colon stop _ _). }
  assert (Hlen : 1 <= length (list_ascii_of_string word)).
  { destruct word; [contradiction | cbn; lia]. }
  induction l as [| c l IH]; intros b.
  - cbn [searchFrom afterCI]. specialize (Hhere b []).
    destruct (mt (labelled (keyBattersLabel word) stop) Some
                 {| before := b; rest := []; caps := [] |}) as [e |];
      destruct (startsCI (list_ascii_of_string word) []);
      cbn [option_map] in *;
      first [exact Hhere | discriminate Hhere | reflexivity].
  - cbn [searchFrom afterCI]. specialize (Hhere b (c :: l)).
    destruct (mt (labelled (keyBattersLabel word) stop) Some
                 {| before := b; rest := c :: l; caps := [] |}) as [e |].
    + destruct (startsCI (list_ascii_of_string word) (c :: l));
        cbn [option_map] in *; [exact Hhere | discriminate Hhere].
    + rewrite IH. destruct (startsCI (list_ascii_of_string word) (c :: l)); [| reflexivity].
      cbn [option_map] in Hhere.
      destruct (afterCI colon (skipn (length (list_ascii_of_string word)) (c :: l)))
        as [r' |] eqn:Ecolon; [discriminate Hhere |].
      destruct (afterCI (list_ascii_of_string word) l) as [r2 |] eqn:E2; [| reflexivity].
      destruct (afterCI_suffix _ _ _ E2) as (k & Hk & ->).
      destruct (length (list_ascii_of_string word)) as [| n] eqn:En; [lia |].
      cbn [skipn] in Ecolon.
      replace k with ((k - n) + n) by lia. rewrite <- List.skipn_skipn.
      now rewrite (no_colon_skipn _ _ Ecolon).
Qed.

(** X24. [extractKeyBatters] looks for "Key Batters", letter case aside, and
    for the first colon after it: it returns the bullet points of the
    text from that colon to the first "Strategic" after it, or to the end
    of the analysis. Without the label, or without a colon after its
    first occurrence, it returns no bullet point. *)
Theorem extractKeyBatters_spec (analysis : string) :
  extractKeyBatters analysis
  = match afterCI (list_ascii_of_string "Key Batters") (list_ascii_of_string analysis) with
    | Some r =>
        match afterCI colon r with
        | Some r' =>
            extractBulletPoints (string_of_list_ascii (upTo (Some "Strategic"%string) r'))
        | None => []
        end
    | None => []
    end.
Proof.
  unfold extractKeyBatters, bulletsAfter.
  fold (keyBattersLabel "Key Batters").
  pose proof (search_keyBatters "Key Batters" (Some "Strategic"%string)
                (list_ascii_of_string analysis) ltac:(discriminate) []) as H.
  fold (search (labelled (keyBattersLabel "Key Batters") (Some "Strategic"%string)) analysis)
    in H.
  destruct (search _ analysis) as [m |]; cbn [option_map] in H.
  - unfold group.
    destruct (afterCI (list_ascii_of_string "Key Batters") (list_ascii_of_string analysis))
      as [r |]; [| discriminate H].
    destruct (afterCI colon r) as [r' |]; cbn [option_map] in H; [| discriminate H].
    injection H as ->. reflexivity.
  - destruct (afterCI (list_ascii_of_string "Key Batters") (list_ascii_of_string analysis))
      as [r |]; [| reflexivity].
    destruct (afterCI colon r); [discriminate H | reflexivity].
Qed.

Example extractKeyBatters_example :
  extractKeyBatters
    ("Key batters to watch (top three): " ++ String nl
     "- Chapman" ++ String nl
     "- Ramos" ++ String nl
     "Strategic Prediction: a low-scoring game")%string
  = ["Chapman"; "Ramos"]%string.
Proof. vm_compute. reflexivity. Qed.

End KeyBatters.

Section LabelledExtractors.
Import Js JsString Regex ResponseParser ParserExtractors.
Local Open Scope list_scope.
Local Open Scope string_scope.

(** The text after the first place where the label stands, up to the
    first place after it where the stop word stands, or up to the end of
    the analysis; letter case aside. *)
Definition afterLabel (label : string) (stop : option string) (analysis : string)
  : option string :=
  option_map (fun r => string_of_list_ascii (upTo stop r))
             (afterCI (list_ascii_of_string label) (list_ascii_of_string analysis)).

(** The helper extractors that return a text: label, stop word, default. *)
Definition textExtractors : list ((string -> string) * string * option string * string) :=
  [ (extractPitcherOverview, "Pitcher Overview:", Some "Matchup", "No overview available");
    (extractStrategicPrediction, "Strategic Prediction:", None, "No prediction available");
    (extractCurrentMomentum, "Current Momentum:", Some "Key Trends", "Unknown momentum");
    (extractOutlook, "Outlook:", None, "No outlook available");
    (extractHistoricalContext, "Historical Context:", Some "Style", "No historical context");
    (extractStyleMatchup, "Style Matchup:", Some "Key Factors", "No style analysis");
    (extractPrediction, "Prediction:", None, "No prediction available");
    (extractImpactAssessment, "Impact Assessment:", Some "Lineup", "No impact assessment");
    (extractOpportunityAssessment, "Opportunity Assessment:", Some "Strategic",
     "No opportunity assessment");
    (extractRotationStrength, "Rotation Strength:", Some "Bullpen", "No rotation analysis");
    (extractBullpenAnalysis, "Bullpen Analysis:", Some "Workload", "No bullpen analysis");
    (extractWorkloadManagement, "Workload Management:", Some "Strategic",
     "No workload analysis");
    (extractCurrentPosition, "Current Position:", Some "Team Strengths",
     "No position analysis");
    (extractSeasonPrediction, "Prediction:", None, "No season prediction") ].

(** The helper extractors that return bullet points: label, stop word. *)
Definition listExtractors : list ((string -> list string) * string * option string) :=
  [ (extractMatchupAdvantages, "Matchup Advantages:", Some "Matchup Challenges");
    (extractMatchupChallenges, "Matchup Challenges:", Some "Key Batters");
    (extractKeyTrends, "Key Trends:", Some "Sustainable");
    (extractSustainableFactors, "Sustainable Factors:", Some "Warning");
    (extractWarningSignFactors, "Warning Signs:", Some "Outlook");
    (extractKeyFactors, "Key Factors:", Some "Prediction");
    (extractLineupChanges, "Lineup Changes:", Some "Opportunity");
    (extractStrategicImplications, "Strategic Implications:", None);
    (extractTeamStrengths, "Team Strengths:", Some "Areas for");
    (extractAreasForImprovement, "Areas for Improvement:", Some "Key Factors") ].

(** X23. The helper extractors of the parser look for a label and a stop
    word, letter case aside. When the label stands nowhere in the
    analysis they return their default text, or no bullet point.
    Otherwise they work on the text after the first place where the label
    stands, up to the first place after it where the stop word stands, or
    up to the end of the analysis when it stands nowhere or there is no
    stop word: the text extractors return it trimmed, the list extractors
    the bullet points of it. *)
Theorem labelled_extractors_spec :
  Forall (fun '(extract, label, stop, default) =>
            forall analysis : string,
              extract analysis
              = match afterLabel label stop analysis with
                | Some body => trim body
                | None => default
                end
              /\ (afterLabel label stop analysis = None
                  <-> includes (toLowerCase analysis) (toLowerCase label) = false))
         textExtractors
  /\ Forall (fun '(extract, label, stop) =>
               forall analysis : string,
                 extract analysis
                 = match afterLabel label stop analysis with
                   | Some body => extractBulletPoints body
                   | None => []
                   end
                 /\ (afterLabel label stop analysis = None
                     <-> includes (toLowerCase analysis) (toLowerCase label) = false))
            listExtractors.
Proof.
  assert (Hnone : forall label stop analysis,
             afterLabel label stop analysis = None
             <-> afterCI (list_ascii_of_string label) (list_ascii_of_string analysis) = None).
  { intros label stop analysis. unfold afterLabel.
    destruct (afterCI _ _); cbn [option_map]; split; congruence. }
  assert (Htext : forall label stop default analysis,
             textAfter (litCI label) stop default analysis
             = match afterLabel label stop analysis with
               | Some body => trim body
               | None => default
               end
             /\ (afterLabel label stop analysis = None
                 <-> includes (toLowerCase analysis) (toLowerCase label) = false)).
  { intros label stop default analysis.
    destruct (labelled_text_spec label stop default analysis) as (H1 & _ & H3).
    split; [| now rewrite Hnone].
    rewrite H1. unfold afterLabel. now destruct (afterCI _ _). }
  assert (Hlist : forall label stop analysis,
             bulletsAfter (litCI label) stop analysis
             = match afterLabel label stop analysis with
               | Some body => extractBulletPoints body
               | None => []
               end
             /\ (afterLabel label stop analysis = None
                 <-> includes (toLowerCase analysis) (toLowerCase label) = false)).
  { intros label stop analysis.
    destruct (labelled_text_spec label stop "" analysis) as (_ & H2 & H3).
    split; [| now rewrite Hnone].
    rewrite H2. unfold afterLabel. now destruct (afterCI _ _). }
  split.
  - unfold textExtractors. repeat (apply List.Forall_cons; [intros analysis; apply Htext |]).
    apply List.Forall_nil.
  - unfold listExtractors. repeat (apply List.Forall_cons; [intros analysis; apply Hlist |]).
    apply List.Forall_nil.
Qed.

(** A label that is present does not make the result non-empty: a
    section without bullet points gives no bullet point, a section
    without text the empty string. *)
Example labelled_extractors_empty_example :
  extractMatchupAdvantages "Matchup Advantages: none listed" = [] /\
  extractStyleMatchup "Style Matchup:  Key Factors: pitching" = "".
Proof. split; vm_compute; reflexivity. Qed.

End LabelledExtractors.

(* --------------------------------------------------------------------- *)
(** ** response-parser.js: the parse cache                                 *)
(* --------------------------------------------------------------------- *)

Section ParseCache.
Import Js JsString Regex ResponseParser ParserExtractors.
Local Open Scope string_scope.

Variable buildParsed : JsVal -> Res JsVal.

(** The first hundred code units of a content, white space deleted. *)
Definition keyOf (content : string) : string :=
  string_of_list_ascii
    (List.filter (fun ch => negb (is_ws ch)) (firstn 100 (list_ascii_of_string content))).

Lemma generateCacheKey_content (response : JsVal) (content : string) :
  get response "content" = Ok (JStr content) ->
  generateCacheKey response = Ok (keyOf content).
Proof.
  intros H. unfold generateCacheKey. rewrite H. cbn [bind].
  destruct content as [| c content]; reflexivity.
Qed.

(** X25. The parse cache is keyed by the first hundred code units of the
    content, white space deleted. After one response has been parsed,
    every response whose content has the same key is answered with the
    parse of the first one, whatever the rest of its content says: its
    own content is not parsed, and the cache stays as it is. *)
Theorem parseGameAnalysis_shared_key (parseCache : gmap string JsVal)
    (first second parsed : JsVal) (content1 content2 : string) :
  get first "content" = Ok (JStr content1) ->
  get second "content" = Ok (JStr content2) ->
  keyOf content1 = keyOf content2 ->
  parseCache !! keyOf content1 = None ->
  buildParsed first = Ok parsed ->
  let after := <[keyOf content1 := parsed]> parseCache in
  parseGameAnalysis buildParsed parseCache first = (Ok parsed, after)
  /\ parseGameAnalysis buildParsed after second = (Ok parsed, after).
Proof.
  intros H1 H2 Hkey Hfresh Hbuild after. unfold parseGameAnalysis.
  rewrite (generateCacheKey_content _ _ H1), (generateCacheKey_content _ _ H2).
  rewrite Hfresh, Hbuild. split; [reflexivity |].
  rewrite <- Hkey. unfold after. now rewrite lookup_insert_eq.
Qed.

End ParseCache.

Section ParseCacheSample.
Import Js JsString Regex ResponseParser ParserExtractors.
Local Open Scope string_scope.

(** Two analyses of different games that open with the same hundred code
    units. *)
Definition opening : string :=
  "## Overview The San Francisco Giants host their division rivals tonight at Oracle Park, first pitch at 6:45 pm. ".

Definition giantsWin : JsVal := JObj [("content", JStr (opening ++ "The Giants should win."))].
Definition giantsLose : JsVal := JObj [("content", JStr (opening ++ "The Giants will lose."))].

(** A parse that keeps the raw analysis only. *)
Definition rawOnly (response : JsVal) : Res JsVal :=
  analysis <- get response "content" ;;
  Ok (JObj [("rawAnalysis", analysis)]).

Lemma parseGameAnalysis_shared_key_witness :
  parseGameAnalysis rawOnly
    (<[keyOf (opening ++ "The Giants should win.") :=
         JObj [("rawAnalysis", JStr (opening ++ "The Giants should win."))]]> ∅)
    giantsLose
  = (Ok (JObj [("rawAnalysis", JStr (opening ++ "The Giants should win."))]),
     <[keyOf (opening ++ "The Giants should win.") :=
         JObj [("rawAnalysis", JStr (opening ++ "The Giants should win."))]]> ∅).
Proof.
  refine (proj2 (parseGameAnalysis_shared_key rawOnly ∅ giantsWin giantsLose
                   (JObj [("rawAnalysis", JStr (opening ++ "The Giants should win."))])
                   (opening ++ "The Giants should win.")
                   (opening ++ "The Giants will lose.") _ _ _ _ _)).
  - reflexivity.
  - reflexivity.
  - vm_compute. reflexivity.
  - apply lookup_empty.
  - reflexivity.
Defined.

End ParseCacheSample.

(* --------------------------------------------------------------------- *)
(** ** response-parser.js: the player spotlight                            *)
(* --------------------------------------------------------------------- *)

Section PlayerSpotlight.
Import Js JsString Regex ResponseParser ParserExtractors.
Local Open Scope list_scope.

(** A capital letter A-Z followed by one small letter a-z or more. *)
Definition capitalised (w : chars) : Prop :=
  exists c others,
    w = c :: others /\ is_capital c = true /\ others <> [] /\
    forallb is_small others = true.

(** Two capitalised words with white space between them. *)
Definition fullName (n : string) : Prop :=
  exists first gap second,
    list_ascii_of_string n = first ++ gap ++ second /\
    capitalised first /\ gap <> [] /\ forallb is_ws gap = true /\ capitalised second.

Lemma reads_plus (g : bool) (p : ascii -> bool) (u : chars) :
  reads (plus g p) u -> u <> [] /\ forallb p u = true.
Proof.
  cbn [plus reads]. intros (u1 & u2 & -> & (c & -> & Hc) & Hu).
  split; [discriminate |]. cbn. now rewrite Hc.
Qed.

Lemma reads_capitalised (c : ascii) (u : chars) :
  is_capital c = true -> reads (plus true is_small) u -> capitalised (c :: u).
Proof.
  intros Hc Hu. apply reads_plus in Hu as [Hne Hall]. now exists c, u.
Qed.

Lemma reads_fullName (u : chars) :
  reads (twoWords is_capital is_small) u -> fullName (string_of_list_ascii u).
Proof.
  unfold twoWords. intros H.
  apply reads_seqs_cons in H as (u1 & r1 & -> & (c1 & -> & Hc1) & H).
  apply reads_seqs_cons in H as (u2 & r2 & -> & Hu2 & H).
  apply reads_seqs_cons in H as (u3 & r3 & -> & Hu3 & H).
  apply reads_seqs_cons in H as (u4 & u5 & -> & (c4 & -> & Hc4) & Hu5).
  cbn [seqs] in Hu5. apply reads_plus in Hu3 as [Hne3 Hall3].
  exists (c1 :: u2), u3, (c4 :: u5).
  rewrite list_ascii_of_string_of_list_ascii.
  split; [reflexivity |].
  split; [now apply reads_capitalised |].
  split; [exact Hne3 |]. split; [exact Hall3 |].
  now apply reads_capitalised.
Qed.

(** A match of a pattern that is one group: the group is the match. *)
Lemma search_group_reads (r : re) (text : string) (m : Match) :
  search (Group 1 r) text = Some m ->
  exists a u t,
    list_ascii_of_string text = a ++ u ++ t /\ reads r u /\
    group 1 m = Some (string_of_list_ascii u).
Proof.
  unfold search. intros H.
  destruct (searchFrom_some _ _ _ _ H) as (a & t' & Ht & Hm).
  cbn [mt] in Hm.
  destruct (mt_reads r _ _ _ _ Hm) as (s' & u & [Hr Hb] & Hu & [= E]).
  cbn [before rest] in Hr, Hb.
  exists a, u, (rest s'). split; [now rewrite Ht, Hr |]. split; [exact Hu |].
  unfold group. rewrite <- E. cbn [caps lookupCap Nat.eqb option_map]. f_equal. f_equal.
  now apply (consumed_app (rev a ++ [])).
Qed.

Lemma includes_chars (text : string) (a u t : chars) :
  list_ascii_of_string text = a ++ u ++ t ->
  includes text (string_of_list_ascii u) = true.
Proof.
  intros H. apply includes_app.
  exists (string_of_list_ascii a), (string_of_list_ascii t).
  now rewrite <- !string_of_chars_app, <- H, string_of_list_ascii_of_string.
Qed.

Lemma extractPlayerReason_not_empty (context : string) :
  extractPlayerReason context <> ""%string.
Proof.
  unfold extractPlayerReason.
  destruct (includes (toLowerCase context) "matchup"),
           (includes (toLowerCase context) "hot"),
           (includes (toLowerCase context) "struggle"),
           (includes (toLowerCase context) "power"),
           (includes (toLowerCase context) "speed"),
           (includes (toLowerCase context) "clutch"); discriminate.
Qed.

Lemma playerOf_shape (analysis m : string) (p : Player) :
  includes analysis m = true ->
  In p (playerOf m) ->
  fullName (name p) /\ includes analysis (name p) = true /\
  context p = trim m /\ reason p = extractPlayerReason m.
Proof.
  intros Hm. unfold playerOf.
  destruct (search namePattern m) as [nameMatch |] eqn:E; [| intros []].
  destruct (search_group_reads _ _ _ E) as (a & u & t & Htext & Hu & ->).
  intros [<- | []]. cbn [name context reason].
  split; [now apply reads_fullName |]. split; [| now split].
  apply includes_app in Hm as (x & y & ->).
  apply includes_app.
  exists (x ++ string_of_list_ascii a)%string, (string_of_list_ascii t ++ y)%string.
  rewrite <- (string_of_list_ascii_of_string m) at 1. rewrite Htext.
  rewrite !string_of_chars_app. now rewrite !append_assoc.
Qed.

(** X26. [extractPlayerSpotlight] returns at most six players, under pairwise
    distinct names. Every name is two capitalised words (a capital A-Z,
    then small letters a-z) with white space between them, and it stands
    in the analysis as it is. The context is a trimmed piece of the
    analysis, and the reason, computed from that piece, is never
    empty. *)
Theorem extractPlayerSpotlight_shape (analysis : string) :
  (length (extractPlayerSpotlight analysis) <= 6)%nat /\
  List.NoDup (map name (extractPlayerSpotlight analysis)) /\
  Forall (fun p =>
            fullName (name p) /\ includes analysis (name p) = true /\
            (exists piece, includes analysis piece = true /\
                           context p = trim piece /\
                           reason p = extractPlayerReason piece) /\
            reason p <> ""%string)
         (extractPlayerSpotlight analysis).
Proof.
  unfold extractPlayerSpotlight.
  set (players := flat_map _ playerPatterns).
  destruct (deduplicatePlayerSpotlight_spec players) as (Hlen & Hnd & Hfirst & _).
  split; [exact Hlen |]. split; [exact Hnd |].
  apply List.Forall_forall. intros p Hp.
  destruct (Hfirst p Hp) as (l1 & l2 & E & _).
  assert (Hin : In p players) by (rewrite E; apply List.in_or_app; right; now left).
  apply List.in_flat_map in Hin as (pattern & _ & Hin).
  apply List.in_flat_map in Hin as (m & Hm & Hin).
  destruct (matchAll_reads _ _ _ Hm) as (a & u & t & Htext & _ & ->).
  pose proof (includes_chars _ _ _ _ Htext) as Hinc.
  destruct (playerOf_shape analysis _ p Hinc Hin) as (Hname & Hocc & Hctx & Hreason).
  split; [exact Hname |]. split; [exact Hocc |].
  split; [now exists (string_of_list_ascii u) |].
  rewrite Hreason. apply extractPlayerReason_not_empty.
Qed.

(** Under the [i] flag the first pattern ends on "is Matt", where no name
    stands; the second one starts on "The key" and gives the player. *)
Example extractPlayerSpotlight_example :
  extractPlayerSpotlight
    "The key batter is Matt Chapman, in a good matchup. Logan Webb is the standout."
  = [ {| name := "Matt Chapman";
         context := "The key batter is Matt Chapman, in a good matchup. Logan Webb is the standout";
         reason := "favorable matchup" |} ]%string.
Proof. vm_compute. reflexivity. Qed.

End PlayerSpotlight.

(* --------------------------------------------------------------------- *)
(** ** response-parser.js: the score prediction                            *)
(* --------------------------------------------------------------------- *)

Section ScorePrediction.
Import Js JsString Regex ResponseParser ParserScore.
Local Open Scope list_scope.

(** One decimal digit or more. *)
Definition number (l : chars) : Prop := l <> [] /\ forallb is_digit l = true.

Lemma separator_not_digit (c : ascii) :
  (dashOrSpace c || dashOrTo c) = true -> negb (is_digit c) = true.
Proof.
  destruct c as [b0 b1 b2 b3 b4 b5 b6 b7].
  destruct b0, b1, b2, b3, b4, b5, b6, b7; vm_compute; intros H;
    first [reflexivity | discriminate H].
Qed.

Lemma digit_not_ws (c : ascii) : is_digit c = true -> is_ws c = false.
Proof.
  intros H. destruct (is_ws c) eqn:E; [| reflexivity].
  apply ws_not_digit in E. congruence.
Qed.

Lemma initial_not_ws (c : ascii) :
  (isCI "s" c || isCI "f" c) = true -> is_ws c = false.
Proof.
  destruct c as [b0 b1 b2 b3 b4 b5 b6 b7].
  destruct b0, b1, b2, b3, b4, b5, b6, b7; vm_compute; intros H;
    first [reflexivity | discriminate H].
Qed.

Lemma number_last (l : chars) :
  number l -> exists l' d, l = l' ++ [d] /\ is_digit d = true.
Proof.
  intros [Hne Hall]. destruct (exists_last Hne) as (l' & d & ->).
  exists l', d. split; [reflexivity |].
  rewrite forallb_app in Hall. apply andb_true_iff in Hall as [_ Hd].
  cbn in Hd. now rewrite andb_true_r in Hd.
Qed.

Lemma number_first (l : chars) :
  number l -> exists d l', l = d :: l' /\ is_digit d = true.
Proof.
  intros [Hne Hall]. destruct l as [| d l']; [contradiction |].
  exists d, l'. split; [reflexivity |]. cbn in Hall. now apply andb_true_iff in Hall.
Qed.

(** Trimming leaves a text alone that begins and ends with something
    else than white space. *)
Lemma trimChars_framed (c d : ascii) (mid : chars) :
  is_ws c = false -> is_ws d = false ->
  trimChars (c :: mid ++ [d]) = c :: mid ++ [d].
Proof.
  intros Hc Hd. unfold trimChars. cbn [dropWhile]. rewrite Hc.
  cbn [rev]. rewrite rev_app_distr. cbn [rev app dropWhile]. rewrite Hd.
  cbn [rev]. rewrite rev_app_distr, rev_involutive. reflexivity.
Qed.

Lemma forallb_weaken {A : Type} (p q : A -> bool) (l : list A) :
  (forall x, p x = true -> q x = true) -> forallb p l = true -> forallb q l = true.
Proof.
  intros Hpq. induction l as [| x l IH]; [reflexivity |]. cbn.
  intros H. apply andb_true_iff in H as [Hx Hl]. now rewrite (Hpq x Hx), IH.
Qed.

(** What a match of one of the two patterns looks like. *)
Lemma scorePatterns_read (pattern : re) (u : chars) :
  In pattern scorePatterns -> reads pattern u ->
  trimChars u = u /\
  exists lead first gap second,
    u = lead ++ first ++ gap ++ second /\
    number first /\ gap <> [] /\ noDigit gap = true /\ number second.
Proof.
  intros [<- | [<- | []]] H.
  - apply reads_seqs_cons in H as (w & r1 & -> & Hw & H).
    apply reads_seqs_cons in H as (x & r2 & -> & _ & H).
    cbn [seqs reads] in H.
    destruct H as (d1 & r3 & -> & Hd1 & g & d2 & -> & Hg & Hd2).
    apply reads_plus in Hd1, Hg, Hd2.
    assert (Hfirst : exists c w', w = c :: w' /\ is_ws c = false).
    { cbn [map alts] in Hw. unfold litCI in Hw. cbn [list_ascii_of_string map] in Hw.
      destruct Hw as [Hw | Hw];
        apply reads_seqs_cons in Hw as (u1 & u2 & -> & (c & -> & Hc) & _);
        exists c, u2; (split; [reflexivity |]); apply initial_not_ws;
        rewrite Hc; [reflexivity | apply orb_true_r]. }
    destruct Hfirst as (c & w' & -> & Hc).
    destruct (number_last d2 Hd2) as (d2' & d & E2 & Hd).
    split.
    + rewrite E2.
      replace ((c :: w') ++ x ++ d1 ++ g ++ d2' ++ [d])
        with (c :: (w' ++ x ++ d1 ++ g ++ d2') ++ [d])
        by (cbn; now rewrite <- !app_assoc).
      apply trimChars_framed; [exact Hc | now apply digit_not_ws].
    + exists ((c :: w') ++ x), d1, g, d2. rewrite <- !app_assoc.
      split; [reflexivity |]. split; [exact Hd1 |]. split; [apply Hg |].
      split; [| exact Hd2].
      apply (forallb_weaken dashOrSpace); [| apply Hg].
      intros y Hy. apply separator_not_digit. now rewrite Hy.
  - apply reads_seqs_cons in H as (d1 & r1 & -> & Hd1 & H).
    apply reads_seqs_cons in H as (s1 & r2 & -> & Hs1 & H).
    apply reads_seqs_cons in H as (g & r3 & -> & Hg & H).
    apply reads_seqs_cons in H as (s2 & d2 & -> & Hs2 & Hd2).
    cbn [seqs reads] in Hd1, Hs1, Hs2, Hd2.
    apply reads_plus in Hd1, Hg, Hd2.
    destruct (number_first d1 Hd1) as (c & d1' & E1 & Hc).
    destruct (number_last d2 Hd2) as (d2' & d & E2 & Hd).
    split.
    + rewrite E1, E2.
      replace ((c :: d1') ++ s1 ++ g ++ s2 ++ d2' ++ [d])
        with (c :: (d1' ++ s1 ++ g ++ s2 ++ d2') ++ [d])
        by (cbn; now rewrite <- !app_assoc).
      apply trimChars_framed; now apply digit_not_ws.
    + exists [], d1, (s1 ++ g ++ s2), d2. rewrite <- !app_assoc.
      split; [reflexivity |]. split; [exact Hd1 |].
      split; [destruct Hg as [Hne _]; destruct s1, g; try discriminate; contradiction |].
      split; [| exact Hd2].
      unfold noDigit. rewrite !forallb_app.
      rewrite (forallb_weaken is_ws (fun c => negb (is_digit c)) s1);
        [| intros y Hy; now rewrite (ws_not_digit y Hy) | exact Hs1].
      rewrite (forallb_weaken is_ws (fun c => negb (is_digit c)) s2);
        [| intros y Hy; now rewrite (ws_not_digit y Hy) | exact Hs2].
      rewrite (forallb_weaken dashOrTo (fun c => negb (is_digit c)) g);
        [reflexivity | | apply Hg].
      intros y Hy. apply separator_not_digit. rewrite Hy. apply orb_true_r.
Qed.

Lemma noDigit_number (a first t : chars) :
  noDigit (a ++ first ++ t) = true -> number first -> False.
Proof.
  intros H Hn. destruct (number_first first Hn) as (d & l' & -> & Hd).
  unfold noDigit in H. rewrite !forallb_app in H.
  apply andb_true_iff in H as [_ H]. apply andb_true_iff in H as [H _].
  cbn in H. rewrite Hd in H. discriminate H.
Qed.

(** X27. [extractScorePrediction] returns [null] for an analysis without a
    digit. A score it returns stands in the analysis as it is, without
    white space around it, and ends with two numbers that something else
    than digits separates. *)
Theorem extractScorePrediction_shape (analysis : string) :
  (noDigit (list_ascii_of_string analysis) = true ->
   extractScorePrediction analysis = None) /\
  (forall score : string,
     extractScorePrediction analysis = Some score ->
     includes analysis score = true /\ trim score = score /\
     exists lead first gap second,
       list_ascii_of_string score = lead ++ first ++ gap ++ second /\
       number first /\ gap <> [] /\ noDigit gap = true /\ number second).
Proof.
  assert (Hshape : forall m0, firstOutcomeMatch scorePatterns analysis = Some m0 ->
            exists a u t, list_ascii_of_string analysis = a ++ u ++ t /\
                          m0 = string_of_list_ascii u /\ trimChars u = u /\
                          exists lead first gap second,
                            u = lead ++ first ++ gap ++ second /\
                            number first /\ gap <> [] /\ noDigit gap = true /\
                            number second).
  { intros m0 H. apply firstOutcomeMatch_some in H as (pattern & Hp & Hm).
    destruct (matchAll_reads _ _ _ Hm) as (a & u & t & Htext & Hu & ->).
    destruct (scorePatterns_read pattern u Hp Hu) as [Htrim Hparts].
    now exists a, u, t. }
  unfold extractScorePrediction. split.
  - intros Hno. destruct (firstOutcomeMatch scorePatterns analysis) as [m0 |] eqn:E;
      [| reflexivity].
    exfalso.
    destruct (Hshape m0 eq_refl)
      as (a & u & t & Htext & _ & _ & lead & first & gap & second & -> & Hn & _).
    rewrite Htext in Hno.
    apply (noDigit_number (a ++ lead) first (gap ++ second ++ t)); [| exact Hn].
    now rewrite <- !app_assoc in *.
  - intros score H.
    destruct (firstOutcomeMatch scorePatterns analysis) as [m0 |] eqn:E;
      [| discriminate H].
    cbn [option_map] in H. injection H as <-.
    destruct (Hshape m0 eq_refl) as (a & u & t & Htext & -> & Htrim & Hparts).
    rewrite trim_of_chars, Htrim.
    split; [now apply (includes_chars _ a u t) |].
    split; [now rewrite trim_of_chars, Htrim |].
    now rewrite list_ascii_of_string_of_list_ascii.
Qed.

Example extractScorePrediction_examples :
  extractScorePrediction "Final score prediction: Giants 5-3 over the Dodgers"
  = Some "Final score prediction: Giants 5-3"%string
  /\ extractScorePrediction "The Giants take it 4 to 2 tonight" = Some "4 to 2"%string
  /\ extractScorePrediction "First pitch on 2024-05-01" = Some "2024-05"%string
  /\ extractScorePrediction "A close game" = None.
Proof. repeat split; vm_compute; reflexivity. Qed.

End ScorePrediction.

(* --------------------------------------------------------------------- *)
(** ** useGameData: the hook of the web client                             *)
(* --------------------------------------------------------------------- *)

Section HookProperties.
Import Js GameDataHook.
Local Open Scope Z_scope.

(** X28. A background refresh finds its cache stale before [fetchGameData]
    looks whether it is valid; the clock does not go back in between.
    So it never serves the cached data again: it sends one request, or
    it leaves the hook as it is, and it sends one exactly when the hook
    is mounted and holds data fetched more than ten minutes ago. The
    five minutes of [CACHE_DURATION] spare no request. *)
Theorem backgroundRefresh_fetches_or_idles (h : Hook) (nowStale nowCheck : Z)
    (api : ApiOutcome) (unmounts : bool) (nowDone : Z) :
  nowStale <= nowCheck ->
  let after := backgroundRefresh h nowStale nowCheck api unmounts nowDone in
  (snd after = 1%nat /\ isUnmounted h = false /\
   exists gameData fetched,
     cacheRef h = Some (gameData, fetched) /\ STALE_DATA_THRESHOLD < nowStale - fetched)
  \/ (after = (h, 0%nat) /\
      (isUnmounted h = true \/ cacheRef h = None \/
       exists gameData fetched,
         cacheRef h = Some (gameData, fetched) /\
         nowStale - fetched <= STALE_DATA_THRESHOLD)).
Proof.
  intros Hclock after. unfold after, backgroundRefresh.
  destruct (cacheRef h) as [[gameData fetched] |] eqn:Ecache; [| right; auto].
  unfold isDataStale. cbn [snd].
  destruct (Z.ltb_spec STALE_DATA_THRESHOLD (nowStale - fetched)) as [Hstale | Hfresh].
  - unfold fetchGameData. destruct (isUnmounted h) eqn:Eu; [right; auto |].
    left. rewrite Ecache. unfold isCacheValid. cbn [snd].
    destruct (Z.ltb_spec (nowCheck - fetched) CACHE_DURATION) as [Hvalid | _].
    { exfalso. unfold STALE_DATA_THRESHOLD, CACHE_DURATION in *. lia. }
    split; [| split; [reflexivity | now exists gameData, fetched]].
    destruct unmounts; [reflexivity |]. destruct api; reflexivity.
  - right. split; [reflexivity |]. right. right. now exists gameData, fetched.
Qed.

(** The hook is at rest: nothing is loading, and the data shown, if any,
    are the cached ones, with the time they were fetched at. *)
Definition settled (h : Hook) : Prop :=
  loading h = false /\
  match data h with
  | Some gameData =>
      exists fetched, cacheRef h = Some (gameData, fetched) /\ lastUpdated h = Some fetched
  | None => lastUpdated h = None
  end.

Lemma fetchGameData_mounted (showLoading : bool) (h : Hook) (nowCheck : Z)
    (api : ApiOutcome) (unmounts : bool) (nowDone : Z) :
  isUnmounted (fst (fetchGameData showLoading h nowCheck api unmounts nowDone)) = false ->
  isUnmounted h = false /\
  (snd (fetchGameData showLoading h nowCheck api unmounts nowDone) = 1%nat ->
   unmounts = false).
Proof.
  unfold fetchGameData. destruct (isUnmounted h) eqn:Eu; [intros H; cbn in H; congruence |].
  intros H. split; [reflexivity |].
  destruct (if showLoading then None else _) as [c |]; [discriminate |].
  destruct unmounts; [discriminate H | reflexivity].
Qed.

Lemma handle_mounted (h : Hook) (e : Event) :
  isUnmounted (fst (handle h e)) = false -> isUnmounted h = false.
Proof.
  destruct e as [nowCheck api unmounts nowDone | nowCheck api unmounts nowDone
                | nowStale nowCheck api unmounts nowDone]; cbn [handle].
  - intros H. now apply fetchGameData_mounted in H.
  - unfold refresh. intros H. now apply fetchGameData_mounted in H.
  - unfold backgroundRefresh. destruct (cacheRef h) as [c |]; [| trivial].
    destruct (isDataStale c nowStale); [| trivial].
    intros H. now apply fetchGameData_mounted in H.
Qed.

Lemma fetchGameData_settled (showLoading : bool) (h : Hook) (nowCheck : Z)
    (api : ApiOutcome) (unmounts : bool) (nowDone : Z) :
  (showLoading = false -> settled h) ->
  isUnmounted (fst (fetchGameData showLoading h nowCheck api unmounts nowDone)) = false ->
  settled (fst (fetchGameData showLoading h nowCheck api unmounts nowDone)).
Proof.
  intros Hs. unfold fetchGameData.
  destruct (isUnmounted h) eqn:Eu; [cbn; congruence |].
  destruct showLoading.
  - destruct unmounts; [discriminate |]. intros _.
    destruct api as [gameData | isError message]; cbn; split; try reflexivity.
    now exists nowDone.
  - destruct (Hs eq_refl) as [Hload Hshown].
    destruct (cacheRef h) as [[cached fetched] |] eqn:Ecache.
    + destruct (isCacheValid (cached, fetched) nowCheck).
      * intros _. cbn. split; [exact Hload | now exists fetched].
      * destruct unmounts; [discriminate |]. intros _.
        destruct api as [gameData | isError message]; cbn;
          (split; [exact Hload |]); [now exists nowDone | now exists fetched].
    + destruct unmounts; [discriminate |]. intros _.
      destruct api as [gameData | isError message]; cbn;
        (split; [exact Hload |]); [now exists nowDone | reflexivity].
Qed.

Lemma handle_settled (h : Hook) (e : Event) :
  settled h -> isUnmounted (fst (handle h e)) = false -> settled (fst (handle h e)).
Proof.
  intros Hs.
  destruct e as [nowCheck api unmounts nowDone | nowCheck api unmounts nowDone
                | nowStale nowCheck api unmounts nowDone]; cbn [handle].
  - apply fetchGameData_settled. discriminate.
  - apply fetchGameData_settled. discriminate.
  - unfold backgroundRefresh. destruct (cacheRef h) as [c |]; [| trivial].
    destruct (isDataStale c nowStale); [| trivial].
    apply fetchGameData_settled. trivial.
Qed.

Lemma run_cons (h : Hook) (e : Event) (events : list Event) :
  fst (run h (e :: events)) = fst (run (fst (handle h e)) events).
Proof.
  cbn [run]. destruct (handle h e) as [h1 n1]. cbn [fst].
  now destruct (run h1 events).
Qed.

Lemma run_mounted (events : list Event) (h : Hook) :
  isUnmounted (fst (run h events)) = false -> isUnmounted h = false.
Proof.
  revert h. induction events as [| e events IH]; intros h; [trivial |].
  rewrite run_cons. intros H. apply (handle_mounted h e). now apply IH.
Qed.

(** X29. Whatever the user and the window do after the component has
    mounted, and whatever the requests answer, a hook that is still
    mounted is at rest between two events: nothing is loading, the data
    shown are the cached ones and [lastUpdated] is the time they were
    fetched at, and without data [lastUpdated] is [null]. *)
Theorem hook_settled_after_events (events : list Event) :
  isUnmounted (fst (run mounted events)) = false ->
  settled (fst (run mounted events)).
Proof.
  assert (Hgen : forall h, settled h -> isUnmounted (fst (run h events)) = false ->
                           settled (fst (run h events))).
  { induction events as [| e events IH]; intros h Hs; [trivial |].
    rewrite run_cons. intros Hm. apply IH; [| exact Hm].
    apply handle_settled; [exact Hs |]. exact (run_mounted events _ Hm). }
  apply Hgen. split; reflexivity.
Qed.

Definition isBackground (e : Event) : Prop :=
  match e with
  | Background _ _ _ _ _ => True
  | _ => False
  end.

Lemma background_without_cache (events : list Event) (h : Hook) :
  Forall isBackground events -> cacheRef h = None -> run h events = (h, 0%nat).
Proof.
  intros Hall Hc. induction Hall as [| e events He _ IH]; [reflexivity |].
  destruct e; try contradiction. cbn [run handle]. unfold backgroundRefresh.
  rewrite Hc. now rewrite IH.
Qed.

(** X30. When the first load fails, or a refresh asked for by the user, the
    hook shows the error and no data, and its cache is empty. From then
    on the background refreshes of the interval, of the focus and of the
    visibility of the window send no request and change nothing, however
    many they are: only [retry] and [refresh] fetch again. *)
Theorem failed_refresh_stops_background (h : Hook) (events : list Event)
    (nowCheck nowDone : Z) (isError : bool) (message : string) :
  Forall isBackground events ->
  isUnmounted h = false ->
  let failure := Rejected isError message in
  let shown := if isError then message else "Failed to fetch game data"%string in
  let stuck :=
    {| data := None; loading := false; error := Some shown; lastUpdated := None;
       cacheRef := None; isUnmounted := false |} in
  run h (Refresh nowCheck failure false nowDone :: events) = (stuck, 1%nat)
  /\ run mounted (Retry nowCheck failure false nowDone :: events) = (stuck, 1%nat).
Proof.
  intros Hall Hm failure shown stuck. subst failure.
  assert (Hstuck : run stuck events = (stuck, 0%nat))
    by now apply background_without_cache.
  assert (Hrefresh : handle h (Refresh nowCheck (Rejected isError message) false nowDone)
                     = (stuck, 1%nat)).
  { cbn [handle]. unfold refresh, fetchGameData. cbn [isUnmounted]. now rewrite Hm. }
  assert (Hretry : handle mounted (Retry nowCheck (Rejected isError message) false nowDone)
                   = (stuck, 1%nat)) by reflexivity.
  split; cbn [run]; [rewrite Hrefresh | rewrite Hretry]; now rewrite Hstuck.
Qed.

End HookProperties.

Section HookSamples.
Import Js GameDataHook.
Local Open Scope Z_scope.

Definition tonight : JsVal := JObj [("opponent", JStr "Dodgers")].

(** A hook that fetched its data at the time 0. *)
Definition loaded : Hook :=
  {| data := Some tonight; loading := false; error := None; lastUpdated := Some 0;
     cacheRef := Some (tonight, 0); isUnmounted := false |}.

Lemma backgroundRefresh_witness :
  snd (backgroundRefresh loaded 660000 660001 (Rejected true "offline") false 660100) = 1%nat
  /\ backgroundRefresh loaded 240000 240001 (Rejected true "offline") false 240100
     = (loaded, 0%nat).
Proof.
  split.
  - destruct (backgroundRefresh_fetches_or_idles loaded 660000 660001
                (Rejected true "offline") false 660100 ltac:(lia)) as [[H _] | [H _]];
      [exact H | rewrite H; discriminate || reflexivity].
  - destruct (backgroundRefresh_fetches_or_idles loaded 240000 240001
                (Rejected true "offline") false 240100 ltac:(lia)) as [[H _] | [H _]];
      [discriminate H | exact H].
Defined.

Definition evening : list Event :=
  [ Retry 0 (Resolved tonight) false 100;
    Background 700000 700001 (Rejected false "") false 700100;
    Refresh 800000 (Rejected true "offline") false 800100;
    Background 2600000 2600001 (Resolved tonight) false 2600100 ].

Lemma hook_settled_witness : settled (fst (run mounted evening)).
Proof. apply hook_settled_after_events. reflexivity. Defined.

Example evening_run :
  run mounted evening
  = ({| data := None; loading := false; error := Some "offline"%string;
        lastUpdated := None; cacheRef := None; isUnmounted := false |}, 3%nat).
Proof. vm_compute. reflexivity. Qed.

Lemma failed_refresh_witness :
  run loaded [ Refresh 1000 (Rejected true "offline") false 1100;
               Background 1900000 1900001 (Resolved tonight) false 1900100;
               Background 3700000 3700001 (Resolved tonight) false 3700100 ]
  = ({| data := None; loading := false; error := Some "offline"%string;
        lastUpdated := None; cacheRef := None; isUnmounted := false |}, 1%nat).
Proof.
  refine (proj1 (failed_refresh_stops_background loaded
                   [ Background 1900000 1900001 (Resolved tonight) false 1900100;
                     Background 3700000 3700001 (Resolved tonight) false 3700100 ]
                   1000 1100 true "offline" _ _)).
  - repeat constructor.
  - reflexivity.
Defined.

End HookSamples.
